(** * Verification of the KITSS book layout engine

    Shallow embedding of the markup parser ([parseMarkdownToBlocks],
    src/components/ExperienceHighlights.tsx), of the chapter-title
    deduplication, of the greedy token wrapper and of the document
    assembler [buildBookPdf] (src/components/icons/LogoIcon.tsx).

    Conventions of the model:
    - a JavaScript string is a [string]; each [ascii] stands for one UTF-16
      code unit in the range 0..255;
    - numbers that are measured lengths (widths, heights, coordinates) are
      rationals [Q]; chapter indices are [Z];
    - pdf-lib (font metrics, image decoding) and [atob] are external to the
      repository and enter as section variables. *)

From Stdlib Require Import String Ascii List Bool Arith Lia ZArith QArith Qround Lqa.
From stdpp Require Import base gmap strings.
Import ListNotations.
Open Scope string_scope.
Open Scope nat_scope.

(* ------------------------------------------------------------------ *)
(** ** Characters and JavaScript string helpers *)

Module JsString.

(** [\s] of JavaScript regular expressions and the characters removed by
    [String.prototype.trim], restricted to code units 0..255:
    tab, line feed, vertical tab, form feed, carriage return, space, NBSP. *)
Definition is_space (c : ascii) : bool :=
  let n := nat_of_ascii c in
  ((9 <=? n) && (n <=? 13)) || (n =? 32) || (n =? 160).

(** Line terminators, the characters that [.] does not match. *)
Definition is_line_term (c : ascii) : bool :=
  let n := nat_of_ascii c in (n =? 10) || (n =? 13).

Definition is_digit (c : ascii) : bool :=
  let n := nat_of_ascii c in (48 <=? n) && (n <=? 57).

Fixpoint ltrim (s : string) : string :=
  match s with
  | EmptyString => EmptyString
  | String c s' => if is_space c then ltrim s' else s
  end.

Fixpoint rtrim (s : string) : string :=
  match s with
  | EmptyString => EmptyString
  | String c s' =>
      let r := rtrim s' in
      if is_space c && (r =? "")%string then EmptyString else String c r
  end.

(** [String.prototype.trim]. *)
Definition trim (s : string) : string := rtrim (ltrim s).

Fixpoint sdrop (n : nat) (s : string) : string :=
  match n, s with
  | 0, _ => s
  | S n', String _ s' => sdrop n' s'
  | S _, EmptyString => EmptyString
  end.

Fixpoint count_leading (p : ascii -> bool) (s : string) : nat :=
  match s with
  | String c s' => if p c then S (count_leading p s') else 0
  | EmptyString => 0
  end.

(** [s.split(sep)] for a one-character separator. *)
Fixpoint split_aux (sep : ascii) (cur : string) (s : string) : list string :=
  match s with
  | EmptyString => [cur]
  | String c s' =>
      if Ascii.eqb c sep then cur :: split_aux sep EmptyString s'
      else split_aux sep (cur ++ String c EmptyString) s'
  end.

Definition split (sep : ascii) (s : string) : list string := split_aux sep "" s.

(** [arr.join(sep)]. *)
Fixpoint join (sep : string) (l : list string) : string :=
  match l with
  | [] => ""
  | [x] => x
  | x :: l' => x ++ sep ++ join sep l'
  end.

(** [s.replace(/\r\n/g, '\n')]. *)
Fixpoint replace_crlf (s : string) : string :=
  match s with
  | String c1 ((String c2 s'') as s') =>
      if (nat_of_ascii c1 =? 13) && (nat_of_ascii c2 =? 10)
      then String (ascii_of_nat 10) (replace_crlf s'')
      else String c1 (replace_crlf s')
  | _ => s
  end.

(** [s.replace(/[class]+/g, ' ')] for a character class [p]: every maximal
    run of characters of the class becomes one space. [in_run] says whether
    the previous character was in the class. *)
Fixpoint collapse_runs_aux (p : ascii -> bool) (in_run : bool) (s : string)
  : string :=
  match s with
  | EmptyString => EmptyString
  | String c s' =>
      if p c then
        (if in_run then collapse_runs_aux p true s'
         else String " " (collapse_runs_aux p true s'))
      else String c (collapse_runs_aux p false s')
  end.

(** [s.replace(/\s+/g, ' ')]. *)
Definition collapse_ws (s : string) : string := collapse_runs_aux is_space false s.

(** The regular expression [.+] anchored by [$] on the remaining input:
    a non-empty string without line terminators. *)
Fixpoint dot_star (s : string) : bool :=
  match s with
  | EmptyString => true
  | String c s' => negb (is_line_term c) && dot_star s'
  end.

Definition dot_plus (s : string) : bool :=
  match s with
  | EmptyString => false
  | _ => dot_star s
  end.

End JsString.

Import JsString.

(* ------------------------------------------------------------------ *)
(** ** Structured blocks (src/services/pdfTypes.ts) *)

(** [RichTextSpan]; an absent [bold] or [italic] flag is [false]. *)
Record RichTextSpan := mkSpan {
  span_text : string;
  span_bold : bool;
  span_italic : bool
}.

Definition plain (t : string) : RichTextSpan := mkSpan t false false.

(** [StructuredBlock], one constructor per [kind]. *)
Inductive StructuredBlock :=
| Heading (level : nat) (text : string)
| Paragraph (spans : list RichTextSpan)
| List_ (ordered : bool) (items : list (list RichTextSpan))
| Quote (spans : list RichTextSpan).

(* ------------------------------------------------------------------ *)
(** ** Markup parser (src/components/ExperienceHighlights.tsx) *)

Module Markdown.

(** [normalizeWhitespace]. *)
Definition normalizeWhitespace (v : string) : string := trim (collapse_ws v).

(** Maximal prefix of characters different from [d], and the rest. *)
Fixpoint run_not (d : ascii) (s : string) : string * string :=
  match s with
  | EmptyString => (EmptyString, EmptyString)
  | String c s' =>
      if Ascii.eqb c d then (EmptyString, s)
      else let (r, rest) := run_not d s' in (String c r, rest)
  end.

(** One alternative of the inline pattern: [d d [^d]+ d d] when [double],
    [d [^d]+ d] otherwise, at the start of [s]. The greedy class [[^d]+]
    takes the maximal run, and a shorter run can never be followed by [d],
    so the match exists exactly when the maximal run is followed by the
    closing delimiter. Returns the matched text and the rest. *)
Definition delim_match (d : ascii) (double : bool) (s : string)
  : option (string * string) :=
  let open_ := if double then String d (String d EmptyString)
               else String d EmptyString in
  if String.prefix open_ s then
    let (body, rest) := run_not d (sdrop (String.length open_) s) in
    if (body =? "")%string then None
    else if String.prefix open_ rest
         then Some (open_ ++ body ++ open_, sdrop (String.length open_) rest)
         else None
  else None.

(** [/(\*\*[^*]+\*\*|__[^_]+__|\*[^*]+\*|_[^_]+_|`[^`]+`)/] at the start of
    [s], alternatives tried in order. *)
Definition inline_match_at (s : string) : option (string * string) :=
  match delim_match "*" true s with
  | Some r => Some r
  | None =>
  match delim_match "_" true s with
  | Some r => Some r
  | None =>
  match delim_match "*" false s with
  | Some r => Some r
  | None =>
  match delim_match "_" false s with
  | Some r => Some r
  | None => delim_match "`" false s
  end end end end.

(** The replace callback: the span of one match. *)
Definition span_of_match (m : string) : list RichTextSpan :=
  let n := String.length m in
  if String.prefix "**" m || String.prefix "__" m then
    [mkSpan (substring 2 (n - 4) m) true false]
  else if String.prefix "*" m || String.prefix "_" m then
    [mkSpan (substring 1 (n - 2) m) false true]
  else if String.prefix "`" m then
    [plain (substring 1 (n - 2) m)]
  else [].

(** The global scan of [text.replace(pattern, cb)]: [gap] is the text since
    [lastIndex] not yet pushed, [s] the input from the current offset.
    Every match is non-empty, so [fuel = length s] suffices. *)
Fixpoint scan (fuel : nat) (gap : string) (s : string) : list RichTextSpan :=
  match fuel with
  | 0 => if (gap ++ s =? "")%string then [] else [plain (gap ++ s)]
  | S f =>
    match s with
    | EmptyString => if (gap =? "")%string then [] else [plain gap]
    | String c s' =>
        match inline_match_at s with
        | Some (m, rest) =>
            (if (gap =? "")%string then [] else [plain gap])
              ++ span_of_match m ++ scan f "" rest
        | None => scan f (gap ++ String c EmptyString) s'
        end
    end
  end.

(** [parseInlineSpans]. *)
Definition parseInlineSpans (text : string) : list RichTextSpan :=
  map (fun sp => mkSpan (collapse_ws (span_text sp)) (span_bold sp) (span_italic sp))
      (scan (String.length text) "" text).

(** Backtracking of a whitespace quantifier followed by [(.+)$]: the engine
    first tries [m] whitespace characters, then fewer. With [plus] the
    quantifier is [\s+] (at least one), otherwise [\s*]. *)
Fixpoint try_ws (plus : bool) (r : string) (m : nat) : option string :=
  let rest := sdrop m r in
  if (negb plus || (0 <? m)) && dot_plus rest then Some rest
  else match m with
       | 0 => None
       | S m' => try_ws plus r m'
       end.

(** [#{1,3}] tried greedily: [n] hashes, then fewer. *)
Fixpoint try_hashes (s : string) (n : nat) : option (nat * string) :=
  match n with
  | 0 => None
  | S n' =>
      let r := sdrop n s in
      match try_ws false r (count_leading is_space r) with
      | Some rest => Some (n, rest)
      | None => try_hashes s n'
      end
  end.

Definition is_hash (c : ascii) : bool := Ascii.eqb c "#".

(** [trimmed.match(/^(#{1,3})\s*(.+)$/)]: the length of group 1 and group 2. *)
Definition headingMatch (s : string) : option (nat * string) :=
  try_hashes s (Nat.min 3 (count_leading is_hash s)).

(** [trimmed.match(/^[*-+]\s+(.+)$/)]: group 1. The class [[*-+]] is the
    range from ['*'] (42) to ['+'] (43). *)
Definition bulletMatch (s : string) : option string :=
  match s with
  | String c r =>
      let n := nat_of_ascii c in
      if (42 <=? n) && (n <=? 43) then try_ws true r (count_leading is_space r)
      else None
  | EmptyString => None
  end.

(** [trimmed.match(/^>\s*(.+)$/)]: group 1. *)
Definition blockquoteMatch (s : string) : option string :=
  match s with
  | String c r =>
      if Ascii.eqb c ">" then try_ws false r (count_leading is_space r)
      else None
  | EmptyString => None
  end.

(** [flushParagraph]: the blocks after flushing the buffer (the buffer is
    empty afterwards). *)
Definition flushParagraph (buf : list string) (blocks : list StructuredBlock)
  : list StructuredBlock :=
  match buf with
  | [] => blocks
  | _ =>
      let paragraphText := normalizeWhitespace (join " " buf) in
      if (paragraphText =? "")%string then blocks
      else blocks ++ [Paragraph (parseInlineSpans paragraphText)]
  end.

(** The inner [while] of the bullet branch: the items of the leading bullet
    lines and the lines after them. *)
Fixpoint take_bullets (lines : list string)
  : list (list RichTextSpan) * list string :=
  match lines with
  | [] => ([], [])
  | l :: ls =>
      match bulletMatch (trim l) with
      | None => ([], lines)
      | Some g =>
          let (items, rest) := take_bullets ls in
          (parseInlineSpans (normalizeWhitespace g) :: items, rest)
      end
  end.

(** The [for] loop over [lines]; each iteration consumes at least one line,
    so [fuel = S (length lines)] suffices. *)
Fixpoint parse_loop (fuel : nat) (lines : list string) (buf : list string)
    (blocks : list StructuredBlock) : list StructuredBlock :=
  match fuel with
  | 0 => flushParagraph buf blocks
  | S f =>
    match lines with
    | [] => flushParagraph buf blocks
    | line :: ls =>
      let trimmed := trim line in
      if (trimmed =? "")%string then parse_loop f ls [] (flushParagraph buf blocks)
      else
      match headingMatch trimmed with
      | Some (level, text) =>
          parse_loop f ls []
            (flushParagraph buf blocks ++ [Heading (Nat.min level 3) (trim text)])
      | None =>
      match bulletMatch trimmed with
      | Some _ =>
          let (items, rest) := take_bullets lines in
          parse_loop f rest [] (flushParagraph buf blocks ++ [List_ false items])
      | None =>
      match blockquoteMatch trimmed with
      | Some q =>
          parse_loop f ls []
            (flushParagraph buf blocks
               ++ [Quote (parseInlineSpans (normalizeWhitespace q))])
      | None => parse_loop f ls (buf ++ [trimmed]) blocks
      end end end
    end
  end.

(** [parseMarkdownToBlocks]. *)
Definition parseMarkdownToBlocks (rawText : string) : list StructuredBlock :=
  let lines := split (ascii_of_nat 10) (replace_crlf rawText) in
  parse_loop (S (List.length lines)) lines [] [].

End Markdown.

Import Markdown.

(** The strings matched by [/^(#{1,3})\s*(.+)$/], written as a language:
    one to three hashes, any whitespace, then at least one character that is
    no line terminator. *)
Fixpoint all_chars (p : ascii -> bool) (s : string) : bool :=
  match s with
  | EmptyString => true
  | String c s' => p c && all_chars p s'
  end.

Definition heading_line (s : string) : Prop :=
  exists h w rest,
    s = (h ++ w ++ rest)%string /\ (1 <= String.length h <= 3) /\
    all_chars is_hash h = true /\ all_chars is_space w = true /\ dot_plus rest = true.


(* ------------------------------------------------------------------ *)
(** ** Chapter-title deduplication (LogoIcon.tsx, lines 249-285) *)

Module TitleStrip.

(** [String.prototype.toLowerCase] on code units 0..255. *)
Definition to_lower_char (c : ascii) : ascii :=
  let n := nat_of_ascii c in
  if ((65 <=? n) && (n <=? 90)) || ((192 <=? n) && (n <=? 222) && negb (n =? 215))
  then ascii_of_nat (n + 32) else c.

Fixpoint toLowerCase (s : string) : string :=
  match s with
  | EmptyString => EmptyString
  | String c s' => String (to_lower_char c) (toLowerCase s')
  end.

(** Membership in [[a-z0-9]] under the [i] flag: ASCII letters and digits. *)
Definition is_alnum (c : ascii) : bool :=
  let n := nat_of_ascii c in
  ((65 <=? n) && (n <=? 90)) || ((97 <=? n) && (n <=? 122)) || is_digit c.

(** Length of a match of [/chapter\s+\d+[:\-]?/i] at the start of [s].
    The greedy [\s+] is followed by a digit only at its maximal extent and
    [\d+] is followed by an optional class, so no backtracking is needed. *)
Definition chapter_match (s : string) : option nat :=
  if (toLowerCase (substring 0 7 s) =? "chapter")%string then
    let r := sdrop 7 s in
    let w := count_leading is_space r in
    let r' := sdrop w r in
    let d := count_leading is_digit r' in
    let r'' := sdrop d r' in
    if (0 <? w) && (0 <? d) then
      let opt := match r'' with
                 | String c _ => if Ascii.eqb c ":" || Ascii.eqb c "-" then 1 else 0
                 | EmptyString => 0
                 end in
      Some (7 + w + d + opt)
    else None
  else None.

(** [s.replace(/chapter\s+\d+[:\-]?/i, '')]: the leftmost match only. *)
Fixpoint remove_chapter_label (s : string) : string :=
  match chapter_match s with
  | Some len => sdrop len s
  | None =>
      match s with
      | EmptyString => EmptyString
      | String c s' => String c (remove_chapter_label s')
      end
  end.

(** [normalizeForComparison]. *)
Definition normalizeForComparison (value : string) : string :=
  toLowerCase (trim (collapse_runs_aux (fun c => negb (is_alnum c)) false
                       (remove_chapter_label value))).

(** [spansToPlainText]. *)
Definition spansToPlainText (spans : list RichTextSpan) : string :=
  trim (collapse_ws (join " " (map span_text spans))).

(** The candidate text of a block, [None] for the blocks that end the loop. *)
Definition candidate (b : StructuredBlock) : option string :=
  match b with
  | Heading _ text => Some text
  | Paragraph spans => Some (spansToPlainText spans)
  | _ => None
  end.

(** The [while] loop: the final [startIndex]. *)
Fixpoint strip_count (normalizedTitle : string) (blocks : list StructuredBlock)
  : nat :=
  match blocks with
  | [] => 0
  | b :: bs =>
      match candidate b with
      | Some c =>
          if (normalizeForComparison c =? normalizedTitle)%string
          then S (strip_count normalizedTitle bs) else 0
      | None => 0
      end
  end.

(** [stripLeadingChapterHeading]. *)
Definition stripLeadingChapterHeading (blocks : list StructuredBlock)
    (chapterTitle : string) : list StructuredBlock :=
  let normalizedTitle := normalizeForComparison chapterTitle in
  if (normalizedTitle =? "")%string then blocks
  else
    let startIndex := strip_count normalizedTitle blocks in
    if startIndex =? 0 then blocks else skipn startIndex blocks.

End TitleStrip.

Import TitleStrip.


(* ------------------------------------------------------------------ *)
(** ** Fonts and the rich-text line breaker (LogoIcon.tsx, lines 92-187) *)

Inductive PdfFontFamily := TimesRoman | Helvetica | Courier.
Inductive FontVariant := Regular | Bold | Italic.

(** An embedded standard font of pdf-lib: one entry of [fontMapping]. *)
Record PDFFont := mkFont { font_family : PdfFontFamily; font_variant : FontVariant }.

(** [StyledToken]. *)
Record StyledToken := mkToken {
  tok_text : string;
  tok_font : PDFFont;
  tok_width : Q;
  tok_isSpace : bool
}.

Module Wrap.

(** [s.split(/(\s+)/)] with the empty parts dropped: the maximal runs of
    whitespace and of other characters, in order. [cur] is the run being
    read and [sp] whether it is a whitespace run. *)
Fixpoint ws_runs_aux (cur : string) (sp : bool) (s : string) : list string :=
  match s with
  | EmptyString => if (cur =? "")%string then [] else [cur]
  | String c s' =>
      if (cur =? "")%string || Bool.eqb (is_space c) sp
      then ws_runs_aux (cur ++ String c EmptyString) (is_space c) s'
      else cur :: ws_runs_aux (String c EmptyString) (is_space c) s'
  end.

Definition ws_runs (s : string) : list string := ws_runs_aux "" false s.

(** [/^\s+$/.test(part)] for a non-empty part. *)
Fixpoint all_space (s : string) : bool :=
  match s with
  | EmptyString => true
  | String c s' => is_space c && all_space s'
  end.

(** [pushLine]: the trailing whitespace tokens are cut; [end_] is the
    index after the last non-whitespace token. *)
Fixpoint line_end (l : list StyledToken) : nat :=
  match l with
  | [] => 0
  | t :: l' =>
      let e := line_end l' in
      if (e =? 0) && tok_isSpace t then 0 else S e
  end.

Definition pushLine (currentLine : list StyledToken) (lines : list (list StyledToken))
  : list (list StyledToken) :=
  match currentLine with
  | [] => lines
  | _ =>
      let end_ := line_end currentLine in
      if 0 <? end_ then lines ++ [firstn end_ currentLine] else lines
  end.

(** The loop state: [lines], [currentLine], [lineWidth]. *)
Record WrapState := mkWrap {
  ws_lines : list (list StyledToken);
  ws_current : list StyledToken;
  ws_width : Q
}.

(** One iteration of [for (const token of tokens)]. *)
Definition wrap_step (maxWidth : Q) (st : WrapState) (token : StyledToken)
  : WrapState :=
  let st :=
    if negb (tok_isSpace token)
       && negb (Qle_bool (ws_width st + tok_width token)%Q maxWidth)
       && negb (match ws_current st with [] => true | _ => false end)
    then mkWrap (pushLine (ws_current st) (ws_lines st)) [] 0%Q
    else st in
  if tok_isSpace token && match ws_current st with [] => true | _ => false end
  then st
  else mkWrap (ws_lines st) (ws_current st ++ [token])
              (ws_width st + tok_width token)%Q.

(** [wrapTokens]. *)
Definition wrapTokens (tokens : list StyledToken) (maxWidth : Q)
  : list (list StyledToken) :=
  let st := fold_left (wrap_step maxWidth) tokens (mkWrap [] [] 0%Q) in
  pushLine (ws_current st) (ws_lines st).

(** Sum of the widths of a line. *)
Definition line_width (l : list StyledToken) : Q :=
  fold_right (fun t acc => tok_width t + acc)%Q 0%Q l.

End Wrap.

Import Wrap.

(* ------------------------------------------------------------------ *)
(** ** Theme colours: [hexToRgb] (LogoIcon.tsx, lines 22-29) *)

Module Colour.

(** [s.replace('#', '')]: a string pattern replaces its first occurrence. *)
Fixpoint replace_first_hash (s : string) : string :=
  match s with
  | EmptyString => EmptyString
  | String c s' => if Ascii.eqb c "#" then s' else String c (replace_first_hash s')
  end.

(** The value of a digit of radix 16. *)
Definition hex_digit (c : ascii) : option Z :=
  let n := nat_of_ascii c in
  if (48 <=? n) && (n <=? 57) then Some (Z.of_nat (n - 48))
  else if (97 <=? n) && (n <=? 102) then Some (Z.of_nat (n - 87))
  else if (65 <=? n) && (n <=? 70) then Some (Z.of_nat (n - 55))
  else None.

(** The longest prefix of radix-16 digits, as their values. *)
Fixpoint hex_prefix (s : string) : list Z :=
  match s with
  | EmptyString => []
  | String c s' => match hex_digit c with Some d => d :: hex_prefix s' | None => [] end
  end.

Local Open Scope Z_scope.

(** The mathematical value of a digit string. *)
Definition hex_value (ds : list Z) : Z := fold_left (fun acc d => acc * 16 + d) ds 0.

(** The Number a JavaScript numeric operation can give here: an integer,
    NaN, or an infinity (the sign of an infinity and of zero play no part
    below). *)
Inductive JsNumber := JInt (z : Z) | JNaN | JInf.

(** The Number value of an integer: rounded to 53 significant bits, ties to
    even; [None] when it rounds to 2^1024 or beyond (an infinity). *)
Definition round_double (v : Z) : option Z :=
  let a := Z.abs v in
  let r :=
    if a <? 2 ^ 53 then a
    else
      let sh := Z.log2 a - 52 in
      let q := Z.shiftr a sh in
      let rem := a - Z.shiftl q sh in
      let half := 2 ^ (sh - 1) in
      let q' := if (half <? rem) || ((rem =? half) && Z.odd q) then q + 1 else q in
      Z.shiftl q' sh in
  if 2 ^ 1024 <=? r then None else Some (Z.sgn v * r).

(** [parseInt(s, 16)]: leading whitespace, an optional sign, an optional
    [0x] or [0X] prefix, then the longest run of radix-16 digits; NaN if
    there is none. *)
Definition parseInt16 (s : string) : JsNumber :=
  let s1 := ltrim s in
  let '(sign, s2) :=
    match s1 with
    | String c r =>
        if Ascii.eqb c "-" then ((-1)%Z, r)
        else if Ascii.eqb c "+" then (1%Z, r) else (1%Z, s1)
    | EmptyString => (1%Z, s1)
    end in
  let s3 :=
    match s2 with
    | String z (String x r) =>
        if Ascii.eqb z "0" && (Ascii.eqb x "x" || Ascii.eqb x "X") then r else s2
    | _ => s2
    end in
  match hex_prefix s3 with
  | [] => JNaN
  | ds => match round_double (sign * hex_value ds) with
          | Some z => JInt z
          | None => JInf
          end
  end.

(** [ToInt32]. *)
Definition toInt32 (n : JsNumber) : Z :=
  match n with
  | JInt z => let m := z mod 2 ^ 32 in if 2 ^ 31 <=? m then m - 2 ^ 32 else m
  | _ => 0
  end.

(** pdf-lib's [rgb(r, g, b)]. *)
Record RGB := mkRGB { red : Q; green : Q; blue : Q }.

(** [hexToRgb]; [x >> k] is [Z.shiftr] on [ToInt32(x)] and [& 255] is
    [Z.land] on the 32-bit result. *)
Definition hexToRgb (value : string) : RGB :=
  let hex := replace_first_hash value in
  let bigint := parseInt16 hex in
  let r := (inject_Z (Z.land (Z.shiftr (toInt32 bigint) 16) 255) / 255)%Q in
  let g := (inject_Z (Z.land (Z.shiftr (toInt32 bigint) 8) 255) / 255)%Q in
  let b := (inject_Z (Z.land (toInt32 bigint) 255) / 255)%Q in
  mkRGB r g b.

End Colour.

Import Colour.

(* ------------------------------------------------------------------ *)
(** ** Data of the document build (src/types/book.ts) *)

Inductive CoverSlot := SlotBackground | SlotBadge.
Inductive ChapterImageAnchor := AnchorStart | AnchorMiddle | AnchorEnd.

(** [ImagePlacement]. *)
Inductive ImagePlacement :=
| PGallery
| PCover (coverSlot : CoverSlot)
| PChapter (chapterIndex : Z) (anchor : option ChapterImageAnchor).

(** [UserImageAsset] (the fields the build reads). *)
Record UserImageAsset := mkAsset {
  img_id : string;
  img_name : string;
  img_dataUrl : string;
  img_type : string;
  img_include : bool;
  img_caption : option string;
  img_placement : option ImagePlacement
}.

(** [ChapterContent]. *)
Record ChapterContent := mkChapter {
  ch_index : Z;
  ch_title : string;
  ch_text : string
}.

(** [GeneratedBook] with the fields of its [config] the build reads. *)
Record GeneratedBook := mkBook {
  book_title : string;
  book_topic : string;
  book_genre : string;
  book_dedication : option string;
  book_chapters : list ChapterContent
}.

Inductive PageSize := A4 | Letter.

(** pdf-lib's [PageSizes]. *)
Definition PageSizes (p : PageSize) : Q * Q :=
  match p with
  | A4 => (59528 # 100, 84189 # 100)
  | Letter => (612 # 1, 792 # 1)
  end.

Record PdfFontConfig := mkFontCfg {
  fc_family : PdfFontFamily;
  fc_size : Q;
  fc_bold : bool
}.

Inductive PdfStylePreset := Aurora | Editorial | Midnight.

(** The merged [config] of [buildBookPdf] (lines 308-318). *)
Record PdfConfig := mkConfig {
  pageSize : PageSize;
  margin_top : Q;
  margin_bottom : Q;
  margin_left : Q;
  margin_right : Q;
  pageNumbering : bool;
  font_title : PdfFontConfig;
  font_heading : PdfFontConfig;
  font_body : PdfFontConfig;
  stylePreset : PdfStylePreset
}.

(** The two multipliers of [getThemeDefinition] (src/services/pdfThemes.ts);
    the colours are not modelled. *)
Definition lineHeightMultiplier (p : PdfStylePreset) : Q :=
  match p with Aurora => 135 # 100 | Editorial => 132 # 100 | Midnight => 14 # 10 end.

Definition paragraphSpacingMultiplier (p : PdfStylePreset) : Q :=
  match p with Aurora => 55 # 100 | Editorial => 5 # 10 | Midnight => 6 # 10 end.

(** What is drawn on a page: text, rectangles (page backgrounds, rules and
    strips) and images, given by the id of their asset. Fonts, colours and
    opacities are not recorded. *)
Inductive DrawOp :=
| DrawText (text : string) (x y size : Q)
| DrawRect (x y width height : Q)
| DrawImage (assetId : string) (x y width height : Q).

Inductive PageRole := RoleCover | RoleGallery | RoleToc | RoleChapter.

(** [PageMeta]; a page is its index in the document. *)
Record PageMeta := mkMeta {
  meta_page : nat;
  meta_role : PageRole;
  meta_chapterTitle : option string
}.

(** [TocEntry]. *)
Record TocEntry := mkToc { toc_title : string; toc_pageNumber : nat }.

(** pdf-lib's result of [embedPng] / [embedJpg]. *)
Record EmbeddedImage := mkEmbedded { emb_width : Q; emb_height : Q }.

(** The state of a build: the document ([pdfDoc]: its number of pages and
    the draw operations in order, each with its page), [pageMeta],
    [tocEntries], [embeddedImageCache], and the [state] object
    ([{ page, y }]) of the chapter being rendered. *)
Record St := mkSt {
  st_pages : nat;
  st_ops : list (nat * DrawOp);
  st_meta : list PageMeta;
  st_toc : list TocEntry;
  st_cache : gmap string EmbeddedImage;
  st_page : nat;
  st_y : Q
}.

Definition initSt : St := mkSt 0 [] [] [] ∅ 0 0.

(** A computation of the build: it reads and updates the state, or raises
    an error (a rejected promise). *)
Definition M (A : Type) : Type := St -> string + (A * St).

Global Instance M_ret : MRet M := fun A a s => inr (a, s).
Global Instance M_bind : MBind M :=
  fun A B f c s => match c s with inl e => inl e | inr (a, s') => f a s' end.

Definition throw {A} (msg : string) : M A := fun _ => inl msg.
Definition gets {A} (f : St -> A) : M A := fun s => inr (f s, s).
Definition modify (f : St -> St) : M unit := fun s => inr (tt, f s).

(** [for (const x of l) await f(x)]. *)
Fixpoint forM_ {A} (l : list A) (f : A -> M unit) : M unit :=
  match l with
  | [] => mret tt
  | x :: l' => f x ;; forM_ l' f
  end.

(** A loop with loop-carried locals [b]. *)
Fixpoint foldM {A B} (f : B -> A -> M B) (b : B) (l : list A) : M B :=
  match l with
  | [] => mret b
  | x :: l' => b' ← f b x; foldM f b' l'
  end.

Definition set_y (y : Q) : M unit :=
  modify (fun s => mkSt (st_pages s) (st_ops s) (st_meta s) (st_toc s) (st_cache s) (st_page s) y).
Definition set_page (p : nat) : M unit :=
  modify (fun s => mkSt (st_pages s) (st_ops s) (st_meta s) (st_toc s) (st_cache s) p (st_y s)).
Definition push_toc (e : TocEntry) : M unit :=
  modify (fun s => mkSt (st_pages s) (st_ops s) (st_meta s) (st_toc s ++ [e]) (st_cache s) (st_page s) (st_y s)).
Definition cache_set (k : string) (v : EmbeddedImage) : M unit :=
  modify (fun s => mkSt (st_pages s) (st_ops s) (st_meta s) (st_toc s) (<[k := v]> (st_cache s)) (st_page s) (st_y s)).

(** [pdfDoc.addPage(pageDimensions)]: the index of the new page. *)
Definition addPage : M nat :=
  fun s => inr (st_pages s,
                mkSt (S (st_pages s)) (st_ops s) (st_meta s) (st_toc s) (st_cache s) (st_page s) (st_y s)).

(** [page.drawText], [page.drawRectangle], [page.drawImage]. *)
Definition draw (page : nat) (op : DrawOp) : M unit :=
  modify (fun s => mkSt (st_pages s) (st_ops s ++ [(page, op)]) (st_meta s) (st_toc s) (st_cache s) (st_page s) (st_y s)).

(** [registerPage]. *)
Definition registerPage (page : nat) (role : PageRole) (chapterTitle : option string) : M nat :=
  modify (fun s => mkSt (st_pages s) (st_ops s) (st_meta s ++ [mkMeta page role chapterTitle]) (st_toc s) (st_cache s) (st_page s) (st_y s)) ;;
  mret page.

(** [Number.prototype.toString] on integers. *)
Fixpoint digits_aux (fuel n : nat) (acc : string) : string :=
  match fuel with
  | 0 => acc
  | S f =>
      let acc' := String (ascii_of_nat (48 + n mod 10)) acc in
      if n <? 10 then acc' else digits_aux f (n / 10) acc'
  end.

Definition string_of_nat (n : nat) : string := digits_aux (S n) n "".

Definition string_of_Z (z : Z) : string :=
  if (z <? 0)%Z then "-" ++ string_of_nat (Z.to_nat (- z)) else string_of_nat (Z.to_nat z).

(** [String.prototype.toUpperCase] on code units 0..127 (enough for the
    label ["Chapter " + index]). *)
Definition to_upper_char (c : ascii) : ascii :=
  let n := nat_of_ascii c in
  if (97 <=? n) && (n <=? 122) then ascii_of_nat (n - 32) else c.

Fixpoint toUpperCase (s : string) : string :=
  match s with
  | EmptyString => EmptyString
  | String c s' => String (to_upper_char c) (toUpperCase s')
  end.

Definition qlt (a b : Q) : bool := negb (Qle_bool b a).
Definition qmin (a b : Q) : Q := if Qle_bool a b then a else b.
Definition qmax (a b : Q) : Q := if Qle_bool a b then b else a.

(** The character U+2022 (bullet), outside the 0..255 range of the model,
    is represented by code unit 149. *)
Definition bullet : string := String (ascii_of_nat 149) EmptyString.

(** pdf-lib's two image embedders. *)
Inductive Embedder := EmbedPng | EmbedJpg.

(** [Map.prototype.get] on [chapterImageMap], built in insertion order. *)
Definition chapterImageMap (includedImages : list UserImageAsset)
  : gmap Z (list UserImageAsset) :=
  fold_left
    (fun m image =>
       match img_placement image with
       | Some (PChapter k _) => <[k := (default [] (m !! k) ++ [image])%list]> m
       | _ => m
       end)
    includedImages ∅.

Definition isGallery (image : UserImageAsset) : bool :=
  match img_placement image with
  | None | Some PGallery => true
  | _ => false
  end.

Definition isCover (image : UserImageAsset) : bool :=
  match img_placement image with Some (PCover _) => true | _ => false end.

(** The steps of one chapter (lines 710-808): start images, the blocks with
    the middle images inserted once [blockIndex + 1 >= middleTrigger], the
    middle images if not inserted yet, then the end images. *)
Inductive ChapterStep :=
| DrawImagesStep (images : list UserImageAsset)
| DrawBlockStep (block : StructuredBlock).

Fixpoint block_steps (middleTrigger : nat) (middleImages : list UserImageAsset)
    (blockIndex : nat) (blocks : list StructuredBlock) (middleInserted : bool)
  : list ChapterStep * bool :=
  match blocks with
  | [] => ([], middleInserted)
  | block :: bs =>
      let insert := negb middleInserted && (middleTrigger <=? blockIndex + 1) in
      let (rest, mi) :=
        block_steps middleTrigger middleImages (S blockIndex) bs (middleInserted || insert) in
      (DrawBlockStep block :: (if insert then [DrawImagesStep middleImages] else []) ++ rest, mi)%list
  end.

Definition chapter_steps (parsedBlocks : list StructuredBlock)
    (startImages middleImages endImages : list UserImageAsset) : list ChapterStep :=
  let totalBlocks := List.length parsedBlocks in
  let middleTrigger := Nat.max 1 (totalBlocks / 2) in
  let (body, middleInserted) := block_steps middleTrigger middleImages 0 parsedBlocks false in
  ([DrawImagesStep startImages] ++ body
    ++ (if negb middleInserted then [DrawImagesStep middleImages] else [])
    ++ [DrawImagesStep endImages])%list.

(** [resolveAnchor]. *)
Definition resolveAnchor (asset : UserImageAsset) : ChapterImageAnchor :=
  match img_placement asset with
  | Some (PChapter _ anchor) => default AnchorStart anchor
  | _ => AnchorStart
  end.

Definition anchor_eqb (a b : ChapterImageAnchor) : bool :=
  match a, b with
  | AnchorStart, AnchorStart | AnchorMiddle, AnchorMiddle | AnchorEnd, AnchorEnd => true
  | _, _ => false
  end.

Definition role_eqb (a b : PageRole) : bool :=
  match a, b with
  | RoleCover, RoleCover | RoleGallery, RoleGallery
  | RoleToc, RoleToc | RoleChapter, RoleChapter => true
  | _, _ => false
  end.

(** The built document: its pages and what is drawn on them. *)
Record Doc := mkDoc { doc_pages : nat; doc_ops : list (nat * DrawOp) }.

(* ------------------------------------------------------------------ *)
(** ** The document assembler [buildBookPdf] *)

Section Build.

(** pdf-lib's [font.widthOfTextAtSize(text, size)]. *)
Variable widthOfTextAtSize : PDFFont -> string -> Q -> Q.
(** [atob]; [None] when it throws. *)
Variable atob : string -> option string.
(** pdf-lib's [embedPng] / [embedJpg] on the decoded bytes; [None] when
    the bytes cannot be decoded (the promise rejects). *)
Variable embed : Embedder -> string -> option EmbeddedImage.

Variable config : PdfConfig.
Variable book : GeneratedBook.

Definition pageWidth : Q := fst (PageSizes (pageSize config)).
Definition pageHeight : Q := snd (PageSizes (pageSize config)).
Definition originX : Q := margin_left config.
Definition contentWidth : Q := (pageWidth - margin_left config - margin_right config)%Q.
Definition lineHeight : Q :=
  (fc_size (font_body config) * lineHeightMultiplier (stylePreset config))%Q.
Definition paragraphSpacing : Q :=
  (fc_size (font_body config) * paragraphSpacingMultiplier (stylePreset config))%Q.
Definition headingSize : Q := fc_size (font_heading config).
Definition bodySize : Q := fc_size (font_body config).
Definition coverPageCount : nat := 1.

(** [resolveFont] and the fonts of lines 348-352. *)
Definition resolveFont (f : PdfFontConfig) : PDFFont :=
  mkFont (fc_family f) (if fc_bold f then Bold else Regular).
Definition titleFont : PDFFont := resolveFont (font_title config).
Definition headingFont : PDFFont := resolveFont (font_heading config).
Definition bodyFont : PDFFont := resolveFont (font_body config).
Definition bodyBoldFont : PDFFont := mkFont (fc_family (font_body config)) Bold.
Definition bodyItalicFont : PDFFont := mkFont (fc_family (font_body config)) Italic.

(** [wrapText]: the inner loop over the words of one source line. *)
Fixpoint wrap_words (font : PDFFont) (fontSize maxWidth : Q) (currentLine : string)
    (words : list string) (lines : list string) : list string :=
  match words with
  | [] => (lines ++ [currentLine])%list
  | word :: ws =>
      let testLine := if 0 <? String.length currentLine
                      then currentLine ++ " " ++ word else word in
      if qlt maxWidth (widthOfTextAtSize font testLine fontSize) then
        wrap_words font fontSize maxWidth word ws
          (if 0 <? String.length currentLine then (lines ++ [currentLine])%list else lines)
      else wrap_words font fontSize maxWidth testLine ws lines
  end.

Definition wrapText (text : string) (font : PDFFont) (fontSize maxWidth : Q) : list string :=
  fold_left
    (fun lines paragraph =>
       if (trim paragraph =? "")%string then (lines ++ [""])%list
       else wrap_words font fontSize maxWidth "" (split " " paragraph) lines)
    (split (ascii_of_nat 10) text) [].

(** [tokenizeSpans] with the body fonts [fonts = (regular, bold, italic)]. *)
Definition tokenizeSpans (spans : list RichTextSpan) (fonts : PDFFont * PDFFont * PDFFont)
    (fontSize : Q) : list StyledToken :=
  let '(regular, bold, italic) := fonts in
  flat_map
    (fun span =>
       let font := if span_bold span then bold else if span_italic span then italic else regular in
       map (fun part =>
              let isSpace := all_space part in
              let text := if isSpace then " " else part in
              mkToken text font (widthOfTextAtSize font text fontSize) isSpace)
           (ws_runs (span_text span)))
    spans.

Definition textFonts : PDFFont * PDFFont * PDFFont := (bodyFont, bodyBoldFont, bodyItalicFont).

(** [drawRichLine]. *)
Definition drawRichLine (page : nat) (lineTokens : list StyledToken) (startX y fontSize : Q)
  : M unit :=
  _ ← foldM (fun cursorX token =>
               draw page (DrawText (tok_text token) cursorX y fontSize) ;;
               mret (cursorX + tok_width token)%Q)
            startX lineTokens;
  mret tt.

(** [ParagraphOptions] (the colour is not modelled). *)
Record ParagraphOptions := mkOptions {
  opt_indent : option Q;
  opt_spacingBottom : option Q;
  opt_beforeFirstLine : option (Q -> M unit)
}.

Definition noOptions : ParagraphOptions := mkOptions None None None.

(** [drawRichParagraph]; [state] is the chapter's [{ page, y }] held in
    [st_page] and [st_y]. *)
Definition drawRichParagraph (spans : list RichTextSpan) (fonts : PDFFont * PDFFont * PDFFont)
    (ensureSpaceFn : Q -> M unit) (origin cWidth fontSize lHeight pSpacing : Q)
    (options : ParagraphOptions) : M unit :=
  match spans with
  | [] => mret tt
  | _ =>
    let indent := default 0%Q (opt_indent options) in
    let tokens := tokenizeSpans spans fonts fontSize in
    let lines := wrapTokens tokens (qmax 20 (cWidth - indent)) in
    match lines with
    | [] => mret tt
    | _ =>
      let spacingBottom := default pSpacing (opt_spacingBottom options) in
      forM_ (combine (seq 0 (List.length lines)) lines)
        (fun '(lineIndex, lineTokens) =>
           ensureSpaceFn lHeight ;;
           (match lineIndex, opt_beforeFirstLine options with
            | 0, Some f => y ← gets st_y; f y
            | _, _ => mret tt
            end) ;;
           page ← gets st_page;
           y ← gets st_y;
           drawRichLine page lineTokens (origin + indent) y fontSize ;;
           set_y (y - lHeight)%Q) ;;
      y ← gets st_y;
      set_y (y - spacingBottom)%Q
    end
  end.

(** [addContentPage]. *)
Definition addContentPage (role : PageRole) (chapterTitle : option string) : M nat :=
  page ← addPage;
  draw page (DrawRect 0 0 pageWidth pageHeight) ;;
  registerPage page role chapterTitle.

(** [dataUrlToUint8Array]: the bytes of the base64 payload. *)
Definition dataUrlToUint8Array (dataUrl : string) : M string :=
  match atob (nth 1 (split "," dataUrl) "") with
  | Some binary => mret binary
  | None => throw "Base64 decoding failed"
  end.

(** [pdfDoc.embedPng(bytes)] / [pdfDoc.embedJpg(bytes)]. *)
Definition embedWith (embedder : Embedder) (bytes : string) : M EmbeddedImage :=
  match embed embedder bytes with
  | Some e => mret e
  | None => throw "image decoding failed"
  end.

(** [embedUserImage]. *)
Definition embedUserImage (asset : UserImageAsset) : M EmbeddedImage :=
  bytes ← dataUrlToUint8Array (img_dataUrl asset);
  if (img_type asset =? "image/png")%string then embedWith EmbedPng bytes
  else embedWith EmbedJpg bytes.

(** [getEmbeddedImageForAsset]: embedded once per asset id. *)
Definition getEmbeddedImageForAsset (asset : UserImageAsset) : M EmbeddedImage :=
  cache ← gets st_cache;
  match cache !! img_id asset with
  | Some e => mret e
  | None => e ← embedUserImage asset; cache_set (img_id asset) e ;; mret e
  end.

(** The caption text [asset.caption?.trim()]. *)
Definition trimmedCaption (asset : UserImageAsset) : string :=
  match img_caption asset with Some c => trim c | None => "" end.

(** Cover page (lines 387-464). *)
Definition cover_phase (coverImages : list UserImageAsset) : M unit :=
  coverPage ← addPage;
  draw coverPage (DrawRect 0 0 pageWidth pageHeight) ;;
  _ ← registerPage coverPage RoleCover None;
  (match find (fun image => match img_placement image with
                            | Some (PCover SlotBackground) => true | _ => false end) coverImages with
   | Some asset =>
       embedded ← getEmbeddedImageForAsset asset;
       let maxWidth := (pageWidth - originX * 2)%Q in
       let maxHeight := (pageHeight * (55 # 100))%Q in
       let scale := qmin 1 (qmin (maxWidth / emb_width embedded) (maxHeight / emb_height embedded)) in
       let drawWidth := (emb_width embedded * scale)%Q in
       let drawHeight := (emb_height embedded * scale)%Q in
       draw coverPage (DrawImage (img_id asset) ((pageWidth - drawWidth) / 2)
                         (pageHeight * (35 # 100)) drawWidth drawHeight)
   | None => mret tt
   end) ;;
  let titleSize := fc_size (font_title config) in
  coverCurrentY ← foldM
    (fun y line =>
       let textWidth := widthOfTextAtSize titleFont line titleSize in
       draw coverPage (DrawText line ((pageWidth - textWidth) / 2) y titleSize) ;;
       mret (y - titleSize * (12 # 10))%Q)
    (pageHeight * (58 # 100))%Q
    (wrapText (book_title book) titleFont titleSize (contentWidth * (9 # 10))%Q);
  let subtitle := book_genre book ++ " " ++ bullet ++ " " ++ book_topic book in
  let subtitleSize := (headingSize * (6 # 10))%Q in
  let subtitleWidth := widthOfTextAtSize headingFont subtitle subtitleSize in
  draw coverPage (DrawText subtitle ((pageWidth - subtitleWidth) / 2) (coverCurrentY - 10) subtitleSize) ;;
  (match book_dedication book with
   | Some d => if (trim d =? "")%string then mret tt
               else draw coverPage (DrawText ("For " ++ trim d) originX (margin_bottom config + 40) 12)
   | None => mret tt
   end) ;;
  draw coverPage (DrawText "Crafted with BookForge AI" originX (margin_bottom config + 20) 11) ;;
  match find (fun image => match img_placement image with
                           | Some (PCover SlotBadge) => true | _ => false end) coverImages with
  | Some asset =>
      embedded ← getEmbeddedImageForAsset asset;
      let badgeSize := qmin 140 (pageWidth * (2 # 10)) in
      let scale := qmin 1 (qmin (badgeSize / emb_width embedded) (badgeSize / emb_height embedded)) in
      draw coverPage (DrawImage (img_id asset)
                        (pageWidth - margin_right config - emb_width embedded * scale)
                        (margin_bottom config + 30)
                        (emb_width embedded * scale) (emb_height embedded * scale))
  | None => mret tt
  end.

(** [tocEntriesPerPage] (lines 469-470). With [lineHeight = 0] the
    division of JavaScript gives Infinity for a positive height, NaN for a
    zero height and -Infinity for a negative one, which [Math.max(1, _)]
    turns into 1; [Math.floor] leaves the infinities and NaN as they are. *)
Definition tocEntriesPerPage : JsNumber :=
  let availableTocHeight :=
    (pageHeight - margin_top config - margin_bottom config - headingSize * (15 # 10))%Q in
  if Qeq_bool lineHeight 0 then
    if qlt 0 availableTocHeight then JInf
    else if Qeq_bool availableTocHeight 0 then JNaN
    else JInt 1
  else JInt (Z.max 1 (Qfloor (availableTocHeight / lineHeight))).

(** [tocPageCount] (line 471), as the number of iterations of the loop
    [for (i = 0; i < tocPageCount; i++)]: [n / Infinity] is 0, so Infinity
    entries per page give [Math.max(1, 0) = 1]; NaN entries per page give
    [Math.max(1, NaN) = NaN], and [i < NaN] is false, so no iteration. *)
Definition tocPageCount : Z :=
  match tocEntriesPerPage with
  | JInt e => Z.max 1 (Qceiling (inject_Z (Z.of_nat (List.length (book_chapters book)))
                                 / inject_Z e))
  | JInf => 1
  | JNaN => 0
  end.

(** [createTocPage]: the page and its [nextY]. *)
Definition createTocPage : M (nat * Q) :=
  page ← addContentPage RoleToc None;
  let headerY := (pageHeight - margin_top config)%Q in
  draw page (DrawText "Table of Contents" originX headerY headingSize) ;;
  draw page (DrawRect originX (headerY - headingSize - 6) contentWidth 2) ;;
  mret (page, headerY - headingSize * (18 # 10))%Q.

(** The placeholder loop [for (i = 0; i < tocPageCount; i++)]. *)
Definition toc_phase : M (list (nat * Q)) :=
  foldM (fun tocPages _ => p ← createTocPage; mret (tocPages ++ [p])%list)
        [] (seq 0 (Z.to_nat tocPageCount)).

(** The caption of a gallery card:
    [asset.caption?.trim() || asset.name || 'Uploaded image']. *)
Definition galleryCaption (asset : UserImageAsset) : string :=
  if negb (trimmedCaption asset =? "")%string then trimmedCaption asset
  else if negb (img_name asset =? "")%string then img_name asset
  else "Uploaded image".

(** One card of the gallery loop; the locals are
    [(galleryPage, galleryY, rowMaxHeight)]. *)
Definition gallery_card (count : nat) (loc : nat * Q * Q) (entry : nat * UserImageAsset)
  : M (nat * Q * Q) :=
  let '(galleryPage, galleryY, rowMaxHeight) := loc in
  let '(index, asset) := entry in
  embeddedImage ← getEmbeddedImageForAsset asset;
  let cardWidth := ((contentWidth - 18) / 2)%Q in
  let maxImageHeight := (pageHeight * (35 # 100))%Q in
  let scale := qmin 1 (qmin (cardWidth / emb_width embeddedImage)
                            (maxImageHeight / emb_height embeddedImage)) in
  let drawWidth := (emb_width embeddedImage * scale)%Q in
  let drawHeight := (emb_height embeddedImage * scale)%Q in
  let columnIndex := index mod 2 in
  '(galleryPage, galleryY) ←
    (if (columnIndex =? 0) && qlt (galleryY - drawHeight - 50) (margin_bottom config)
     then p ← addContentPage RoleGallery None; mret (p, pageHeight - margin_top config)%Q
     else mret (galleryPage, galleryY));
  let originY := galleryY in
  let originColumnX := (originX + inject_Z (Z.of_nat columnIndex) * (cardWidth + 18))%Q in
  draw galleryPage (DrawRect originColumnX (originY - drawHeight - 12) cardWidth (drawHeight + 42)) ;;
  draw galleryPage (DrawImage (img_id asset) (originColumnX + (cardWidth - drawWidth) / 2)
                      (originY - drawHeight - 8) drawWidth drawHeight) ;;
  draw galleryPage (DrawText (galleryCaption asset) (originColumnX + 8) (originY - drawHeight - 28) 10) ;;
  let rowMaxHeight := qmax rowMaxHeight drawHeight in
  if (columnIndex =? 1) || (index =? count - 1)
  then mret (galleryPage, galleryY - (rowMaxHeight + 80), 0)%Q
  else mret (galleryPage, galleryY, rowMaxHeight).

(** Optional image gallery (lines 529-589). *)
Definition gallery_phase (galleryImages : list UserImageAsset) : M unit :=
  match galleryImages with
  | [] => mret tt
  | _ =>
      galleryPage ← addContentPage RoleGallery None;
      let galleryY := (pageHeight - margin_top config)%Q in
      draw galleryPage (DrawText "Contributor Gallery" originX galleryY headingSize) ;;
      _ ← foldM (gallery_card (List.length galleryImages))
                (galleryPage, galleryY - headingSize * (14 # 10), 0)%Q
                (combine (seq 0 (List.length galleryImages)) galleryImages);
      mret tt
  end.

(** [drawChapterImage]. *)
Definition drawChapterImage (asset : UserImageAsset) (ensureSpaceFn : Q -> M unit) : M unit :=
  embedded ← getEmbeddedImageForAsset asset;
  let maxHeight := (pageHeight * (35 # 100))%Q in
  let scale := qmin 1 (qmin (contentWidth / emb_width embedded) (maxHeight / emb_height embedded)) in
  let drawWidth := (emb_width embedded * scale)%Q in
  let drawHeight := (emb_height embedded * scale)%Q in
  ensureSpaceFn (drawHeight + 40)%Q ;;
  page ← gets st_page;
  y ← gets st_y;
  draw page (DrawImage (img_id asset) (originX + (contentWidth - drawWidth) / 2)
               (y - drawHeight) drawWidth drawHeight) ;;
  set_y (y - (drawHeight + 16))%Q ;;
  (if negb (trimmedCaption asset =? "")%string then
     page ← gets st_page;
     y ← gets st_y;
     draw page (DrawText (trimmedCaption asset) originX y 10) ;;
     set_y (y - lineHeight)%Q
   else mret tt) ;;
  y ← gets st_y;
  set_y (y - paragraphSpacing / 2)%Q.

(** [chapterPageFactory]: the page and [bodyStartY]. *)
Definition chapterPageFactory (chapterIndex : Z) (chapterTitle : string) (isFirstPage : bool)
  : M (nat * Q) :=
  page ← addContentPage RoleChapter (Some chapterTitle);
  draw page (DrawRect 0 (pageHeight - 32) pageWidth 32) ;;
  let chapterLabel := toUpperCase ("Chapter " ++ string_of_Z chapterIndex) in
  draw page (DrawText chapterLabel originX (pageHeight - 22) 12) ;;
  if isFirstPage then
    let chapterHeadingSize := (headingSize * (105 # 100))%Q in
    titleY ← foldM
      (fun titleY line =>
         let textWidth := widthOfTextAtSize headingFont line chapterHeadingSize in
         draw page (DrawText line (originX + (contentWidth - textWidth) / 2) titleY chapterHeadingSize) ;;
         mret (titleY - chapterHeadingSize * (12 # 10))%Q)
      (pageHeight - margin_top config - 32)%Q
      (wrapText chapterTitle headingFont chapterHeadingSize (contentWidth * (9 # 10))%Q);
    let bodyStartY := (titleY - 28)%Q in
    draw page (DrawRect (originX + contentWidth / 2 - 30) (bodyStartY + 12) 60 3) ;;
    mret (page, bodyStartY - 24)%Q
  else mret (page, pageHeight - margin_top config - 24)%Q.

(** The chapter's [ensureSpace]. *)
Definition ensureSpace (chapter : ChapterContent) (needed : Q) : M unit :=
  y ← gets st_y;
  if qlt (y - needed) (margin_bottom config) then
    nextPage ← chapterPageFactory (ch_index chapter) (ch_title chapter) false;
    set_page (fst nextPage) ;;
    set_y (pageHeight - margin_top config - 32)%Q
  else mret tt.

(** The [switch (block.kind)] of the chapter loop. *)
Definition drawBlock (chapter : ChapterContent) (block : StructuredBlock) : M unit :=
  match block with
  | Heading level text =>
      let hSize := if level <=? 2 then headingSize else (headingSize * (9 # 10))%Q in
      ensureSpace chapter (hSize * 2)%Q ;;
      page ← gets st_page;
      y ← gets st_y;
      draw page (DrawText text originX y hSize) ;;
      set_y (y - hSize * (13 # 10) - paragraphSpacing / 2)%Q
  | List_ _ items =>
      forM_ items (fun item =>
        drawRichParagraph item textFonts (ensureSpace chapter) originX contentWidth
          bodySize lineHeight paragraphSpacing
          (mkOptions (Some 18%Q) (Some (paragraphSpacing / 2)%Q)
             (Some (fun lineY =>
                      page ← gets st_page;
                      draw page (DrawText bullet originX lineY (bodySize + 2)%Q)))))
  | Quote spans =>
      drawRichParagraph spans textFonts (ensureSpace chapter) (originX + 10)%Q
        (contentWidth - 20)%Q bodySize lineHeight paragraphSpacing
        (mkOptions (Some 0%Q) (Some (paragraphSpacing / 2)%Q) None)
  | Paragraph spans =>
      drawRichParagraph spans textFonts (ensureSpace chapter) originX contentWidth
        bodySize lineHeight paragraphSpacing noOptions
  end.

Definition runChapterStep (chapter : ChapterContent) (step : ChapterStep) : M unit :=
  match step with
  | DrawImagesStep images => forM_ images (fun asset => drawChapterImage asset (ensureSpace chapter))
  | DrawBlockStep block => drawBlock chapter block
  end.

(** One iteration of [for (const chapter of book.chapters)];
    [assigned] is [chapterImageMap.get(chapter.index)]. *)
Definition renderChapter (assigned : option (list UserImageAsset)) (chapter : ChapterContent)
  : M unit :=
  let hasImages := match assigned with Some _ => true | None => false end in
  if (trim (ch_text chapter) =? "")%string && negb hasImages then mret tt else
  let parsedBlocks :=
    stripLeadingChapterHeading (parseMarkdownToBlocks (ch_text chapter)) (ch_title chapter) in
  if match parsedBlocks with [] => true | _ => false end && negb hasImages then mret tt else
  firstPage ← chapterPageFactory (ch_index chapter) (ch_title chapter) true;
  set_page (fst firstPage) ;;
  set_y (snd firstPage) ;;
  let tocTitle := "Chapter " ++ string_of_Z (ch_index chapter) ++ ": " ++ ch_title chapter in
  metaCount ← gets (fun s => List.length (st_meta s));
  let chapterPageNumber := Nat.max 1 (metaCount - coverPageCount) in
  push_toc (mkToc tocTitle chapterPageNumber) ;;
  let assignedImages := default [] assigned in
  let startImages := List.filter (fun a => anchor_eqb (resolveAnchor a) AnchorStart) assignedImages in
  let middleImages := List.filter (fun a => anchor_eqb (resolveAnchor a) AnchorMiddle) assignedImages in
  let endImages := List.filter (fun a => anchor_eqb (resolveAnchor a) AnchorEnd) assignedImages in
  forM_ (chapter_steps parsedBlocks startImages middleImages endImages) (runChapterStep chapter).

(** The chapter loop. *)
Definition chapters_phase (imageMap : gmap Z (list UserImageAsset))
    (chapters : list ChapterContent) : M unit :=
  forM_ chapters (fun chapter => renderChapter (imageMap !! ch_index chapter) chapter).

(** The loop of [renderTableOfContents]: [pageIndex] and the
    [TocPageState]s [(page, nextY)] are its locals. *)
Fixpoint toc_loop (pageIndex : nat) (tocPages : list (nat * Q)) (entries : list TocEntry)
  : M unit :=
  match entries with
  | [] => mret tt
  | entry :: es =>
      match nth_error tocPages pageIndex with
      | None => mret tt
      | Some (page, nextY) =>
          let '(pageIndex, currentPage) :=
            if qlt nextY (margin_bottom config + lineHeight)
            then (S pageIndex, nth_error tocPages (S pageIndex))
            else (pageIndex, Some (page, nextY)) in
          match currentPage with
          | None => mret tt
          | Some (page, nextY) =>
              draw page (DrawText (toc_title entry) originX nextY bodySize) ;;
              let pageNumberText := string_of_nat (toc_pageNumber entry) in
              let numberWidth := widthOfTextAtSize bodyFont pageNumberText bodySize in
              draw page (DrawText pageNumberText (pageWidth - margin_right config - numberWidth)
                           nextY bodySize) ;;
              toc_loop pageIndex (<[pageIndex := (page, nextY - lineHeight)%Q]> tocPages) es
          end
      end
  end.

(** [renderTableOfContents]. *)
Definition renderTableOfContents (tocPages : list (nat * Q)) : M unit :=
  tocEntries ← gets st_toc;
  match tocPages, tocEntries with
  | [], _ | _, [] => mret tt
  | _, _ => toc_loop 0 tocPages tocEntries
  end.

Definition footerFont : PDFFont := mkFont Helvetica Regular.
Definition footerY : Q := (margin_bottom config / 2)%Q.

(** The centred label of a footer. *)
Definition footerLabel (meta : PageMeta) : string :=
  match meta_chapterTitle meta with
  | Some t => if (t =? "")%string then book_title book
              else book_title book ++ " " ++ bullet ++ " " ++ t
  | None => book_title book
  end.

Definition footer_label_op (meta : PageMeta) : DrawOp :=
  let labelWidth := widthOfTextAtSize footerFont (footerLabel meta) 9 in
  DrawText (footerLabel meta) (qmax originX ((pageWidth - labelWidth) / 2)) footerY 9.

Definition footer_number_op (numberedPageCounter : nat) : DrawOp :=
  let numberText := string_of_nat numberedPageCounter in
  let numberWidth := widthOfTextAtSize footerFont numberText 9 in
  DrawText numberText (pageWidth - margin_right config - numberWidth) footerY 9.

(** The callback of [pageMeta.forEach]; the local is [numberedPageCounter]. *)
Definition footer_step (numberedPageCounter : nat) (meta : PageMeta) : M nat :=
  if role_eqb (meta_role meta) RoleCover then mret numberedPageCounter else
  let numberedPageCounter := S numberedPageCounter in
  draw (meta_page meta) (footer_label_op meta) ;;
  draw (meta_page meta) (footer_number_op numberedPageCounter) ;;
  mret numberedPageCounter.

(** The deferred footer pass (lines 813-841). *)
Definition footer_phase : M unit :=
  if pageNumbering config then
    pageMeta ← gets st_meta;
    _ ← foldM footer_step 0 pageMeta;
    mret tt
  else mret tt.

(** Everything before the chapter loop: cover, TOC placeholders, gallery.
    Returns the TOC pages. *)
Definition before_chapters (galleryImages coverImages : list UserImageAsset)
  : M (list (nat * Q)) :=
  cover_phase coverImages ;;
  tocPages ← toc_phase;
  gallery_phase galleryImages ;;
  mret tocPages.

(** The whole build up to the footer pass. *)
Definition build_body (galleryImages coverImages : list UserImageAsset)
    (imageMap : gmap Z (list UserImageAsset)) : M unit :=
  tocPages ← before_chapters galleryImages coverImages;
  chapters_phase imageMap (book_chapters book) ;;
  renderTableOfContents tocPages.

(** [buildBookPdf(book, userConfig, { images })] with [config] the merged
    configuration; the result is the finished document or the error. *)
Definition buildBookPdf (images : list UserImageAsset) : string + Doc :=
  let includedImages := List.filter img_include images in
  let galleryImages := List.filter isGallery includedImages in
  let coverImages := List.filter isCover includedImages in
  let imageMap := chapterImageMap includedImages in
  match (build_body galleryImages coverImages imageMap ;; footer_phase) initSt with
  | inl e => inl e
  | inr (_, s) => inr (mkDoc (st_pages s) (st_ops s))
  end.

End Build.

(* ------------------------------------------------------------------ *)
(** ** Sample inputs *)

(** Tokens of one font for the line breaker. *)
Definition wrap_font : PDFFont := mkFont Helvetica Regular.
Definition wrap_word (w : string) (n : Z) : StyledToken := mkToken w wrap_font (inject_Z n) false.
Definition wrap_space : StyledToken := mkToken " " wrap_font 1%Q true.

(** Font metrics of half the size per character, a base64 decoder that
    accepts everything and an embedder that decodes every image as
    400 x 300. *)
Definition sample_width (font : PDFFont) (text : string) (size : Q) : Q :=
  (inject_Z (Z.of_nat (String.length text)) * size / 2)%Q.
Definition sample_atob (payload : string) : option string := Some payload.
Definition sample_embed (embedder : Embedder) (bytes : string) : option EmbeddedImage :=
  Some (mkEmbedded 400 300).

Definition sample_config : PdfConfig :=
  mkConfig A4 72 72 72 72 true (mkFontCfg TimesRoman 28 true) (mkFontCfg TimesRoman 18 true)
    (mkFontCfg TimesRoman 12 false) Aurora.

Definition sample_book : GeneratedBook :=
  mkBook "A Tale" "Sea" "Novel" None
    [mkChapter 1 "Dawn" ("First paragraph." ++ String (ascii_of_nat 10)
                           (String (ascii_of_nat 10) "Second paragraph."));
     mkChapter 2 "Dusk" "Closing words."].

(** An included image placed in chapter 5, which the book does not have. *)
Definition dangling_image : UserImageAsset :=
  mkAsset "img-1" "Harbour" "data:image/png;base64,AAAA" "image/png" true None
    (Some (PChapter 5 None)).

(* ------------------------------------------------------------------ *)
(** ** Predicates used by the proofs *)

(** What every produced line satisfies. *)
Definition good_line (maxWidth : Q) (line : list StyledToken) : Prop :=
  line <> [] /\
  ((line_width line <= maxWidth)%Q \/ exists t, line = [t] /\ (maxWidth < tok_width t)%Q) /\
  (forall t r, line = t :: r -> tok_isSpace t = false) /\
  (forall t p, line = (p ++ [t])%list -> tok_isSpace t = false).

(** A line up to its last non-space token. *)
Definition trimmed (l : list StyledToken) : list StyledToken := firstn (line_end l) l.

(** The loop invariant of [wrapTokens]. *)
Definition wrap_inv (maxWidth : Q) (st : WrapState) : Prop :=
  (forall line, In line (ws_lines st) -> good_line maxWidth line) /\
  (ws_width st == line_width (ws_current st))%Q /\
  (forall t r, ws_current st = t :: r -> tok_isSpace t = false) /\
  (trimmed (ws_current st) = [] \/ (line_width (trimmed (ws_current st)) <= maxWidth)%Q \/
   exists t, trimmed (ws_current st) = [t] /\ (maxWidth < tok_width t)%Q).

(** [stays R c]: every successful run of [c] relates its start and end
    states by [R]. *)
Definition stays (R : St -> St -> Prop) {A} (c : M A) : Prop :=
  forall s a s', c s = inr (a, s') -> R s s'.

(** Pages are only added together with their metadata record, and none of
    them is a cover page. *)
Definition grows (s s' : St) : Prop :=
  exists ext,
    st_meta s' = (st_meta s ++ ext)%list /\
    st_pages s' = st_pages s + List.length ext /\
    Forall (fun m => meta_role m <> RoleCover /\ st_pages s <= meta_page m) ext.

(** The same, with the TOC entries left as they are. *)
Definition frame_rel (s s' : St) : Prop := grows s s' /\ st_toc s' = st_toc s.

(** No page, metadata record or TOC entry is added. *)
Definition fixed (s s' : St) : Prop :=
  st_meta s' = st_meta s /\ st_pages s' = st_pages s /\ st_toc s' = st_toc s.

(** No whitespace other than the space character, and every space is
    followed by a non-whitespace character or by the end. *)
Fixpoint single_spaced (s : string) : bool :=
  match s with
  | EmptyString => true
  | String c s' =>
      (negb (is_space c)
       || (Ascii.eqb c " " && match s' with
                              | String d _ => negb (is_space d)
                              | EmptyString => true
                              end))
      && single_spaced s'
  end.

(** Markup that writes spans back as text: bold as [**t**], italic as
    [*t*], plain text as it is. *)
Definition render_span (sp : RichTextSpan) : string :=
  if span_bold sp then "**" ++ span_text sp ++ "**"
  else if span_italic sp then "*" ++ span_text sp ++ "*"
  else span_text sp.

Fixpoint render_spans (l : list RichTextSpan) : string :=
  match l with
  | [] => ""
  | sp :: l' => render_span sp ++ render_spans l'
  end.

(** No character of the inline markup: ['*'], ['_'], ['`']. *)
Definition no_delim_char (c : ascii) : bool :=
  negb (Ascii.eqb c "*" || Ascii.eqb c "_" || Ascii.eqb c "`").

Fixpoint no_delims (s : string) : bool :=
  match s with
  | EmptyString => true
  | String c s' => no_delim_char c && no_delims s'
  end.

Definition is_plain (sp : RichTextSpan) : bool := negb (span_bold sp) && negb (span_italic sp).

(** A span the parser can give back: non-empty text without markup
    characters or whitespace runs, and not both bold and italic. *)
Definition span_ok (sp : RichTextSpan) : bool :=
  negb (span_text sp =? "")%string && no_delims (span_text sp)
  && (collapse_ws (span_text sp) =? span_text sp)%string
  && negb (span_bold sp && span_italic sp).

(** No two plain spans in a row (their texts would run together). *)
Fixpoint no_adjacent_plain (l : list RichTextSpan) : bool :=
  match l with
  | a :: ((b :: _) as l') => negb (is_plain a && is_plain b) && no_adjacent_plain l'
  | _ => true
  end.

Definition delim_open (d : ascii) (double : bool) : string :=
  if double then String d (String d EmptyString) else String d EmptyString.

(** The span properties of the parser's output. *)
Definition span_shape (sp : RichTextSpan) : Prop :=
  span_text sp <> "" /\ negb (span_bold sp && span_italic sp) = true.

(** What every block of the markup parser satisfies: a heading has a level
    from 1 to 3 and a non-empty text without surrounding whitespace; a
    paragraph and a quote have at least one span; a list is unordered and
    has at least one item, each with at least one span. *)
Definition block_ok (b : StructuredBlock) : Prop :=
  match b with
  | Heading level text => 1 <= level <= 3 /\ text <> "" /\ trim text = text
  | Paragraph spans => spans <> []
  | List_ ordered items => ordered = false /\ items <> [] /\ Forall (fun item => item <> []) items
  | Quote spans => spans <> []
  end.

Definition word_tokens (l : list StyledToken) : list StyledToken :=
  List.filter (fun t => negb (tok_isSpace t)) l.

Definition strings_concat (l : list string) : string := fold_right String.append "" l.

(** The text a pending run [cur] contributes: nothing when empty, one space
    for a whitespace run, itself otherwise. *)
Definition run_text (cur : string) : string :=
  if (cur =? "")%string then "" else if all_space cur then " " else cur.

Definition part_text (part : string) : string := if all_space part then " " else part.

Definition no_char (x : ascii) (s : string) : bool := all_chars (fun c => negb (Ascii.eqb c x)) s.

(** A line of [wrapText]: no line feed, and it fits or holds no space. *)
Definition line_shape (widthOfTextAtSize : PDFFont -> string -> Q -> Q) (font : PDFFont)
    (fontSize maxWidth : Q) (line : string) : Prop :=
  no_char (ascii_of_nat 10) line = true /\
  (Qle_bool (widthOfTextAtSize font line fontSize) maxWidth = true \/ no_char " " line = true).

(** The characters [normalizeForComparison] can return: ASCII lower-case
    letters, digits and the space. *)
Definition canon_char (c : ascii) : bool :=
  let n := nat_of_ascii c in ((97 <=? n) && (n <=? 122)) || is_digit c || Ascii.eqb c " ".

Definition alnum_or_space (c : ascii) : bool := is_alnum c || Ascii.eqb c " ".

(** A block that repeats the chapter title: a heading or paragraph whose
    comparison form is [normalizedTitle]. *)
Definition repeats_title (normalizedTitle : string) (b : StructuredBlock) : Prop :=
  exists c, candidate b = Some c /\ normalizeForComparison c = normalizedTitle.

(** Whether an image is placed in chapter [k]. *)
Definition placed_in (k : Z) (image : UserImageAsset) : bool :=
  match img_placement image with
  | Some (PChapter j _) => Z.eqb j k
  | _ => false
  end.

Definition LF : ascii := ascii_of_nat 10.

(** Whether a string ends in a carriage return. *)
Fixpoint ends_cr (s : string) : bool :=
  match s with
  | EmptyString => false
  | String c EmptyString => nat_of_ascii c =? 13
  | String _ s' => ends_cr s'
  end.

(** Two chapter-image maps that agree everywhere except at chapter [k]. *)
Definition agree_off (k : Z) (m m' : gmap Z (list UserImageAsset)) : Prop :=
  forall j, j <> k -> m !! j = m' !! j.

(* ================================================================== *)
(** * Properties *)

(* ------------------------------------------------------------------ *)
(** ** Image embedding *)

(** C9: the PNG embedder is used exactly when the MIME type is
    ["image/png"]; every other type, ["image/webp"] included, goes to the
    JPEG embedder. *)
Theorem embedUserImage_embedder :
  forall atob embed (asset : UserImageAsset),
    exists e : Embedder,
      (e = EmbedPng <-> img_type asset = "image/png") /\
      (e = EmbedJpg <-> img_type asset <> "image/png") /\
      embedUserImage atob embed asset
      = (bytes ← dataUrlToUint8Array atob (img_dataUrl asset); embedWith embed e bytes).
Proof.
  intros atob embed asset. unfold embedUserImage.
  destruct (String.eqb_spec (img_type asset) "image/png") as [Hpng | Hpng].
  - exists EmbedPng. split; [tauto | split; [split; [discriminate | tauto] | reflexivity]].
  - exists EmbedJpg. split; [split; [discriminate | tauto] | split; [tauto | reflexivity]].
Qed.

(* ------------------------------------------------------------------ *)
(** ** Excluded images *)

Lemma filter_idem {A} (f : A -> bool) (l : list A) : List.filter f (List.filter f l) = List.filter f l.
Proof.
  induction l as [|x l IH]; simpl; [reflexivity|].
  destruct (f x) eqn:Hx; simpl; [rewrite Hx, IH|]; auto.
Qed.

(** C10: images with [include = false] have no effect on the build. *)
Theorem excluded_images_no_effect :
  forall widthOf atob embed config book (images : list UserImageAsset),
    buildBookPdf widthOf atob embed config book images
    = buildBookPdf widthOf atob embed config book (List.filter img_include images).
Proof.
  intros. unfold buildBookPdf. rewrite filter_idem. reflexivity.
Qed.

(* ------------------------------------------------------------------ *)
(** ** Title stripping *)

Lemma strip_count_after_skip (nt : string) (blocks : list StructuredBlock) :
  strip_count nt (skipn (strip_count nt blocks) blocks) = 0.
Proof.
  induction blocks as [|b bs IH]; simpl; [reflexivity|].
  destruct (candidate b) as [c|] eqn:Hc; [|simpl; rewrite Hc; reflexivity].
  destruct (normalizeForComparison c =? nt)%string eqn:He; simpl.
  - exact IH.
  - rewrite Hc, He. reflexivity.
Qed.

(** C6: stripping the leading chapter heading is idempotent. *)
Theorem stripLeadingChapterHeading_idempotent :
  forall (blocks : list StructuredBlock) (chapterTitle : string),
    stripLeadingChapterHeading (stripLeadingChapterHeading blocks chapterTitle) chapterTitle
    = stripLeadingChapterHeading blocks chapterTitle.
Proof.
  intros blocks t. unfold stripLeadingChapterHeading.
  destruct (normalizeForComparison t =? "")%string eqn:Hn; [reflexivity|].
  destruct (strip_count (normalizeForComparison t) blocks =? 0) eqn:Hk.
  - rewrite Hk. reflexivity.
  - rewrite strip_count_after_skip. reflexivity.
Qed.

(* ------------------------------------------------------------------ *)
(** ** Greedy token wrapping *)

Section WrapProofs.

Variable maxWidth : Q.


Lemma line_width_snoc (l : list StyledToken) (t : StyledToken) :
  (line_width (l ++ [t])%list == line_width l + tok_width t)%Q.
Proof.
  induction l as [|a l IH]; simpl; [ring|]. rewrite IH. ring.
Qed.

Lemma line_end_le (l : list StyledToken) : line_end l <= List.length l.
Proof.
  induction l as [|a l IH]; simpl; [lia|].
  destruct ((line_end l =? 0) && tok_isSpace a); lia.
Qed.

Lemma line_end_snoc (l : list StyledToken) (t : StyledToken) :
  line_end (l ++ [t])%list = if tok_isSpace t then line_end l else S (List.length l).
Proof.
  induction l as [|a l IH]; simpl.
  - destruct (tok_isSpace t); reflexivity.
  - rewrite IH. destruct (tok_isSpace t) eqn:Ht; [reflexivity|]. simpl. reflexivity.
Qed.

Lemma trimmed_last_not_space (l : list StyledToken) :
  forall t p, firstn (line_end l) l = (p ++ [t])%list -> tok_isSpace t = false.
Proof.
  induction l as [|a l IH]; intros t p H; simpl in H.
  - destruct p; discriminate.
  - destruct ((line_end l =? 0) && tok_isSpace a) eqn:Hc.
    + destruct p; discriminate.
    + simpl in H. destruct p as [|x p]; simpl in H.
      * injection H as -> H. destruct (line_end l) as [|e] eqn:He.
        -- simpl in Hc. exact Hc.
        -- pose proof (line_end_le l) as Hle. rewrite He in Hle.
           destruct l; simpl in *; [lia | discriminate].
      * injection H as _ H. exact (IH t p H).
Qed.



Lemma pushLine_good (cur : list StyledToken) (lines : list (list StyledToken)) :
  (forall line, In line lines -> good_line maxWidth line) ->
  (forall t r, cur = t :: r -> tok_isSpace t = false) ->
  (trimmed cur = [] \/ (line_width (trimmed cur) <= maxWidth)%Q \/
   exists t, trimmed cur = [t] /\ (maxWidth < tok_width t)%Q) ->
  forall line, In line (pushLine cur lines) -> good_line maxWidth line.
Proof.
  intros Hlines Hhead Htrim line Hin. unfold pushLine in Hin.
  destruct cur as [|a cur']; [exact (Hlines line Hin)|].
  destruct (0 <? line_end (a :: cur')) eqn:Hpos; [|exact (Hlines line Hin)].
  apply in_app_or in Hin as [Hin | [<- | []]]; [exact (Hlines line Hin)|].
  apply Nat.ltb_lt in Hpos.
  assert (Hne : firstn (line_end (a :: cur')) (a :: cur') <> []).
  { destruct (line_end (a :: cur')) as [|e]; [lia|]. discriminate. }
  split; [exact Hne|]. split.
  - unfold trimmed in Htrim. destruct Htrim as [Htrim | Htrim]; [contradiction|exact Htrim].
  - split.
    + intros t r H. destruct (line_end (a :: cur')) as [|e]; [lia|].
      simpl in H. injection H as -> _. exact (Hhead t cur' eq_refl).
    + apply trimmed_last_not_space.
Qed.

Lemma wrap_step_inv (st : WrapState) (token : StyledToken) :
  wrap_inv maxWidth st -> wrap_inv maxWidth (wrap_step maxWidth st token).
Proof.
  intros (Hlines & Hw & Hhead & Htrim). unfold wrap_step.
  set (brk := negb (tok_isSpace token)
              && negb (Qle_bool (ws_width st + tok_width token)%Q maxWidth)
              && negb match ws_current st with [] => true | _ => false end).
  set (st1 := if brk then mkWrap (pushLine (ws_current st) (ws_lines st)) [] 0%Q else st).
  assert (H1 : wrap_inv maxWidth st1 /\
               (ws_current st1 <> [] -> ws_current st1 = ws_current st /\ ws_width st1 = ws_width st
                                       /\ brk = false)).
  { unfold st1. destruct brk eqn:Hb.
    - split; [|simpl; congruence].
      split; [apply pushLine_good; assumption|]. simpl.
      split; [reflexivity|]. split; [discriminate|]. left. reflexivity.
    - split; [exact (conj Hlines (conj Hw (conj Hhead Htrim)))|]. auto. }
  destruct H1 as [(Hl1 & Hw1 & Hh1 & Ht1) Hsame].
  destruct (tok_isSpace token && match ws_current st1 with [] => true | _ => false end) eqn:Hskip.
  { exact (conj Hl1 (conj Hw1 (conj Hh1 Ht1))). }
  refine (conj _ (conj _ (conj _ _))); simpl.
  - exact Hl1.
  - rewrite line_width_snoc, Hw1. reflexivity.
  - intros t r H. destruct (ws_current st1) as [|a c] eqn:Hc.
    + simpl in H. injection H as <- _. simpl in Hskip.
      destruct (tok_isSpace token); [discriminate | reflexivity].
    + simpl in H. injection H as <- _. exact (Hh1 a c eq_refl).
  - unfold trimmed. rewrite line_end_snoc. destruct (tok_isSpace token) eqn:Hsp.
    + rewrite firstn_app. pose proof (line_end_le (ws_current st1)) as Hle.
      replace (line_end (ws_current st1) - List.length (ws_current st1)) with 0 by lia.
      rewrite app_nil_r. exact Ht1.
    + rewrite firstn_all2 by (rewrite length_app; simpl; lia).
      right. destruct (ws_current st1) as [|a c] eqn:Hc.
      * simpl. destruct (Qlt_le_dec maxWidth (tok_width token)) as [Hgt | Hle].
        -- right. exists token. split; [reflexivity | exact Hgt].
        -- left. lra.
      * left. destruct (Hsame ltac:(discriminate)) as (Hcur & Hwid & Hbrk).
        unfold brk in Hbrk. rewrite <- Hcur, <- Hwid in Hbrk. rewrite ?Hsp in Hbrk. simpl in Hbrk.
        destruct (Qle_bool (ws_width st1 + tok_width token) maxWidth) eqn:Hq; [|discriminate].
        apply Qle_bool_iff in Hq.
        pose proof (line_width_snoc (a :: c) token) as Hs.
        change (line_width ((a :: c) ++ [token])%list <= maxWidth)%Q.
        lra.
Qed.

Lemma wrap_fold_inv (tokens : list StyledToken) (st : WrapState) :
  wrap_inv maxWidth st -> wrap_inv maxWidth (fold_left (wrap_step maxWidth) tokens st).
Proof.
  revert st. induction tokens as [|t ts IH]; intros st H; simpl; [exact H|].
  apply IH, wrap_step_inv, H.
Qed.

End WrapProofs.

(** C2: every line of [wrapTokens] is non-empty, its token widths sum to at
    most [maxWidth] unless it is a single oversized token, and it neither
    starts nor ends with a whitespace token. *)
Theorem wrapTokens_lines_fit :
  forall (tokens : list StyledToken) (maxWidth : Q) (line : list StyledToken),
    In line (wrapTokens tokens maxWidth) ->
    line <> [] /\
    ((line_width line <= maxWidth)%Q \/
     exists t, line = [t] /\ (maxWidth < tok_width t)%Q) /\
    (forall t r, line = t :: r -> tok_isSpace t = false) /\
    (forall t p, line = (p ++ [t])%list -> tok_isSpace t = false).
Proof.
  intros tokens maxWidth line Hin. unfold wrapTokens in Hin.
  assert (H0 : wrap_inv maxWidth (mkWrap [] [] 0%Q)).
  { split; [intros l []|]. simpl. split; [reflexivity|]. split; [discriminate|].
    left. reflexivity. }
  destruct (wrap_fold_inv maxWidth tokens _ H0) as (Hl & _ & Hh & Ht).
  exact (pushLine_good maxWidth _ _ Hl Hh Ht line Hin).
Qed.

Lemma wrapTokens_lines_fit_witness :
  In [wrap_word "alpha" 5] (wrapTokens [wrap_word "alpha" 5; wrap_space; wrap_word "beta" 6] 8%Q) /\
  [wrap_word "alpha" 5] <> [].
Proof.
  assert (Hin : In [wrap_word "alpha" 5] (wrapTokens [wrap_word "alpha" 5; wrap_space; wrap_word "beta" 6] 8%Q))
    by (vm_compute; auto).
  split; [exact Hin|].
  exact (proj1 (wrapTokens_lines_fit _ _ _ Hin)).
Defined.

(* ------------------------------------------------------------------ *)
(** ** Image anchors within a chapter *)

Lemma block_steps_inserted (trig : nat) (m : list UserImageAsset) :
  forall bs idx, block_steps trig m idx bs true = (map DrawBlockStep bs, true).
Proof.
  induction bs as [|b bs IH]; intros idx; simpl; [reflexivity|].
  rewrite IH. reflexivity.
Qed.

Lemma block_steps_trigger (trig : nat) (m : list UserImageAsset) :
  forall bs idx, idx + 1 <= trig <= idx + List.length bs ->
  block_steps trig m idx bs false =
  ((map DrawBlockStep (firstn (trig - idx) bs) ++ [DrawImagesStep m]
    ++ map DrawBlockStep (skipn (trig - idx) bs))%list, true).
Proof.
  induction bs as [|b bs IH]; intros idx Hr; simpl in Hr; [lia|].
  simpl. destruct (trig <=? idx + 1) eqn:Ht.
  - apply Nat.leb_le in Ht. replace (trig - idx) with 1 by lia. simpl.
    rewrite block_steps_inserted. reflexivity.
  - apply Nat.leb_gt in Ht. simpl. rewrite IH by lia.
    replace (trig - idx) with (S (trig - S idx)) by lia. reflexivity.
Qed.

(** C3 (as the code has it): the steps of a chapter are its start images,
    the first [t] blocks, the middle images, the remaining blocks and the end
    images, where [t] is [max 1 (floor (n / 2))] for [n > 0] blocks and [0]
    for an empty chapter. *)
Theorem chapter_steps_order :
  forall (blocks : list StructuredBlock) (s m e : list UserImageAsset),
    let n := List.length blocks in
    let t := Nat.min n (Nat.max 1 (n / 2)) in
    chapter_steps blocks s m e =
    ([DrawImagesStep s] ++ map DrawBlockStep (firstn t blocks) ++ [DrawImagesStep m]
     ++ map DrawBlockStep (skipn t blocks) ++ [DrawImagesStep e])%list.
Proof.
  intros blocks s m e n t. unfold chapter_steps.
  destruct blocks as [|b bs].
  - reflexivity.
  - fold n. subst t.
    assert (Hn : 1 <= n) by (unfold n; simpl; lia).
    assert (Hle : Nat.max 1 (n / 2) <= n).
    { apply Nat.max_lub; [lia|]. apply Nat.Div0.div_le_upper_bound; lia. }
    rewrite (Nat.min_r _ _ Hle).
    rewrite block_steps_trigger by (fold n; lia).
    rewrite Nat.sub_0_r. simpl. rewrite <- app_assoc. reflexivity.
Qed.

(** C3 counterexample: with three blocks the middle images follow the first
    block, not the second ([ceil (3 / 2) = 2]). *)
Lemma chapter_steps_three_blocks :
  chapter_steps [Heading 1 "One"; Paragraph [plain "two"]; Paragraph [plain "three"]]
    [] [dangling_image] [] =
  [DrawImagesStep []; DrawBlockStep (Heading 1 "One"); DrawImagesStep [dangling_image];
   DrawBlockStep (Paragraph [plain "two"]); DrawBlockStep (Paragraph [plain "three"]);
   DrawImagesStep []].
Proof. reflexivity. Qed.

(* ------------------------------------------------------------------ *)
(** ** Bullet lines *)

(** C4: the class [[*-+]] is the range from '*' to '+', so a line opened by
    '-' is no bullet and is read as paragraph text, while '*' and '+' lines
    form one list. *)
Theorem bullet_dash_not_list :
  (forall r, bulletMatch (String "-" r) = None) /\
  parseMarkdownToBlocks "- item" = [Paragraph [plain "- item"]] /\
  parseMarkdownToBlocks ("* a" ++ String (ascii_of_nat 10) "+ b") =
    [List_ false [[plain "a"]; [plain "b"]]].
Proof.
  split; [intros r; reflexivity|]. split; reflexivity.
Qed.

(* ------------------------------------------------------------------ *)
(** ** Heading lines *)

Lemma sdrop_app (x y : string) : sdrop (String.length x) (x ++ y) = y.
Proof. induction x as [|c x IH]; simpl; [reflexivity|exact IH]. Qed.

Lemma count_leading_app (p : ascii -> bool) (x y : string) :
  all_chars p x = true -> String.length x <= count_leading p (x ++ y).
Proof.
  induction x as [|c x IH]; simpl; intros H; [lia|].
  apply andb_true_iff in H as [Hc Hx]. rewrite Hc. specialize (IH Hx). lia.
Qed.

Lemma count_leading_split (p : ascii -> bool) :
  forall s k, k <= count_leading p s ->
  exists x, s = (x ++ sdrop k s)%string /\ String.length x = k /\ all_chars p x = true.
Proof.
  induction s as [|c s IH]; intros k Hk; simpl in Hk.
  - exists EmptyString. assert (k = 0) as -> by lia. split; [|split]; reflexivity.
  - destruct k as [|k].
    + exists EmptyString. split; [|split]; reflexivity.
    + destruct (p c) eqn:Hc; [|lia].
      destruct (IH k ltac:(lia)) as (x & Hs & Hl & Ha).
      exists (String c x). simpl. rewrite Hc, Ha, Hl. split; [|split; reflexivity].
      exact (f_equal (String c) Hs).
Qed.

Lemma try_ws_eq (plus : bool) (r : string) (m : nat) :
  try_ws plus r m =
  if (negb plus || (0 <? m)) && dot_plus (sdrop m r) then Some (sdrop m r)
  else match m with 0 => None | S m' => try_ws plus r m' end.
Proof. destruct m; reflexivity. Qed.

Lemma try_ws_sound (plus : bool) (r : string) :
  forall m rest, try_ws plus r m = Some rest ->
  exists k, k <= m /\ rest = sdrop k r /\ dot_plus rest = true.
Proof.
  induction m as [|m IH]; intros rest H; rewrite try_ws_eq in H;
    destruct ((negb plus || (0 <? _)) && dot_plus (sdrop _ r)) eqn:Hc.
  - injection H as <-. exists 0. apply andb_true_iff in Hc as [_ Hd]. auto.
  - discriminate.
  - injection H as <-. exists (S m). apply andb_true_iff in Hc as [_ Hd]. auto.
  - destruct (IH rest H) as (k & Hk & Hr & Hd). exists k. repeat split; auto.
Qed.

Lemma try_ws_complete (r : string) :
  forall m k, k <= m -> dot_plus (sdrop k r) = true -> try_ws false r m <> None.
Proof.
  induction m as [|m IH]; intros k Hk Hd; rewrite try_ws_eq; simpl negb.
  - assert (k = 0) as -> by lia. simpl orb. rewrite Hd. discriminate.
  - simpl orb. destruct (dot_plus (sdrop (S m) r)) eqn:Hc; [discriminate|].
    destruct (Nat.eq_dec k (S m)) as [->|Hne]; [congruence|].
    apply (IH k); [lia | exact Hd].
Qed.

Lemma try_hashes_eq (s : string) (n : nat) :
  try_hashes s (S n) =
  match try_ws false (sdrop (S n) s) (count_leading is_space (sdrop (S n) s)) with
  | Some rest => Some (S n, rest)
  | None => try_hashes s n
  end.
Proof. reflexivity. Qed.

Lemma try_hashes_sound (s : string) :
  forall n k rest, try_hashes s n = Some (k, rest) ->
  1 <= k <= n /\
  try_ws false (sdrop k s) (count_leading is_space (sdrop k s)) = Some rest.
Proof.
  induction n as [|n IH]; intros k rest H; [discriminate|]. rewrite try_hashes_eq in H.
  destruct (try_ws false (sdrop (S n) s) (count_leading is_space (sdrop (S n) s)))
    as [r|] eqn:Hw.
  - injection H as <- <-. split; [lia | exact Hw].
  - destruct (IH k rest H) as [Hk Hw']. split; [lia | exact Hw'].
Qed.

Lemma try_hashes_complete (s : string) (a : nat) :
  1 <= a ->
  try_ws false (sdrop a s) (count_leading is_space (sdrop a s)) <> None ->
  forall n, a <= n -> try_hashes s n <> None.
Proof.
  intros Ha Hw. induction n as [|n IH]; intros Hn; [lia|]. rewrite try_hashes_eq.
  destruct (try_ws false (sdrop (S n) s) (count_leading is_space (sdrop (S n) s)))
    eqn:Hc; [discriminate|].
  destruct (Nat.eq_dec a (S n)) as [->|Hne]; [contradiction|].
  apply IH. lia.
Qed.

Lemma try_hashes_maximal (s : string) :
  forall n k rest, try_hashes s n = Some (k, rest) ->
  forall a, k < a <= n ->
  try_ws false (sdrop a s) (count_leading is_space (sdrop a s)) = None.
Proof.
  induction n as [|n IH]; intros k rest H a Ha; [discriminate|]. rewrite try_hashes_eq in H.
  destruct (try_ws false (sdrop (S n) s) (count_leading is_space (sdrop (S n) s)))
    as [r|] eqn:Hw.
  - injection H as <- <-. lia.
  - destruct (Nat.eq_dec a (S n)) as [->|Hne]; [exact Hw|].
    apply (IH k rest H). lia.
Qed.

Lemma headingMatch_sound (s : string) (k : nat) (rest : string) :
  headingMatch s = Some (k, rest) -> 1 <= k <= 3 /\ heading_line s.
Proof.
  unfold headingMatch. intros H.
  destruct (try_hashes_sound s _ k rest H) as [Hk Hw]. split; [lia|].
  destruct (count_leading_split is_hash s k ltac:(lia)) as (h & Hs & Hl & Hh).
  destruct (try_ws_sound false _ _ _ Hw) as (j & Hj & Hr & Hd).
  destruct (count_leading_split is_space (sdrop k s) j Hj) as (w & Hs' & _ & Hw').
  subst rest. exists h, w, (sdrop j (sdrop k s)).
  split; [rewrite <- Hs'; exact Hs|]. split; [lia|]. auto.
Qed.

Lemma headingMatch_complete (s : string) :
  heading_line s -> headingMatch s <> None.
Proof.
  intros (h & w & rest & -> & Hl & Hh & Hw & Hd). unfold headingMatch.
  apply (try_hashes_complete _ (String.length h)); [lia| |].
  - rewrite sdrop_app.
    apply (try_ws_complete _ _ (String.length w)); [apply count_leading_app, Hw|].
    rewrite sdrop_app. exact Hd.
  - pose proof (count_leading_app is_hash h (w ++ rest) Hh). lia.
Qed.

(** C5 (as the code has it): a non-blank trimmed line becomes a heading of
    level 1 to 3 exactly when it matches [^(#{1,3})\s*(.+)$], with the
    whitespace after the hashes optional. The heading's level is the number
    of hashes group 1 matched: the largest count (at most 3) of leading
    hashes after which optional whitespace and a non-empty rest [(.+)] can
    follow, and its text is that rest, trimmed. A non-blank line that
    matches neither this pattern nor the bullet or quote patterns goes to
    the paragraph buffer. *)
Theorem heading_lines_exact :
  forall (line : string) (ls buf : list string) (blocks : list StructuredBlock) (f : nat),
    trim line <> ""%string ->
    (heading_line (trim line) ->
     exists h w text,
       trim line = (h ++ w ++ text)%string /\ 1 <= String.length h <= 3 /\
       all_chars is_hash h = true /\ all_chars is_space w = true /\ dot_plus text = true /\
       (forall h' w' text', trim line = (h' ++ w' ++ text')%string ->
          String.length h' <= 3 -> all_chars is_hash h' = true ->
          all_chars is_space w' = true -> dot_plus text' = true ->
          String.length h' <= String.length h) /\
       parse_loop (S f) (line :: ls) buf blocks =
       parse_loop f ls [] (flushParagraph buf blocks
                             ++ [Heading (String.length h) (trim text)])) /\
    (~ heading_line (trim line) -> bulletMatch (trim line) = None ->
     blockquoteMatch (trim line) = None ->
     parse_loop (S f) (line :: ls) buf blocks = parse_loop f ls (buf ++ [trim line]) blocks).
Proof.
  intros line ls buf blocks f Hne. simpl.
  assert (Hb : (trim line =? "")%string = false) by (apply String.eqb_neq; exact Hne).
  rewrite Hb. split.
  - intros Hh. destruct (headingMatch (trim line)) as [[k text]|] eqn:Hm.
    + set (s := trim line) in *.
      unfold headingMatch in Hm.
      destruct (try_hashes_sound s _ k text Hm) as [Hk Hw].
      destruct (count_leading_split is_hash s k ltac:(lia)) as (h & Hs & Hl & Hhash).
      destruct (try_ws_sound false _ _ _ Hw) as (j & Hj & Hr & Hd).
      destruct (count_leading_split is_space (sdrop k s) j Hj) as (w & Hs' & _ & Hsp).
      exists h, w, text.
      split; [rewrite Hr, <- Hs'; exact Hs|].
      split; [lia|]. split; [exact Hhash|]. split; [exact Hsp|]. split; [exact Hd|].
      split.
      * intros h' w' t' Hs2 Hl' Hh' Hw' Hd'.
        destruct (Nat.le_gt_cases (String.length h') (String.length h)) as [Hle|Hgt];
          [exact Hle|exfalso].
        assert (Hc : String.length h' <= count_leading is_hash s)
          by (rewrite Hs2; apply count_leading_app, Hh').
        apply (try_ws_complete (sdrop (String.length h') s)
                 (count_leading is_space (sdrop (String.length h') s)) (String.length w')).
        -- rewrite Hs2, sdrop_app. apply count_leading_app, Hw'.
        -- rewrite Hs2, sdrop_app, sdrop_app. exact Hd'.
        -- apply (try_hashes_maximal s _ k text Hm); lia.
      * rewrite Hl, Nat.min_l by lia. reflexivity.
    + exfalso. exact (headingMatch_complete _ Hh Hm).
  - intros Hh Hbul Hq. destruct (headingMatch (trim line)) as [[k text]|] eqn:Hm.
    + exfalso. apply Hh. exact (proj2 (headingMatch_sound _ _ _ Hm)).
    + rewrite Hbul, Hq. reflexivity.
Qed.

(** C5 counterexample: a heading without whitespace after the hash. *)
Lemma heading_without_space :
  parseMarkdownToBlocks "#Title" = [Heading 1 "Title"].
Proof. reflexivity. Qed.

Lemma heading_lines_exact_witness :
  trim "###" <> ""%string /\
  exists h w text,
    trim "###" = (h ++ w ++ text)%string /\ 1 <= String.length h <= 3 /\
    all_chars is_hash h = true /\ all_chars is_space w = true /\ dot_plus text = true /\
    (forall h' w' text', trim "###" = (h' ++ w' ++ text')%string ->
       String.length h' <= 3 -> all_chars is_hash h' = true ->
       all_chars is_space w' = true -> dot_plus text' = true ->
       String.length h' <= String.length h) /\
    parse_loop 1 ["###"] [] [] =
    parse_loop 0 [] [] (flushParagraph [] [] ++ [Heading (String.length h) (trim text)]).
Proof.
  assert (Hne : trim "###" <> ""%string) by discriminate.
  split; [exact Hne|].
  apply (proj1 (heading_lines_exact "###" [] [] [] 0 Hne)).
  exists "##"%string, EmptyString, "#"%string. vm_compute. repeat split; lia.
Defined.

(* ------------------------------------------------------------------ *)
(** ** What a build computation may do to the page bookkeeping *)


Section Stays.

Context (R : St -> St -> Prop) `{!PreOrder R}.

Lemma stays_ret {A} (a : A) : stays R (mret a).
Proof. intros s a' s' H. injection H as _ <-. reflexivity. Qed.

Lemma stays_bind {A B} (c : M A) (f : A -> M B) :
  stays R c -> (forall a, stays R (f a)) -> stays R (mbind f c).
Proof.
  intros Hc Hf s b s'' H. unfold mbind, M_bind in H.
  destruct (c s) as [e|[a s']] eqn:Hs; [discriminate|].
  transitivity s'; [exact (Hc s a s' Hs) | exact (Hf a s' b s'' H)].
Qed.

Lemma stays_throw {A} (msg : string) : stays R (throw (A:=A) msg).
Proof. intros s a s' H. discriminate. Qed.

Lemma stays_gets {A} (f : St -> A) : stays R (gets f).
Proof. intros s a s' H. injection H as _ <-. reflexivity. Qed.

Lemma stays_modify (f : St -> St) : (forall s, R s (f s)) -> stays R (modify f).
Proof. intros Hf s a s' H. injection H as _ <-. apply Hf. Qed.

Lemma stays_foldM {A B} (f : B -> A -> M B) :
  (forall b x, stays R (f b x)) -> forall l b, stays R (foldM f b l).
Proof.
  intros Hf l. induction l as [|x l IH]; intros b; simpl.
  - apply stays_ret.
  - apply stays_bind; [apply Hf | intros b'; apply IH].
Qed.

Lemma stays_forM {A} (f : A -> M unit) :
  (forall x, stays R (f x)) -> forall l, stays R (forM_ l f).
Proof.
  intros Hf l. induction l as [|x l IH]; simpl.
  - apply stays_ret.
  - apply stays_bind; [apply Hf | intros _; apply IH].
Qed.

End Stays.

Lemma stays_mono (R1 R2 : St -> St -> Prop) {A} (c : M A) :
  (forall s s', R1 s s' -> R2 s s') -> stays R1 c -> stays R2 c.
Proof. intros H Hc s a s' Hr. apply H, (Hc s a s' Hr). Qed.


Global Instance grows_preorder : PreOrder grows.
Proof.
  split.
  - intros s. exists []. rewrite app_nil_r. split; [reflexivity|]. split; [simpl; lia|constructor].
  - intros s1 s2 s3 (e1 & Hm1 & Hp1 & Hf1) (e2 & Hm2 & Hp2 & Hf2).
    exists (e1 ++ e2)%list. rewrite Hm2, Hm1, app_assoc. split; [reflexivity|].
    rewrite length_app. split; [lia|]. apply Forall_app. split; [exact Hf1|].
    eapply Forall_impl; [exact Hf2|]. intros m [Hr Hp]. split; [exact Hr|lia].
Qed.

Global Instance frame_rel_preorder : PreOrder frame_rel.
Proof.
  split.
  - intros s. split; [reflexivity|reflexivity].
  - intros s1 s2 s3 [H1 T1] [H2 T2]. split; [etransitivity; eassumption | congruence].
Qed.

Lemma frame_rel_same (s s' : St) :
  st_meta s' = st_meta s -> st_pages s' = st_pages s -> st_toc s' = st_toc s -> frame_rel s s'.
Proof.
  intros Hm Hp Ht. split; [|exact Ht]. exists []. rewrite app_nil_r.
  split; [exact Hm|]. split; [simpl; lia|constructor].
Qed.

Lemma frame_rel_grows (s s' : St) : frame_rel s s' -> grows s s'.
Proof. intros [H _]. exact H. Qed.

Create HintDb stays_db.

(** Splits a build computation into its primitive steps. *)
Ltac stays_auto :=
  repeat match goal with
  | |- forall _, _ => intro
  | |- PreOrder _ => exact _
  | |- stays _ (mret _) => apply stays_ret
  | |- stays _ (mbind _ _) => apply stays_bind
  | |- stays _ (foldM _ _ _) => apply stays_foldM
  | |- stays _ (forM_ _ _) => apply stays_forM
  | |- stays _ (throw _) => apply stays_throw
  | |- stays _ (gets _) => apply stays_gets
  | |- stays _ ((fun _ => _) _) => cbv beta
  | |- stays _ (let _ := _ in _) => cbv zeta
  | |- stays _ (match ?x with _ => _ end) => destruct x
  | |- stays _ _ => solve [eauto with stays_db]
  end.

Ltac sbind := refine (stays_bind _ _ _ _ _).
Ltac sforM := refine (stays_forM _ _ _ _).

Lemma stays_draw (page : nat) (op : DrawOp) : stays frame_rel (draw page op).
Proof. apply stays_modify. intros s. apply frame_rel_same; reflexivity. Qed.

Lemma stays_set_y (y : Q) : stays frame_rel (set_y y).
Proof. apply stays_modify. intros s. apply frame_rel_same; reflexivity. Qed.

Lemma stays_set_page (p : nat) : stays frame_rel (set_page p).
Proof. apply stays_modify. intros s. apply frame_rel_same; reflexivity. Qed.

Lemma stays_cache_set (k : string) (v : EmbeddedImage) : stays frame_rel (cache_set k v).
Proof. apply stays_modify. intros s. apply frame_rel_same; reflexivity. Qed.

Global Hint Resolve stays_draw stays_set_y stays_set_page stays_cache_set : stays_db.

Lemma addContentPage_run (config : PdfConfig) (role : PageRole) (t : option string) (s : St) :
  addContentPage config role t s =
  inr (st_pages s,
       mkSt (S (st_pages s)) (st_ops s ++ [(st_pages s, DrawRect 0 0 (pageWidth config) (pageHeight config))])
            (st_meta s ++ [mkMeta (st_pages s) role t]) (st_toc s) (st_cache s) (st_page s) (st_y s)).
Proof. reflexivity. Qed.

Lemma stays_addContentPage (config : PdfConfig) (role : PageRole) (t : option string) :
  role <> RoleCover -> stays frame_rel (addContentPage config role t).
Proof.
  intros Hr s a s' H. rewrite addContentPage_run in H. injection H as _ <-.
  split; [|reflexivity]. exists [mkMeta (st_pages s) role t]. simpl.
  split; [reflexivity|]. split; [lia|]. constructor; [simpl; split; [exact Hr|lia]|constructor].
Qed.

Global Hint Resolve stays_addContentPage : stays_db.
Global Hint Extern 1 (_ <> RoleCover) => discriminate : stays_db.

Section BuildFrame.

Variable widthOfTextAtSize : PDFFont -> string -> Q -> Q.
Variable atob : string -> option string.
Variable embed : Embedder -> string -> option EmbeddedImage.
Variable config : PdfConfig.
Variable book : GeneratedBook.

Lemma stays_getEmbeddedImageForAsset (asset : UserImageAsset) :
  stays frame_rel (getEmbeddedImageForAsset atob embed asset).
Proof.
  unfold getEmbeddedImageForAsset, embedUserImage, dataUrlToUint8Array, embedWith.
  stays_auto.
Qed.
Hint Resolve stays_getEmbeddedImageForAsset : stays_db.

Lemma stays_drawRichLine (page : nat) (l : list StyledToken) (x y size : Q) :
  stays frame_rel (drawRichLine page l x y size).
Proof. unfold drawRichLine. stays_auto. Qed.
Hint Resolve stays_drawRichLine : stays_db.

Lemma stays_drawRichParagraph (spans : list RichTextSpan) fonts (ensureSpaceFn : Q -> M unit)
    (origin cWidth fontSize lHeight pSpacing : Q) (options : ParagraphOptions) :
  (forall q, stays frame_rel (ensureSpaceFn q)) ->
  (forall f, opt_beforeFirstLine options = Some f -> forall y, stays frame_rel (f y)) ->
  stays frame_rel (drawRichParagraph widthOfTextAtSize spans fonts ensureSpaceFn origin cWidth
                     fontSize lHeight pSpacing options).
Proof.
  intros He Hb. unfold drawRichParagraph.
  destruct spans as [|sp sps]; [stays_auto|].
  destruct (wrapTokens _ _) as [|ln lns]; [stays_auto|].
  sbind; [|stays_auto]. sforM. intros [i toks].
  sbind; [apply He|intros _].
  sbind; [|stays_auto].
  destruct i; [|stays_auto]. destruct (opt_beforeFirstLine options) as [f|] eqn:Hf; [|stays_auto].
  sbind; [stays_auto|]. intros y. exact (Hb f eq_refl y).
Qed.

Lemma stays_chapterPageFactory (i : Z) (t : string) (first : bool) :
  stays frame_rel (chapterPageFactory widthOfTextAtSize config i t first).
Proof. unfold chapterPageFactory. stays_auto. Qed.
Hint Resolve stays_chapterPageFactory : stays_db.

Lemma stays_ensureSpace (chapter : ChapterContent) (q : Q) :
  stays frame_rel (ensureSpace widthOfTextAtSize config chapter q).
Proof. unfold ensureSpace. stays_auto. Qed.
Hint Resolve stays_ensureSpace : stays_db.

Lemma stays_drawBlock (chapter : ChapterContent) (block : StructuredBlock) :
  stays frame_rel (drawBlock widthOfTextAtSize config chapter block).
Proof.
  unfold drawBlock. destruct block; [stays_auto| | |].
  - apply stays_drawRichParagraph; [stays_auto | intros f Hf; discriminate].
  - sforM. intros item. apply stays_drawRichParagraph; [stays_auto|].
    intros f Hf. injection Hf as <-. stays_auto.
  - apply stays_drawRichParagraph; [stays_auto | intros f Hf; discriminate].
Qed.
Hint Resolve stays_drawBlock : stays_db.

Lemma stays_drawChapterImage (asset : UserImageAsset) (ensureSpaceFn : Q -> M unit) :
  (forall q, stays frame_rel (ensureSpaceFn q)) ->
  stays frame_rel (drawChapterImage atob embed config asset ensureSpaceFn).
Proof. intros He. unfold drawChapterImage. stays_auto. Qed.

Lemma stays_runChapterStep (chapter : ChapterContent) (step : ChapterStep) :
  stays frame_rel (runChapterStep widthOfTextAtSize atob embed config chapter step).
Proof.
  unfold runChapterStep. destruct step; [|stays_auto].
  sforM. intros asset. apply stays_drawChapterImage. stays_auto.
Qed.
Hint Resolve stays_runChapterStep : stays_db.

Lemma stays_createTocPage : stays frame_rel (createTocPage config).
Proof. unfold createTocPage. stays_auto. Qed.
Hint Resolve stays_createTocPage : stays_db.

Lemma stays_toc_phase : stays frame_rel (toc_phase config book).
Proof. unfold toc_phase. stays_auto. Qed.

Lemma stays_gallery_phase (images : list UserImageAsset) :
  stays frame_rel (gallery_phase atob embed config images).
Proof. unfold gallery_phase, gallery_card. stays_auto. Qed.

Lemma stays_toc_loop (i : nat) (pages : list (nat * Q)) (entries : list TocEntry) :
  stays frame_rel (toc_loop widthOfTextAtSize config i pages entries).
Proof.
  revert i pages. induction entries as [|e es IH]; intros i pages; simpl; stays_auto.
Qed.
Hint Resolve stays_toc_loop : stays_db.

Lemma stays_renderTableOfContents (pages : list (nat * Q)) :
  stays frame_rel (renderTableOfContents widthOfTextAtSize config pages).
Proof. unfold renderTableOfContents. stays_auto. Qed.

End BuildFrame.

Global Hint Resolve stays_getEmbeddedImageForAsset stays_drawRichLine stays_chapterPageFactory
  stays_ensureSpace stays_drawBlock stays_runChapterStep stays_createTocPage stays_toc_loop
  stays_toc_phase stays_gallery_phase stays_renderTableOfContents : stays_db.


Global Instance fixed_preorder : PreOrder fixed.
Proof.
  split.
  - intros s. repeat split.
  - intros s1 s2 s3 (M1 & P1 & T1) (M2 & P2 & T2). repeat split; congruence.
Qed.

Lemma fixed_frame_rel (s s' : St) : fixed s s' -> frame_rel s s'.
Proof. intros (Hm & Hp & Ht). apply frame_rel_same; assumption. Qed.

Lemma stays_draw_fixed (page : nat) (op : DrawOp) : stays fixed (draw page op).
Proof. apply stays_modify. intros s. repeat split. Qed.

Lemma stays_set_y_fixed (y : Q) : stays fixed (set_y y).
Proof. apply stays_modify. intros s. repeat split. Qed.

Lemma stays_set_page_fixed (p : nat) : stays fixed (set_page p).
Proof. apply stays_modify. intros s. repeat split. Qed.

Lemma stays_cache_set_fixed (k : string) (v : EmbeddedImage) : stays fixed (cache_set k v).
Proof. apply stays_modify. intros s. repeat split. Qed.

Global Hint Resolve stays_draw_fixed stays_set_y_fixed stays_set_page_fixed
  stays_cache_set_fixed : stays_db.

Lemma stays_getEmbeddedImageForAsset_fixed atob embed (asset : UserImageAsset) :
  stays fixed (getEmbeddedImageForAsset atob embed asset).
Proof.
  unfold getEmbeddedImageForAsset, embedUserImage, dataUrlToUint8Array, embedWith.
  stays_auto.
Qed.

Global Hint Resolve stays_getEmbeddedImageForAsset_fixed : stays_db.

Lemma bind_inv {A B} (c : M A) (f : A -> M B) (s : St) (b : B) (s'' : St) :
  mbind f c s = inr (b, s'') -> exists a s', c s = inr (a, s') /\ f a s' = inr (b, s'').
Proof.
  unfold mbind, M_bind. destruct (c s) as [e|[a s']]; [discriminate|]. eauto.
Qed.

(** Applies [stays R] of the computation in hypothesis [H] to [H]. *)
Ltac stays_in R H :=
  match type of H with
  | ?c ?s = inr (?a, ?s') =>
      let Hc := fresh "Hc" in
      assert (Hc : stays R c) by stays_auto; specialize (Hc _ _ _ H)
  end.

Lemma addContentPage_fixed_then {A} (config : PdfConfig) (role : PageRole) (t : option string)
    (k : nat -> M A) (s : St) (a : A) (s' : St) :
  (forall p, stays fixed (k p)) ->
  mbind k (addContentPage config role t) s = inr (a, s') ->
  st_meta s' = (st_meta s ++ [mkMeta (st_pages s) role t])%list /\
  st_pages s' = S (st_pages s) /\ st_toc s' = st_toc s.
Proof.
  intros Hk H. apply bind_inv in H as (p & s1 & H1 & H2).
  rewrite addContentPage_run in H1. injection H1 as <- <-.
  destruct (Hk _ _ _ _ H2) as (Hm & Hp & Ht). simpl in *.
  repeat split; assumption.
Qed.

Section Counting.

Variable widthOfTextAtSize : PDFFont -> string -> Q -> Q.
Variable atob : string -> option string.
Variable embed : Embedder -> string -> option EmbeddedImage.
Variable config : PdfConfig.
Variable book : GeneratedBook.

Lemma createTocPage_adds (s : St) (a : nat * Q) (s' : St) :
  createTocPage config s = inr (a, s') ->
  st_meta s' = (st_meta s ++ [mkMeta (st_pages s) RoleToc None])%list /\
  st_pages s' = S (st_pages s) /\ st_toc s' = st_toc s.
Proof.
  unfold createTocPage. apply addContentPage_fixed_then. stays_auto.
Qed.

Lemma toc_loop_adds :
  forall (l : list nat) (acc : list (nat * Q)) (s : St) (a : list (nat * Q)) (s' : St),
  foldM (fun tocPages _ => p ← createTocPage config; mret (tocPages ++ [p])%list) acc l s
    = inr (a, s') ->
  frame_rel s s' /\ List.length (st_meta s') = List.length (st_meta s) + List.length l.
Proof.
  intros l. induction l as [|x l IH]; intros acc s a s' H; simpl in H.
  - cbv [mret M_ret] in H. injection H as _ <-. split; [reflexivity | simpl; lia].
  - apply bind_inv in H as (acc' & s1 & H1 & H2).
    apply bind_inv in H1 as (p & s0 & H0 & H1). cbv [mret M_ret] in H1. injection H1 as _ <-.
    pose proof (stays_createTocPage config _ _ _ H0) as F0.
    destruct (createTocPage_adds _ _ _ H0) as (Hm & _ & _).
    destruct (IH _ _ _ _ H2) as [F1 L1]. split; [etransitivity; eassumption|].
    rewrite L1, Hm, length_app. simpl. lia.
Qed.

Lemma toc_phase_adds (s : St) (a : list (nat * Q)) (s' : St) :
  toc_phase config book s = inr (a, s') ->
  frame_rel s s' /\
  List.length (st_meta s') = List.length (st_meta s) + Z.to_nat (tocPageCount config book).
Proof.
  unfold toc_phase. intros H. apply toc_loop_adds in H.
  rewrite length_seq in H. exact H.
Qed.

Lemma chapterPageFactory_adds (i : Z) (t : string) (first : bool) (s : St) (a : nat * Q) (s' : St) :
  chapterPageFactory widthOfTextAtSize config i t first s = inr (a, s') ->
  List.length (st_meta s') = S (List.length (st_meta s)) /\ frame_rel s s'.
Proof.
  intros H. pose proof (stays_chapterPageFactory widthOfTextAtSize config i t first _ _ _ H) as F.
  unfold chapterPageFactory in H. apply addContentPage_fixed_then in H as (Hm & _ & _).
  - rewrite Hm, length_app. simpl. split; [lia | exact F].
  - stays_auto.
Qed.

Lemma cover_phase_run (coverImages : list UserImageAsset) (s : St) (a : unit) (s' : St) :
  cover_phase widthOfTextAtSize atob embed config book coverImages s = inr (a, s') ->
  exists s1,
    st_meta s1 = (st_meta s ++ [mkMeta (st_pages s) RoleCover None])%list /\
    st_pages s1 = S (st_pages s) /\ st_toc s1 = st_toc s /\ fixed s1 s'.
Proof.
  unfold cover_phase. intros H.
  apply bind_inv in H as (p & s0 & H0 & H). injection H0 as <- <-.
  apply bind_inv in H as (u & s1 & H1 & H). injection H1 as _ <-.
  apply bind_inv in H as (p' & s2 & H2 & H).
  apply bind_inv in H2 as (u' & s3 & H3 & H2). injection H3 as _ <-. injection H2 as _ <-.
  stays_in fixed H. match type of Hc with fixed ?x _ => exists x end.
  split; [|split; [|split]]; [reflexivity | reflexivity | reflexivity | exact Hc].
Qed.

End Counting.

Lemma stays_push_toc_grows (e : TocEntry) : stays grows (push_toc e).
Proof.
  apply stays_modify. intros s. exists []. rewrite app_nil_r. simpl.
  split; [reflexivity|]. split; [lia|constructor].
Qed.

Global Hint Resolve stays_push_toc_grows : stays_db.
Global Hint Extern 2 (stays grows _) =>
  eapply stays_mono; [exact frame_rel_grows | solve [eauto with stays_db]] : stays_db.

Lemma stays_renderChapter widthOfTextAtSize atob embed config
    (assigned : option (list UserImageAsset)) (chapter : ChapterContent) :
  stays grows (renderChapter widthOfTextAtSize atob embed config assigned chapter).
Proof. unfold renderChapter. stays_auto. Qed.

Global Hint Resolve stays_renderChapter : stays_db.

Lemma stays_chapters_phase widthOfTextAtSize atob embed config
    (imageMap : gmap Z (list UserImageAsset)) (chapters : list ChapterContent) :
  stays grows (chapters_phase widthOfTextAtSize atob embed config imageMap chapters).
Proof. unfold chapters_phase. stays_auto. Qed.

Global Hint Resolve stays_chapters_phase : stays_db.

Lemma role_eqb_cover (r : PageRole) : r <> RoleCover -> role_eqb r RoleCover = false.
Proof. destruct r; [contradiction|reflexivity..]. Qed.

Lemma footer_step_run widthOfTextAtSize config book (n : nat) (m : PageMeta) (s : St) :
  meta_role m <> RoleCover ->
  footer_step widthOfTextAtSize config book n m s =
  inr (S n, mkSt (st_pages s)
              ((st_ops s ++ [(meta_page m, footer_label_op widthOfTextAtSize config book m)])
               ++ [(meta_page m, footer_number_op widthOfTextAtSize config (S n))])%list
              (st_meta s) (st_toc s) (st_cache s) (st_page s) (st_y s)).
Proof.
  intros Hr. unfold footer_step. rewrite (role_eqb_cover _ Hr). reflexivity.
Qed.

Lemma footer_fold widthOfTextAtSize config book :
  forall (rest : list PageMeta) (n : nat) (s : St),
  Forall (fun m => meta_role m <> RoleCover) rest ->
  foldM (footer_step widthOfTextAtSize config book) n rest s =
  inr (n + List.length rest,
       mkSt (st_pages s)
         (st_ops s ++ flat_map (fun '(i, m) =>
            [(meta_page m, footer_label_op widthOfTextAtSize config book m);
             (meta_page m, footer_number_op widthOfTextAtSize config i)])
            (combine (seq (S n) (List.length rest)) rest))%list
         (st_meta s) (st_toc s) (st_cache s) (st_page s) (st_y s)).
Proof.
  induction rest as [|m rest IH]; intros n s Hf.
  - simpl. rewrite app_nil_r, Nat.add_0_r. destruct s; reflexivity.
  - inversion Hf as [|? ? Hm Hrest]; subst. simpl foldM. unfold mbind at 1, M_bind at 1.
    rewrite (footer_step_run _ _ _ _ _ _ Hm). rewrite (IH _ _ Hrest). simpl.
    rewrite Nat.add_succ_r, <- !app_assoc. reflexivity.
Qed.

Lemma before_chapters_run widthOfTextAtSize atob embed config book
    (galleryImages coverImages : list UserImageAsset) (a : list (nat * Q)) (s : St) :
  before_chapters widthOfTextAtSize atob embed config book galleryImages coverImages initSt
    = inr (a, s) ->
  exists ext,
    st_meta s = mkMeta 0 RoleCover None :: ext /\ st_pages s = S (List.length ext) /\
    Forall (fun m => meta_role m <> RoleCover /\ 1 <= meta_page m) ext /\
    st_toc s = [] /\
    (galleryImages = [] -> List.length ext = Z.to_nat (tocPageCount config book)).
Proof.
  unfold before_chapters. intros H.
  apply bind_inv in H as (u & s1 & H1 & H).
  destruct (cover_phase_run _ _ _ _ _ _ _ _ _ H1) as (s0 & M0 & P0 & T0 & F0).
  apply bind_inv in H as (tp & s2 & H2 & H).
  destruct (toc_phase_adds _ _ _ _ _ H2) as [F2 L2].
  apply bind_inv in H as (u' & s3 & H3 & H). cbv [mret M_ret] in H. injection H as _ <-.
  pose proof (stays_gallery_phase _ _ _ _ _ _ _ H3) as F3.
  assert (F : frame_rel s0 s3)
    by (etransitivity; [apply fixed_frame_rel; exact F0|]; etransitivity; eassumption).
  destruct F as [(ext & Hm & Hp & Hf) Ht].
  simpl in M0, P0, T0. rewrite P0 in Hf. exists ext. rewrite Hm, M0, Hp, P0.
  split; [reflexivity|]. split; [reflexivity|]. split; [exact Hf|]. split; [congruence|].
  intros ->. cbv [gallery_phase mret M_ret] in H3. injection H3 as _ <-.
  destruct F0 as (Hm0 & _ & _).
  rewrite Hm, M0 in L2. rewrite Hm0, M0 in L2. rewrite length_app in L2. simpl in L2. lia.
Qed.

(** C7: in every successful build the page metadata starts with the one
    cover record (page 0) and every later record is a non-cover page other
    than page 0; the footer pass stamps nothing on the cover and, when page
    numbering is on, gives the other pages the labels and the numbers
    1, 2, ... in the order their records were created. *)
Theorem cover_record_first_footer_numbering :
  forall widthOfTextAtSize atob embed (config : PdfConfig) (book : GeneratedBook)
         (images : list UserImageAsset) (doc : Doc),
    buildBookPdf widthOfTextAtSize atob embed config book images = inr doc ->
    exists s rest,
      build_body widthOfTextAtSize atob embed config book
        (List.filter isGallery (List.filter img_include images))
        (List.filter isCover (List.filter img_include images))
        (chapterImageMap (List.filter img_include images)) initSt = inr (tt, s) /\
      st_meta s = mkMeta 0 RoleCover None :: rest /\
      Forall (fun m => meta_role m <> RoleCover /\ meta_page m <> 0) rest /\
      doc_pages doc = st_pages s /\
      doc_ops doc =
        (st_ops s ++
         if pageNumbering config then
           flat_map (fun '(i, m) =>
             [(meta_page m, footer_label_op widthOfTextAtSize config book m);
              (meta_page m, footer_number_op widthOfTextAtSize config i)])
             (combine (seq 1 (List.length rest)) rest)
         else [])%list.
Proof.
  intros widthOfTextAtSize atob embed config book images doc H.
  unfold buildBookPdf in H.
  match type of H with
  | match ?run with _ => _ end = _ => destruct run as [e|[u sf]] eqn:E; [discriminate|]
  end.
  injection H as <-. apply bind_inv in E as (u' & s & E1 & E2). destruct u'.
  exists s.
  pose proof E1 as B. unfold build_body in B.
  apply bind_inv in B as (tp & s0 & B0 & B1).
  destruct (before_chapters_run _ _ _ _ _ _ _ _ _ B0) as (ext & M0 & P0 & F0 & _ & _).
  stays_in grows B1. destruct Hc as (ext2 & M1 & P1 & F1).
  exists (ext ++ ext2)%list.
  assert (Hrest : Forall (fun m => meta_role m <> RoleCover /\ meta_page m <> 0) (ext ++ ext2)%list).
  { apply Forall_app. split.
    - eapply Forall_impl; [exact F0|]. intros m [Hr Hp]. split; [exact Hr|lia].
    - eapply Forall_impl; [exact F1|]. intros m [Hr Hp]. split; [exact Hr|lia]. }
  assert (Hnc : Forall (fun m => meta_role m <> RoleCover) (ext ++ ext2)%list).
  { eapply Forall_impl; [exact Hrest|]. intros m [Hr _]. exact Hr. }
  assert (Hms : st_meta s = mkMeta 0 RoleCover None :: (ext ++ ext2)%list).
  { rewrite M1, M0. reflexivity. }
  split; [exact E1|]. split; [exact Hms|]. split; [exact Hrest|].
  unfold footer_phase in E2. destruct (pageNumbering config).
  - apply bind_inv in E2 as (pm & s1 & G1 & G2). cbv [gets] in G1. injection G1 as <- <-.
    apply bind_inv in G2 as (n & s2 & G2 & G3). cbv [mret M_ret] in G3. injection G3 as _ <-.
    rewrite Hms in G2. simpl foldM in G2. apply bind_inv in G2 as (n0 & s3 & G4 & G5).
    cbv [footer_step role_eqb mret M_ret meta_role] in G4. injection G4 as <- <-.
    rewrite (footer_fold _ _ _ _ _ _ Hnc) in G5. injection G5 as _ <-. simpl.
    split; reflexivity.
  - cbv [mret M_ret] in E2. injection E2 as _ <-. simpl. rewrite app_nil_r.
    split; reflexivity.
Qed.

Lemma forM_chain {A} (f : A -> M unit) :
  forall (l : list A) (s s' : St), forM_ l f s = inr (tt, s') ->
  exists st : nat -> St,
    st 0 = s /\ st (List.length l) = s' /\
    forall k x, nth_error l k = Some x -> f x (st k) = inr (tt, st (S k)).
Proof.
  induction l as [|x l IH]; intros s s' H.
  - cbv [forM_ mret M_ret] in H. injection H as <-.
    exists (fun _ => s). split; [reflexivity|]. split; [reflexivity|].
    intros [|k] y Hk; discriminate.
  - simpl forM_ in H. apply bind_inv in H as ([] & s1 & H1 & H2).
    destruct (IH _ _ H2) as (st & S0 & Sn & Sk).
    exists (fun k => match k with 0 => s | S k' => st k' end).
    split; [reflexivity|]. split; [exact Sn|].
    intros [|k] y Hk; simpl in Hk.
    + injection Hk as <-. rewrite <- S0 in H1. exact H1.
    + exact (Sk k y Hk).
Qed.

Lemma renderChapter_toc widthOfTextAtSize atob embed config
    (assigned : option (list UserImageAsset)) (chapter : ChapterContent) (s s' : St) :
  renderChapter widthOfTextAtSize atob embed config assigned chapter s = inr (tt, s') ->
  st_toc s' = st_toc s \/
  exists title, st_toc s' =
    (st_toc s ++ [mkToc title (Nat.max 1 (S (List.length (st_meta s)) - coverPageCount))])%list.
Proof.
  intros H. unfold renderChapter in H. cbv zeta in H.
  match type of H with (if ?b then _ else _) _ = _ => destruct b end.
  { cbv [mret M_ret] in H. injection H as <-. left. reflexivity. }
  match type of H with (if ?b then _ else _) _ = _ => destruct b end.
  { cbv [mret M_ret] in H. injection H as <-. left. reflexivity. }
  right.
  apply bind_inv in H as (fp & s1 & H1 & H).
  destruct (chapterPageFactory_adds _ _ _ _ _ _ _ _ H1) as [L1 [_ T1]].
  apply bind_inv in H as (u1 & s2 & H2 & H). cbv [set_page modify] in H2. injection H2 as _ <-.
  apply bind_inv in H as (u2 & s3 & H3 & H). cbv [set_y modify] in H3. injection H3 as _ <-.
  apply bind_inv in H as (mc & s4 & H4 & H). cbv [gets] in H4. injection H4 as <- <-.
  apply bind_inv in H as (u3 & s5 & H5 & H). cbv [push_toc modify] in H5. injection H5 as _ <-.
  stays_in frame_rel H. destruct Hc as [_ T6]. simpl in T6.
  eexists. rewrite T6, T1. simpl. rewrite L1. reflexivity.
Qed.

Lemma telescope (f : nat -> nat) :
  forall k, (forall j, j < k -> f j <= f (S j)) ->
  list_sum (map (fun j => f (S j) - f j) (seq 0 k)) = f k - f 0 /\ f 0 <= f k.
Proof.
  induction k as [|k IH]; intros Hmono; [simpl; lia|].
  rewrite seq_S, map_app, list_sum_app. simpl.
  destruct IH as [IH1 IH2]; [intros j Hj; apply Hmono; lia|].
  specialize (Hmono k ltac:(lia)). rewrite IH1. lia.
Qed.

(** C1: with no included images, the build runs the chapters one after the
    other from the state [st 0] left by the cover and the [T] TOC
    placeholder pages, which holds [1 + T] page records; every page has its
    record; and chapter [k], when it records a TOC entry, records the page
    number [1 + T + (pages of chapters 0 .. k-1)], which is the count of
    page records once its first page exists minus [coverPageCount]. *)
Theorem toc_page_numbers :
  forall widthOfTextAtSize atob embed (config : PdfConfig) (book : GeneratedBook)
         (images : list UserImageAsset) (s_end : St),
    List.filter img_include images = [] ->
    build_body widthOfTextAtSize atob embed config book
      (List.filter isGallery (List.filter img_include images))
      (List.filter isCover (List.filter img_include images))
      (chapterImageMap (List.filter img_include images)) initSt = inr (tt, s_end) ->
    let T := Z.to_nat (tocPageCount config book) in
    let n := List.length (book_chapters book) in
    exists (st : nat -> St) (tocPages : list (nat * Q)),
      before_chapters widthOfTextAtSize atob embed config book [] [] initSt = inr (tocPages, st 0) /\
      List.length (st_meta (st 0)) = 1 + T /\
      (forall k, k <= n -> st_pages (st k) = List.length (st_meta (st k))) /\
      (forall k ch, nth_error (book_chapters book) k = Some ch ->
         renderChapter widthOfTextAtSize atob embed config None ch (st k) = inr (tt, st (S k)) /\
         (st_toc (st (S k)) = st_toc (st k) \/
          exists title,
            st_toc (st (S k)) =
              (st_toc (st k) ++
               [mkToc title (1 + T + list_sum (map (fun j =>
                  List.length (st_meta (st (S j))) - List.length (st_meta (st j))) (seq 0 k)))])%list /\
            1 + T + list_sum (map (fun j =>
                  List.length (st_meta (st (S j))) - List.length (st_meta (st j))) (seq 0 k))
            = S (List.length (st_meta (st k))) - coverPageCount)) /\
      renderTableOfContents widthOfTextAtSize config tocPages (st n) = inr (tt, s_end).
Proof.
  intros widthOfTextAtSize atob embed config book images s_end Hinc H T n.
  rewrite Hinc in H. simpl in H. unfold build_body in H.
  apply bind_inv in H as (tp & s0 & H0 & H).
  apply bind_inv in H as ([] & s1 & H1 & H2).
  unfold chapters_phase in H1. apply forM_chain in H1 as (st & S0 & Sn & Sk).
  destruct (before_chapters_run _ _ _ _ _ _ _ _ _ H0) as (ext & M0 & P0 & _ & _ & Lx).
  specialize (Lx eq_refl).
  assert (Hrun : forall k ch, nth_error (book_chapters book) k = Some ch ->
            renderChapter widthOfTextAtSize atob embed config None ch (st k) = inr (tt, st (S k))).
  { intros k ch Hk. pose proof (Sk k ch Hk) as R.
    assert (Hmap : chapterImageMap [] = ∅) by reflexivity.
    rewrite Hmap, lookup_empty in R. exact R. }
  assert (Hgrow : forall k, k < n -> grows (st k) (st (S k))).
  { intros k Hk. destruct (nth_error (book_chapters book) k) as [ch|] eqn:Hch.
    - exact (stays_renderChapter _ _ _ _ _ _ _ _ _ (Hrun k ch Hch)).
    - apply nth_error_None in Hch. unfold n in Hk. lia. }
  assert (HL0 : List.length (st_meta (st 0)) = 1 + T).
  { rewrite S0, M0. simpl. rewrite Lx. reflexivity. }
  assert (Hmono : forall j, j < n ->
            List.length (st_meta (st j)) <= List.length (st_meta (st (S j)))).
  { intros j Hj. destruct (Hgrow j Hj) as (e & Hm & _ & _). rewrite Hm, length_app. lia. }
  exists st, tp. split; [rewrite S0; exact H0|]. split; [exact HL0|]. split.
  { induction k as [|k IH]; intros Hk.
    - rewrite S0, P0, M0. reflexivity.
    - destruct (Hgrow k ltac:(lia)) as (e & Hm & Hp & _).
      rewrite Hp, Hm, length_app, IH by lia. reflexivity. }
  split.
  - intros k ch Hk. split; [exact (Hrun k ch Hk)|].
    assert (Hkn : k < n) by (apply nth_error_Some; rewrite Hk; discriminate).
    destruct (telescope (fun j => List.length (st_meta (st j))) k
                (fun j Hj => Hmono j ltac:(lia))) as [Tel Mon].
    simpl in Tel. rewrite Tel, HL0.
    destruct (renderChapter_toc _ _ _ _ _ _ _ _ (Hrun k ch Hk)) as [Hs|[title Ht]];
      [left; exact Hs|right].
    exists title. rewrite Ht. unfold coverPageCount in *.
    rewrite HL0 in Mon. split; [do 3 f_equal; lia | lia].
  - rewrite <- Sn in H2. exact H2.
Qed.

(* ------------------------------------------------------------------ *)
(** ** Images assigned to a missing chapter *)


Lemma chapterImageMap_fold_agree (k : Z) :
  forall (l : list UserImageAsset) (m m' : gmap Z (list UserImageAsset)),
  agree_off k m m' ->
  agree_off k
    (fold_left (fun m image =>
       match img_placement image with
       | Some (PChapter k _) => <[k := (default [] (m !! k) ++ [image])%list]> m
       | _ => m
       end) l m)
    (fold_left (fun m image =>
       match img_placement image with
       | Some (PChapter k _) => <[k := (default [] (m !! k) ++ [image])%list]> m
       | _ => m
       end) l m').
Proof.
  induction l as [|x l IH]; intros m m' Hag; simpl; [exact Hag|].
  apply IH. destruct (img_placement x) as [[| |j a]|]; try exact Hag.
  intros i Hi. destruct (decide (i = j)) as [->|Hne].
  - rewrite !lookup_insert_eq. destruct (decide (j = k)) as [->|Hjk]; [contradiction|].
    rewrite (Hag j Hjk). reflexivity.
  - rewrite !lookup_insert_ne by congruence. exact (Hag i Hi).
Qed.

Lemma chapters_phase_agree widthOfTextAtSize atob embed config
    (m m' : gmap Z (list UserImageAsset)) :
  forall chapters : list ChapterContent,
  (forall ch, In ch chapters -> m !! ch_index ch = m' !! ch_index ch) ->
  chapters_phase widthOfTextAtSize atob embed config m chapters =
  chapters_phase widthOfTextAtSize atob embed config m' chapters.
Proof.
  unfold chapters_phase. induction chapters as [|ch chs IH]; intros Hag; simpl; [reflexivity|].
  rewrite (Hag ch (or_introl eq_refl)). rewrite IH; [reflexivity|].
  intros c Hc. apply Hag. right. exact Hc.
Qed.

(** C8: adding an image placed in a chapter index that no chapter of the
    book has changes nothing in the result of the build: the document is the
    one built without that image, and the build fails only if it fails
    without it. *)
Theorem dangling_chapter_image_ignored :
  forall widthOfTextAtSize atob embed (config : PdfConfig) (book : GeneratedBook)
         (l1 l2 : list UserImageAsset) (d : UserImageAsset) (k : Z) anchor,
    img_placement d = Some (PChapter k anchor) ->
    (forall ch, In ch (book_chapters book) -> ch_index ch <> k) ->
    buildBookPdf widthOfTextAtSize atob embed config book (l1 ++ d :: l2) =
    buildBookPdf widthOfTextAtSize atob embed config book (l1 ++ l2).
Proof.
  intros widthOfTextAtSize atob embed config book l1 l2 d k anchor Hd Hch.
  unfold buildBookPdf. rewrite !List.filter_app. simpl.
  destruct (img_include d) eqn:Hi; [|reflexivity].
  set (f1 := List.filter img_include l1). set (f2 := List.filter img_include l2).
  assert (Hg : isGallery d = false) by (unfold isGallery; rewrite Hd; reflexivity).
  assert (Hc : isCover d = false) by (unfold isCover; rewrite Hd; reflexivity).
  simpl List.filter at 2 4 6 8. rewrite Hg, Hc.
  assert (Hmap : agree_off k (chapterImageMap (f1 ++ d :: f2)) (chapterImageMap (f1 ++ f2))).
  { unfold chapterImageMap. rewrite !fold_left_app. simpl. rewrite Hd.
    apply chapterImageMap_fold_agree. intros j Hj.
    rewrite lookup_insert_ne by congruence. reflexivity. }
  unfold build_body.
  rewrite (chapters_phase_agree _ _ _ _ _ _ _
             (fun ch Hin => Hmap (ch_index ch) (Hch ch Hin))).
  reflexivity.
Qed.

(* ------------------------------------------------------------------ *)
(** ** The theorems at the sample inputs *)

Lemma cover_record_first_footer_numbering_witness :
  exists doc,
    buildBookPdf sample_width sample_atob sample_embed sample_config sample_book [] = inr doc /\
    exists s rest,
      build_body sample_width sample_atob sample_embed sample_config sample_book
        (List.filter isGallery (List.filter img_include []))
        (List.filter isCover (List.filter img_include []))
        (chapterImageMap (List.filter img_include [])) initSt = inr (tt, s) /\
      st_meta s = mkMeta 0 RoleCover None :: rest /\
      Forall (fun m => meta_role m <> RoleCover /\ meta_page m <> 0) rest /\
      doc_pages doc = st_pages s /\
      doc_ops doc =
        (st_ops s ++
         if pageNumbering sample_config then
           flat_map (fun '(i, m) =>
             [(meta_page m, footer_label_op sample_width sample_config sample_book m);
              (meta_page m, footer_number_op sample_width sample_config i)])
             (combine (seq 1 (List.length rest)) rest)
         else [])%list.
Proof.
  destruct (buildBookPdf sample_width sample_atob sample_embed sample_config sample_book [])
    as [e|doc] eqn:E.
  - exfalso. vm_compute in E. discriminate.
  - exists doc. split; [reflexivity|].
    exact (cover_record_first_footer_numbering _ _ _ _ _ [] doc E).
Defined.

Lemma toc_page_numbers_witness :
  exists s_end,
    build_body sample_width sample_atob sample_embed sample_config sample_book
      (List.filter isGallery (List.filter img_include []))
      (List.filter isCover (List.filter img_include []))
      (chapterImageMap (List.filter img_include [])) initSt = inr (tt, s_end) /\
    exists (st : nat -> St) (tocPages : list (nat * Q)),
      before_chapters sample_width sample_atob sample_embed sample_config sample_book [] [] initSt
        = inr (tocPages, st 0) /\
      List.length (st_meta (st 0)) = 1 + Z.to_nat (tocPageCount sample_config sample_book).
Proof.
  destruct (build_body sample_width sample_atob sample_embed sample_config sample_book
      (List.filter isGallery (List.filter img_include []))
      (List.filter isCover (List.filter img_include []))
      (chapterImageMap (List.filter img_include [])) initSt) as [e|[[] s_end]] eqn:E.
  - exfalso. vm_compute in E. discriminate.
  - exists s_end. split; [reflexivity|].
    destruct (toc_page_numbers _ _ _ _ _ [] s_end eq_refl E) as (st & tp & H0 & H1 & _).
    exists st, tp. split; [exact H0 | exact H1].
Defined.

Lemma dangling_chapter_image_ignored_witness :
  buildBookPdf sample_width sample_atob sample_embed sample_config sample_book
    ([] ++ dangling_image :: []) =
  buildBookPdf sample_width sample_atob sample_embed sample_config sample_book ([] ++ []) /\
  exists doc,
    buildBookPdf sample_width sample_atob sample_embed sample_config sample_book
      ([] ++ dangling_image :: []) = inr doc.
Proof.
  split.
  - apply (dangling_chapter_image_ignored _ _ _ _ _ [] [] dangling_image 5 None);
      [reflexivity|].
    intros ch Hin. simpl in Hin. destruct Hin as [<-|[<-|[]]]; discriminate.
  - destruct (buildBookPdf sample_width sample_atob sample_embed sample_config sample_book
                ([] ++ dangling_image :: [])) as [e|doc] eqn:E.
    + exfalso. vm_compute in E. discriminate.
    + exists doc. reflexivity.
Defined.

(* ------------------------------------------------------------------ *)
(** ** Sample runs of the parser and of the title check *)

Example parse_scenario :
  parseMarkdownToBlocks ("Hello **world**." ++ String (ascii_of_nat 10)
    (String (ascii_of_nat 10) "Second *paragraph*."))
  = [Paragraph [plain "Hello "; mkSpan "world" true false; plain "."];
     Paragraph [plain "Second "; mkSpan "paragraph" false true; plain "."]].
Proof. reflexivity. Qed.

Example normalize_example :
  normalizeForComparison "Chapter 3: The Long Road!" = "the long road".
Proof. reflexivity. Qed.

Example strip_example :
  stripLeadingChapterHeading
    [Heading 1 "The Long Road"; Paragraph [plain "the long  road"];
     Paragraph [plain "Body"]] "Chapter 3 - The Long Road"
  = [Paragraph [plain "Body"]].
Proof. reflexivity. Qed.

(* ================================================================== *)
(** * Further properties of the code *)

(* ------------------------------------------------------------------ *)
(** ** Whitespace normalisation *)

Lemma collapse_single (b : bool) (s : string) :
  single_spaced (collapse_runs_aux is_space b s) = true /\
  (b = true -> forall d r, collapse_runs_aux is_space b s = String d r -> is_space d = false).
Proof.
  revert b; induction s as [|c s IH]; intros b; simpl.
  - split; [reflexivity|discriminate].
  - destruct (is_space c) eqn:Hc.
    + destruct b; [apply IH|]. split; [|discriminate].
      simpl. destruct (IH true) as [H1 H2].
      destruct (collapse_runs_aux is_space true s) as [|d r] eqn:E; [reflexivity|].
      rewrite (H2 eq_refl d r eq_refl). exact H1.
    + split.
      * simpl. rewrite Hc. apply IH.
      * intros _ d r [= <- _]. exact Hc.
Qed.

Lemma ltrim_head (s : string) :
  forall d r, ltrim s = String d r -> is_space d = false.
Proof.
  induction s as [|c s IH]; simpl; [discriminate|].
  destruct (is_space c) eqn:Hc; [exact IH|]. intros d r [= <- _]. exact Hc.
Qed.

Lemma rtrim_head (s : string) :
  rtrim s = EmptyString \/ exists c t u, s = String c t /\ rtrim s = String c u.
Proof.
  destruct s as [|c t]; simpl; [left; reflexivity|].
  destruct (is_space c && (rtrim t =? "")%string); [left; reflexivity|right; eauto].
Qed.

Lemma rtrim_idem (s : string) : rtrim (rtrim s) = rtrim s.
Proof.
  induction s as [|c s IH]; simpl; [reflexivity|].
  destruct (is_space c && (rtrim s =? "")%string) eqn:E; [reflexivity|].
  simpl. rewrite IH, E. reflexivity.
Qed.

Lemma single_ltrim (s : string) : single_spaced s = true -> single_spaced (ltrim s) = true.
Proof.
  induction s as [|c s IH]; simpl; [auto|]. intros H.
  destruct (is_space c) eqn:Hc.
  - apply IH. apply andb_prop in H. apply H.
  - simpl. rewrite Hc. exact H.
Qed.

Lemma single_rtrim (s : string) : single_spaced s = true -> single_spaced (rtrim s) = true.
Proof.
  induction s as [|c s IH]; simpl; [auto|]. intros H.
  apply andb_prop in H as [H1 H2].
  destruct (is_space c && (rtrim s =? "")%string) eqn:E; [reflexivity|].
  simpl. rewrite (IH H2), andb_true_r.
  destruct (is_space c) eqn:Hc; simpl in *; [|reflexivity].
  destruct (rtrim_head s) as [Hr|(d & t & u & -> & Hr)].
  - rewrite Hr in E. discriminate.
  - rewrite Hr. exact H1.
Qed.

Lemma collapse_fix (r : string) :
  single_spaced r = true -> collapse_runs_aux is_space false r = r.
Proof.
  induction r as [|c r IH]; simpl; [reflexivity|]. intros H.
  apply andb_prop in H as [H1 H2].
  destruct (is_space c) eqn:Hc; simpl in H1.
  - apply andb_prop in H1 as [Hc' Hn]. apply Ascii.eqb_eq in Hc'. subst c.
    f_equal. destruct r as [|d r]; [reflexivity|].
    apply negb_true_iff in Hn.
    transitivity (collapse_runs_aux is_space false (String d r));
      [simpl; rewrite Hn; reflexivity | apply IH, H2].
  - f_equal. apply IH. exact H2.
Qed.

Lemma ltrim_rtrim_clean (y : string) :
  (forall d r, y = String d r -> is_space d = false) -> ltrim (rtrim y) = rtrim y.
Proof.
  intros Hy. destruct (rtrim_head y) as [Hr|(c & t & u & Hyc & Hr)]; rewrite Hr; [reflexivity|].
  simpl. rewrite (Hy c t Hyc). reflexivity.
Qed.

(** X1: [normalizeWhitespace] gives a string without leading or trailing
    whitespace, whose only whitespace characters are single spaces; applied
    again it changes nothing. *)
Theorem normalizeWhitespace_normal_form (s : string) :
  normalizeWhitespace (normalizeWhitespace s) = normalizeWhitespace s /\
  single_spaced (normalizeWhitespace s) = true /\
  ltrim (normalizeWhitespace s) = normalizeWhitespace s /\
  rtrim (normalizeWhitespace s) = normalizeWhitespace s.
Proof.
  unfold normalizeWhitespace, trim, collapse_ws.
  set (y := ltrim (collapse_runs_aux is_space false s)).
  assert (Hs : single_spaced (rtrim y) = true).
  { apply single_rtrim, single_ltrim, (collapse_single false s). }
  assert (Hl : ltrim (rtrim y) = rtrim y) by (apply ltrim_rtrim_clean; intros d r E; apply (ltrim_head _ d r E)).
  rewrite (collapse_fix _ Hs), Hl, rtrim_idem. auto.
Qed.

(* ------------------------------------------------------------------ *)
(** ** Inline markup *)

Lemma sapp_cons (x : ascii) (a b : string) : (String x a ++ b)%string = String x (a ++ b).
Proof. reflexivity. Qed.

Lemma sapp_nil_l (b : string) : ("" ++ b)%string = b.
Proof. reflexivity. Qed.

Lemma sapp_assoc (a b c : string) : ((a ++ b) ++ c)%string = (a ++ b ++ c)%string.
Proof. induction a as [|x a IH]; [reflexivity|]. exact (f_equal (String x) IH). Qed.

Lemma sapp_nil (a : string) : (a ++ "")%string = a.
Proof. induction a as [|x a IH]; [reflexivity|]. exact (f_equal (String x) IH). Qed.

Lemma slen_app (a b : string) : String.length (a ++ b) = String.length a + String.length b.
Proof. induction a as [|x a IH]; [reflexivity|]. exact (f_equal S IH). Qed.

Lemma substring_app0 (a b : string) : substring 0 (String.length a) (a ++ b) = a.
Proof.
  induction a as [|x a IH]; [destruct b; reflexivity|]. exact (f_equal (String x) IH).
Qed.

Lemma prefix_head_ne (a c : ascii) (p s : string) :
  a <> c -> String.prefix (String a p) (String c s) = false.
Proof. intros H. simpl. destruct (ascii_dec a c); congruence. Qed.

Lemma prefix_head_eq (a : ascii) (p s : string) :
  String.prefix (String a p) (String a s) = String.prefix p s.
Proof. simpl. destruct (ascii_dec a a); congruence. Qed.

Lemma prefix_nil (s : string) : String.prefix "" s = true.
Proof. destruct s; reflexivity. Qed.

Lemma no_delim_char_ne (c : ascii) :
  no_delim_char c = true -> c <> "*"%char /\ c <> "_"%char /\ c <> "`"%char.
Proof.
  unfold no_delim_char. intros H.
  destruct (Ascii.eqb c "*") eqn:E1; [discriminate|].
  destruct (Ascii.eqb c "_") eqn:E2; [discriminate|].
  destruct (Ascii.eqb c "`") eqn:E3; [discriminate|].
  apply Ascii.eqb_neq in E1, E2, E3. auto.
Qed.

Lemma inline_none (c : ascii) (s : string) :
  no_delim_char c = true -> inline_match_at (String c s) = None.
Proof.
  intros H. apply no_delim_char_ne in H as (E1 & E2 & E3).
  unfold inline_match_at, delim_match. cbv beta iota zeta.
  rewrite !prefix_head_ne by congruence. reflexivity.
Qed.

Lemma run_not_app (d : ascii) (t r : string) :
  no_delims t = true -> (d = "*" \/ d = "_" \/ d = "`")%char ->
  run_not d (t ++ String d r) = (t, String d r).
Proof.
  intros Ht Hd. induction t as [|c t IH].
  - rewrite sapp_nil_l. simpl. rewrite Ascii.eqb_refl. reflexivity.
  - rewrite sapp_cons. simpl. simpl in Ht. apply andb_prop in Ht as [Hc Ht].
    apply no_delim_char_ne in Hc.
    assert (E : Ascii.eqb c d = false)
      by (apply Ascii.eqb_neq; destruct Hd as [-> | [-> | ->]]; tauto).
    rewrite E, (IH Ht). reflexivity.
Qed.

Lemma scan_S (f : nat) (gap : string) (c : ascii) (s : string) :
  scan (S f) gap (String c s) =
  match inline_match_at (String c s) with
  | Some (m, rest) =>
      ((if (gap =? "")%string then [] else [plain gap]) ++ span_of_match m ++ scan f "" rest)%list
  | None => scan f (gap ++ String c EmptyString) s
  end.
Proof. reflexivity. Qed.

Lemma scan_end (f : nat) (gap : string) :
  scan f gap "" = if (gap =? "")%string then [] else [plain gap].
Proof. destruct f; simpl; [rewrite sapp_nil|]; reflexivity. Qed.

Lemma scan_plain (t : string) :
  forall f gap rest, no_delims t = true -> String.length t <= f ->
  scan f gap (t ++ rest) = scan (f - String.length t) (gap ++ t) rest.
Proof.
  induction t as [|c t IH]; intros f gap rest Ht Hf.
  - rewrite sapp_nil_l, sapp_nil, Nat.sub_0_r. reflexivity.
  - rewrite sapp_cons. simpl in Ht, Hf. apply andb_prop in Ht as [Hc Ht].
    destruct f as [|f]; [lia|].
    rewrite scan_S, inline_none by exact Hc.
    rewrite (IH f _ rest Ht) by lia. rewrite sapp_assoc. reflexivity.
Qed.

Lemma inline_bold (t rest : string) :
  t <> "" -> no_delims t = true ->
  inline_match_at ("**" ++ t ++ "**" ++ rest) = Some ("**" ++ t ++ "**", rest)%string.
Proof.
  intros Hne Ht. unfold inline_match_at, delim_match. cbv beta iota zeta.
  change ("**" ++ t ++ "**" ++ rest)%string
    with (String "*" (String "*" (t ++ String "*" (String "*" rest)))).
  rewrite !prefix_head_eq. simpl String.length. simpl sdrop.
  rewrite run_not_app by tauto.
  apply String.eqb_neq in Hne. rewrite Hne. rewrite !prefix_head_eq, !prefix_nil. reflexivity.
Qed.

Lemma inline_italic (t rest : string) :
  t <> "" -> no_delims t = true ->
  inline_match_at ("*" ++ t ++ "*" ++ rest) = Some ("*" ++ t ++ "*", rest)%string.
Proof.
  intros Hne Ht. destruct t as [|c t']; [congruence|].
  pose proof Ht as Ht'. simpl in Ht'. apply andb_prop in Ht' as [Hc _].
  apply no_delim_char_ne in Hc as (E1 & E2 & E3).
  unfold inline_match_at, delim_match. cbv beta iota zeta.
  change ("*" ++ String c t' ++ "*" ++ rest)%string
    with (String "*" (String c t' ++ String "*" rest)).
  rewrite prefix_head_eq, sapp_cons, prefix_head_ne by congruence.
  rewrite prefix_head_ne by congruence.
  rewrite prefix_head_eq. simpl String.length. simpl sdrop.
  rewrite <- sapp_cons, run_not_app by tauto.
  simpl (String c t' =? "")%string. rewrite prefix_head_eq, !prefix_nil. reflexivity.
Qed.

Lemma span_of_match_bold (t : string) :
  span_of_match ("**" ++ t ++ "**")%string = [mkSpan t true false].
Proof.
  unfold span_of_match.
  change ("**" ++ t ++ "**")%string with (String "*" (String "*" (t ++ "**"))).
  rewrite !prefix_head_eq, prefix_nil.
  replace (String.length (String "*" (String "*" (t ++ "**"))) - 4) with (String.length t)
    by (cbn [String.length]; rewrite slen_app; simpl; lia).
  change (substring 2 (String.length t) (String "*" (String "*" (t ++ "**"))))
    with (substring 0 (String.length t) (t ++ "**")).
  rewrite substring_app0. reflexivity.
Qed.

Lemma span_of_match_italic (t : string) :
  t <> "" -> no_delims t = true ->
  span_of_match ("*" ++ t ++ "*")%string = [mkSpan t false true].
Proof.
  intros Hne Ht. destruct t as [|c t']; [congruence|].
  pose proof Ht as Ht'. simpl in Ht'. apply andb_prop in Ht' as [Hc _].
  apply no_delim_char_ne in Hc as (E1 & E2 & E3).
  unfold span_of_match.
  change ("*" ++ String c t' ++ "*")%string with (String "*" (String c t' ++ "*")).
  rewrite sapp_cons, prefix_head_eq, prefix_head_ne by congruence.
  rewrite prefix_head_ne by discriminate.
  rewrite prefix_head_eq, prefix_nil.
  rewrite <- sapp_cons.
  replace (String.length (String "*" (String c t' ++ "*")) - 2) with (String.length (String c t'))
    by (cbn [String.length]; rewrite slen_app; simpl; lia).
  change (substring 1 (String.length (String c t')) (String "*" (String c t' ++ "*")))
    with (substring 0 (String.length (String c t')) (String c t' ++ "*")).
  rewrite substring_app0. reflexivity.
Qed.

Lemma scan_match (f : nat) (gap s m rest : string) :
  s <> "" -> inline_match_at s = Some (m, rest) ->
  scan (S f) gap s =
  ((if (gap =? "")%string then [] else [plain gap]) ++ span_of_match m ++ scan f "" rest)%list.
Proof. intros Hs H. destruct s as [|c s]; [congruence|]. rewrite scan_S, H. reflexivity. Qed.

Lemma scan_render (l : list RichTextSpan) :
  forall f gap, forallb span_ok l = true -> no_adjacent_plain l = true ->
  (gap <> "" -> match l with sp :: _ => is_plain sp = false | [] => True end) ->
  String.length (render_spans l) <= f ->
  scan f gap (render_spans l) = ((if (gap =? "")%string then [] else [plain gap]) ++ l)%list.
Proof.
  induction l as [|sp l IH]; intros f gap Hok Hadj Hgap Hf.
  - simpl render_spans. rewrite scan_end, app_nil_r. reflexivity.
  - simpl in Hok. apply andb_prop in Hok as [Hsp Hok].
    assert (Hadj' : no_adjacent_plain l = true)
      by (destruct l; [reflexivity|]; simpl in Hadj; apply andb_prop in Hadj; apply Hadj).
    destruct sp as [t b i]. unfold span_ok in Hsp. simpl in Hsp.
    apply andb_prop in Hsp as [Hsp Hbi]. apply andb_prop in Hsp as [Hsp _].
    apply andb_prop in Hsp as [Hne Hnd].
    apply negb_true_iff, String.eqb_neq in Hne.
    change (render_spans (mkSpan t b i :: l))
      with (render_span (mkSpan t b i) ++ render_spans l)%string in *.
    unfold render_span in *. simpl span_bold in *. simpl span_italic in *. simpl span_text in *.
    destruct b; [|destruct i].
    + destruct i; [discriminate|].
      rewrite !sapp_assoc in *. rewrite !slen_app in Hf. simpl in Hf.
      destruct f as [|f]; [lia|].
      rewrite (scan_match f gap _ _ (render_spans l)) by
        (try discriminate; apply inline_bold; assumption).
      rewrite span_of_match_bold, (IH f "") by (auto; lia || congruence).
      reflexivity.
    + rewrite !sapp_assoc in *. rewrite !slen_app in Hf. simpl in Hf.
      destruct f as [|f]; [lia|].
      rewrite (scan_match f gap _ _ (render_spans l)) by
        (try discriminate; apply inline_italic; assumption).
      rewrite span_of_match_italic, (IH f "") by (auto; lia || congruence).
      reflexivity.
    + destruct (gap =? "")%string eqn:Hg.
      2:{ exfalso. apply String.eqb_neq in Hg. specialize (Hgap Hg). discriminate. }
      apply String.eqb_eq in Hg. subst gap.
      rewrite slen_app in Hf.
      rewrite scan_plain by (assumption || lia). rewrite sapp_nil_l.
      assert (Hhead : t <> "" -> match l with sp :: _ => is_plain sp = false | [] => True end).
      { intros _. destruct l as [|sp' l']; [exact I|].
        simpl in Hadj. apply andb_prop in Hadj as [H1 _].
        unfold is_plain in *. simpl in H1.
        destruct (negb (span_bold sp') && negb (span_italic sp')); [discriminate|reflexivity]. }
      rewrite (IH _ t Hok Hadj' Hhead) by lia.
      apply String.eqb_neq in Hne. rewrite Hne. reflexivity.
Qed.

(** X2: writing spans back as markup ([**t**] for bold, [*t*] for
    italic) and parsing the text with [parseInlineSpans] gives the spans
    back, when every span has non-empty text without markup characters or
    whitespace runs, is not both bold and italic, and no two plain spans
    are adjacent. *)
Theorem parseInlineSpans_render (l : list RichTextSpan) :
  forallb span_ok l = true -> no_adjacent_plain l = true ->
  parseInlineSpans (render_spans l) = l.
Proof.
  intros Hok Hadj. unfold parseInlineSpans.
  rewrite (scan_render l _ "" Hok Hadj) by (congruence || lia).
  simpl. clear Hadj. induction l as [|sp l IH]; [reflexivity|].
  simpl in Hok. apply andb_prop in Hok as [Hsp Hok]. simpl. rewrite (IH Hok).
  unfold span_ok in Hsp. apply andb_prop in Hsp as [Hsp _]. apply andb_prop in Hsp as [_ Hc].
  apply String.eqb_eq in Hc. rewrite Hc. destruct sp; reflexivity.
Qed.

Lemma parseInlineSpans_render_witness :
  forallb span_ok [plain "Hello "; mkSpan "bold world" true false; plain " and ";
                   mkSpan "more" false true] = true /\
  no_adjacent_plain [plain "Hello "; mkSpan "bold world" true false; plain " and ";
                     mkSpan "more" false true] = true /\
  parseInlineSpans (render_spans [plain "Hello "; mkSpan "bold world" true false;
                                  plain " and "; mkSpan "more" false true])
  = [plain "Hello "; mkSpan "bold world" true false; plain " and "; mkSpan "more" false true].
Proof.
  split; [reflexivity|split; [reflexivity|]].
  apply parseInlineSpans_render; reflexivity.
Defined.

Lemma run_not_head (d : ascii) (x : string) :
  forall c b r, run_not d x = (String c b, r) -> c <> d.
Proof.
  induction x as [|c' x IH]; simpl; intros c b r H; [discriminate|].
  destruct (Ascii.eqb c' d) eqn:E; [discriminate|].
  destruct (run_not d x) as [r' rest]. injection H as <- _ _.
  apply Ascii.eqb_neq. exact E.
Qed.

Lemma delim_match_shape (d : ascii) (double : bool) (s m rest : string) :
  delim_match d double s = Some (m, rest) ->
  exists c b, c <> d /\ m = (delim_open d double ++ String c b ++ delim_open d double)%string.
Proof.
  unfold delim_match. fold (delim_open d double).
  destruct (String.prefix (delim_open d double) s); [|discriminate].
  destruct (run_not d (sdrop (String.length (delim_open d double)) s)) as [body r] eqn:E.
  destruct (body =? "")%string eqn:Eb; [discriminate|].
  destruct (String.prefix (delim_open d double) r); [|discriminate].
  intros [= <- _]. destruct body as [|c b]; [discriminate|].
  exists c, b. split; [exact (run_not_head _ _ _ _ _ E)|reflexivity].
Qed.

Lemma substring_nonempty (k n : nat) (s : string) :
  1 <= n -> k + n <= String.length s -> substring k n s <> "".
Proof.
  revert n s. induction k as [|k IH]; intros n s Hn Hl.
  - destruct n as [|n]; [lia|]. destruct s as [|c s]; simpl in Hl; [lia|]. simpl. discriminate.
  - destruct s as [|c s]; simpl in Hl; [lia|]. simpl. apply IH; lia.
Qed.

Lemma span_of_match_shape (d : ascii) (double : bool) (c : ascii) (b : string) :
  c <> d ->
  Forall span_shape (span_of_match (delim_open d double ++ String c b ++ delim_open d double)%string).
Proof.
  intros Hc.
  assert (Hlen : String.length (delim_open d double ++ String c b ++ delim_open d double)%string
                 = 2 * String.length (delim_open d double) + S (String.length b))
    by (rewrite !slen_app; simpl; lia).
  assert (Hopen : 1 <= String.length (delim_open d double) <= 2)
    by (destruct double; simpl; lia).
  assert (Hbold : double = false ->
     (String.prefix "**" (delim_open d double ++ String c b ++ delim_open d double)
      || String.prefix "__" (delim_open d double ++ String c b ++ delim_open d double))%string
     = false).
  { intros ->. unfold delim_open. rewrite ?sapp_cons, ?sapp_nil_l, ?sapp_cons.
    destruct (ascii_dec "*" d) as [<-|H1].
    - rewrite prefix_head_eq, prefix_head_ne by congruence.
      rewrite prefix_head_ne by discriminate. reflexivity.
    - rewrite prefix_head_ne by exact H1.
      destruct (ascii_dec "_" d) as [<-|H2].
      + rewrite prefix_head_eq, prefix_head_ne by congruence. reflexivity.
      + rewrite prefix_head_ne by exact H2. reflexivity. }
  unfold span_of_match. rewrite Hlen.
  destruct (String.prefix "**" _ || String.prefix "__" _)%string eqn:Eb.
  - destruct double; [|discriminate (Hbold eq_refl)].
    assert (H2 : String.length (delim_open d true) = 2) by reflexivity.
    constructor; [|constructor]. split; [|reflexivity]. cbn [span_text].
    apply substring_nonempty; rewrite ?Hlen; lia.
  - destruct (String.prefix "*" _ || String.prefix "_" _)%string.
    + constructor; [|constructor]. split; [|reflexivity]. cbn [span_text].
      apply substring_nonempty; rewrite ?Hlen; lia.
    + destruct (String.prefix "`" _); [|constructor].
      constructor; [|constructor]. split; [|reflexivity]. cbn [span_text plain].
      apply substring_nonempty; rewrite ?Hlen; lia.
Qed.

Lemma delim_match_span (d : ascii) (double : bool) (s m rest : string) :
  delim_match d double s = Some (m, rest) -> Forall span_shape (span_of_match m).
Proof.
  intros E. destruct (delim_match_shape _ _ _ _ _ E) as (c & b & Hc & ->).
  apply span_of_match_shape; exact Hc.
Qed.

Lemma inline_match_shape (s m rest : string) :
  inline_match_at s = Some (m, rest) -> Forall span_shape (span_of_match m).
Proof.
  unfold inline_match_at.
  destruct (delim_match "*" true s) as [[m1 r1]|] eqn:E1;
    [intros [= <- _]; exact (delim_match_span _ _ _ _ _ E1)|].
  destruct (delim_match "_" true s) as [[m2 r2]|] eqn:E2;
    [intros [= <- _]; exact (delim_match_span _ _ _ _ _ E2)|].
  destruct (delim_match "*" false s) as [[m3 r3]|] eqn:E3;
    [intros [= <- _]; exact (delim_match_span _ _ _ _ _ E3)|].
  destruct (delim_match "_" false s) as [[m4 r4]|] eqn:E4;
    [intros [= <- _]; exact (delim_match_span _ _ _ _ _ E4)|].
  apply delim_match_span.
Qed.

Lemma scan_shape (f : nat) :
  forall gap s, Forall span_shape (scan f gap s).
Proof.
  induction f as [|f IH]; intros gap s; simpl.
  - destruct (gap ++ s =? "")%string eqn:E; constructor; [|constructor].
    split; [|reflexivity]. simpl. apply String.eqb_neq. exact E.
  - destruct s as [|c s'].
    + destruct (gap =? "")%string eqn:E; constructor; [|constructor].
      split; [|reflexivity]. simpl. apply String.eqb_neq. exact E.
    + destruct (inline_match_at (String c s')) as [[m rest]|] eqn:Em; [|apply IH].
      apply Forall_app; split; [|apply Forall_app; split; [|apply IH]].
      * destruct (gap =? "")%string eqn:E; constructor; [|constructor].
        split; [|reflexivity]. simpl. apply String.eqb_neq. exact E.
      * exact (inline_match_shape _ _ _ Em).
Qed.

Lemma collapse_nonempty (s : string) :
  s <> "" -> collapse_runs_aux is_space false s <> "".
Proof. destruct s as [|c s]; [congruence|]. simpl. destruct (is_space c); discriminate. Qed.

(** X3: every span of [parseInlineSpans] has non-empty text whose only
    whitespace characters are single spaces, and no span is both bold and
    italic. *)
Theorem parseInlineSpans_spans_ok (text : string) (sp : RichTextSpan) :
  In sp (parseInlineSpans text) ->
  span_text sp <> "" /\ single_spaced (span_text sp) = true /\
  ~ (span_bold sp = true /\ span_italic sp = true).
Proof.
  unfold parseInlineSpans. intros Hin. apply in_map_iff in Hin as (sp0 & <- & Hin).
  pose proof (proj1 (List.Forall_forall _ _) (scan_shape _ "" text) sp0 Hin) as [Hne Hbi].
  simpl. split; [|split].
  - apply collapse_nonempty; assumption.
  - apply (collapse_single false).
  - intros [H1 H2]. rewrite H1, H2 in Hbi. discriminate.
Qed.

Lemma parseInlineSpans_spans_ok_witness :
  In (mkSpan "b" true false) (parseInlineSpans "a  **b**") /\
  span_text (mkSpan "b" true false) <> "" /\
  single_spaced (span_text (mkSpan "b" true false)) = true /\
  ~ (span_bold (mkSpan "b" true false) = true /\ span_italic (mkSpan "b" true false) = true).
Proof.
  assert (H : In (mkSpan "b" true false) (parseInlineSpans "a  **b**"))
    by (vm_compute; right; left; reflexivity).
  split; [exact H|]. exact (parseInlineSpans_spans_ok _ _ H).
Defined.

(* ------------------------------------------------------------------ *)
(** ** Blocks of the markup parser *)

Lemma sdrop_suffix (n : nat) (s : string) : exists p, s = (p ++ sdrop n s)%string.
Proof.
  revert s. induction n as [|n IH]; intros s; [exists ""; reflexivity|].
  destruct s as [|c s]; [exists ""; reflexivity|].
  destruct (IH s) as [p Hp]. exists (String c p). simpl. exact (f_equal (String c) Hp).
Qed.

Lemma dot_plus_nonempty (s : string) : dot_plus s = true -> s <> "".
Proof. destruct s; [discriminate|]. intros _. discriminate. Qed.

Lemma try_ws_suffix (plus : bool) (r : string) (m : nat) (rest : string) :
  try_ws plus r m = Some rest -> (exists p, r = (p ++ rest)%string) /\ rest <> "".
Proof.
  intros H. destruct (try_ws_sound _ _ _ _ H) as (k & _ & -> & Hd).
  split; [apply sdrop_suffix | apply dot_plus_nonempty, Hd].
Qed.

Lemma headingMatch_suffix (s : string) (k : nat) (rest : string) :
  headingMatch s = Some (k, rest) -> (exists p, s = (p ++ rest)%string) /\ rest <> "".
Proof.
  unfold headingMatch. intros H.
  destruct (try_hashes_sound s _ k rest H) as [_ Hw].
  destruct (try_ws_suffix _ _ _ _ Hw) as [[p Hp] Hne]. split; [|exact Hne].
  destruct (sdrop_suffix k s) as [q Hq]. exists (q ++ p)%string.
  rewrite sapp_assoc, <- Hp. exact Hq.
Qed.

Lemma bulletMatch_suffix (s g : string) :
  bulletMatch s = Some g -> (exists p, s = (p ++ g)%string) /\ g <> "".
Proof.
  unfold bulletMatch. destruct s as [|c r]; [discriminate|].
  destruct ((42 <=? nat_of_ascii c) && (nat_of_ascii c <=? 43)); [|discriminate].
  intros H. destruct (try_ws_suffix _ _ _ _ H) as [[p Hp] Hne]. split; [|exact Hne].
  exists (String c p). rewrite Hp. reflexivity.
Qed.

Lemma blockquoteMatch_suffix (s q : string) :
  blockquoteMatch s = Some q -> (exists p, s = (p ++ q)%string) /\ q <> "".
Proof.
  unfold blockquoteMatch. destruct s as [|c r]; [discriminate|].
  destruct (Ascii.eqb c ">"); [|discriminate].
  intros H. destruct (try_ws_suffix _ _ _ _ H) as [[p Hp] Hne]. split; [|exact Hne].
  exists (String c p). rewrite Hp. reflexivity.
Qed.

Lemma all_space_rtrim_nil (b : string) : all_space b = true -> rtrim b = "".
Proof.
  induction b as [|c b IH]; simpl; [reflexivity|]. intros H.
  apply andb_prop in H as [Hc Hb]. rewrite Hc, (IH Hb). reflexivity.
Qed.

Lemma rtrim_fixed_suffix (p b : string) :
  rtrim (p ++ b) = (p ++ b)%string -> b <> "" -> all_space b = false.
Proof.
  induction p as [|c p IH]; intros H Hb.
  - rewrite sapp_nil_l in H. destruct (all_space b) eqn:E; [|reflexivity].
    rewrite (all_space_rtrim_nil _ E) in H. congruence.
  - rewrite sapp_cons in H. simpl in H.
    destruct (is_space c && (rtrim (p ++ b) =? "")%string); [discriminate|].
    injection H as H. exact (IH H Hb).
Qed.

Lemma all_space_collapse (b : bool) (x : string) :
  all_space (collapse_runs_aux is_space b x) = all_space x.
Proof.
  revert b. induction x as [|c x IH]; intros b; simpl; [reflexivity|].
  destruct (is_space c) eqn:Hc; simpl.
  - destruct b; simpl; apply IH.
  - rewrite Hc. reflexivity.
Qed.

Lemma all_space_ltrim (x : string) : all_space (ltrim x) = all_space x.
Proof.
  induction x as [|c x IH]; simpl; [reflexivity|].
  destruct (is_space c) eqn:Hc; simpl; [exact IH|rewrite Hc; reflexivity].
Qed.

Lemma all_space_rtrim (x : string) : all_space (rtrim x) = all_space x.
Proof.
  induction x as [|c x IH]; simpl; [reflexivity|].
  destruct (is_space c) eqn:Hc; simpl.
  - destruct (rtrim x =? "")%string eqn:E; simpl.
    + apply String.eqb_eq in E. rewrite E in IH. simpl in IH. rewrite <- IH. reflexivity.
    + rewrite Hc. exact IH.
  - rewrite Hc. reflexivity.
Qed.

Lemma all_space_trim (x : string) : all_space (trim x) = all_space x.
Proof. unfold trim. rewrite all_space_rtrim, all_space_ltrim. reflexivity. Qed.

Lemma all_space_normalize (x : string) : all_space (normalizeWhitespace x) = all_space x.
Proof.
  unfold normalizeWhitespace, collapse_ws. rewrite all_space_trim, all_space_collapse.
  reflexivity.
Qed.

Lemma not_all_space_nonempty (x : string) : all_space x = false -> x <> "".
Proof. intros H ->. discriminate. Qed.

Lemma trim_idem (x : string) : trim (trim x) = trim x.
Proof.
  unfold trim. rewrite ltrim_rtrim_clean by (intros d r E; exact (ltrim_head _ d r E)).
  apply rtrim_idem.
Qed.

(** A non-empty suffix of a trimmed line holds a non-whitespace character. *)
Lemma trimmed_suffix (line p b : string) :
  trim line = (p ++ b)%string -> b <> "" -> all_space b = false.
Proof.
  intros H Hb. apply (rtrim_fixed_suffix p); [|exact Hb].
  rewrite <- H. unfold trim. apply rtrim_idem.
Qed.

Lemma delim_open_prefix (d : ascii) (double : bool) (c : ascii) (b : string) :
  String.prefix (String d "") (delim_open d double ++ String c b ++ delim_open d double) = true.
Proof. destruct double; unfold delim_open; rewrite ?sapp_cons; apply prefix_head_eq. Qed.

Lemma span_of_match_nonempty (d : ascii) (double : bool) (c : ascii) (b : string) :
  (d = "*" \/ d = "_" \/ d = "`")%char ->
  span_of_match (delim_open d double ++ String c b ++ delim_open d double)%string <> [].
Proof.
  intros Hd. pose proof (delim_open_prefix d double c b) as Hp. unfold span_of_match.
  set (m := (delim_open d double ++ String c b ++ delim_open d double)%string) in *.
  destruct (String.prefix "**" m || String.prefix "__" m)%string; [discriminate|].
  destruct (String.prefix "*" m) eqn:E1; [discriminate|].
  destruct (String.prefix "_" m) eqn:E2; [discriminate|].
  destruct (String.prefix "`" m) eqn:E3; [discriminate|].
  destruct Hd as [-> | [-> | ->]]; congruence.
Qed.

Lemma delim_match_nonempty (d : ascii) (double : bool) (s m rest : string) :
  (d = "*" \/ d = "_" \/ d = "`")%char ->
  delim_match d double s = Some (m, rest) -> span_of_match m <> [].
Proof.
  intros Hd E. destruct (delim_match_shape _ _ _ _ _ E) as (c & b & _ & ->).
  apply span_of_match_nonempty, Hd.
Qed.

Lemma inline_match_nonempty (s m rest : string) :
  inline_match_at s = Some (m, rest) -> span_of_match m <> [].
Proof.
  unfold inline_match_at.
  destruct (delim_match "*" true s) as [[m1 r1]|] eqn:E1;
    [intros [= <- _]; eapply delim_match_nonempty; [|exact E1]; tauto|].
  destruct (delim_match "_" true s) as [[m2 r2]|] eqn:E2;
    [intros [= <- _]; eapply delim_match_nonempty; [|exact E2]; tauto|].
  destruct (delim_match "*" false s) as [[m3 r3]|] eqn:E3;
    [intros [= <- _]; eapply delim_match_nonempty; [|exact E3]; tauto|].
  destruct (delim_match "_" false s) as [[m4 r4]|] eqn:E4;
    [intros [= <- _]; eapply delim_match_nonempty; [|exact E4]; tauto|].
  apply delim_match_nonempty. tauto.
Qed.

Lemma scan_nonempty (f : nat) :
  forall gap s, (gap ++ s)%string <> "" -> scan f gap s <> [].
Proof.
  induction f as [|f IH]; intros gap s Hne; simpl.
  - apply String.eqb_neq in Hne. rewrite Hne. discriminate.
  - destruct s as [|c s'].
    + rewrite sapp_nil in Hne. apply String.eqb_neq in Hne. rewrite Hne. discriminate.
    + destruct (inline_match_at (String c s')) as [[m rest]|] eqn:Em.
      * destruct (gap =? "")%string; [|discriminate]. simpl.
        intros Hn. apply app_eq_nil in Hn as [Hm _].
        exact (inline_match_nonempty _ _ _ Em Hm).
      * apply IH. rewrite sapp_assoc. destruct gap; discriminate.
Qed.

Lemma parseInlineSpans_nonempty (text : string) :
  text <> "" -> parseInlineSpans text <> [].
Proof.
  intros H. unfold parseInlineSpans. intros Hm. apply map_eq_nil in Hm.
  exact (scan_nonempty _ "" text H Hm).
Qed.

Lemma flushParagraph_ok (buf : list string) (blocks : list StructuredBlock) :
  Forall block_ok blocks -> Forall block_ok (flushParagraph buf blocks).
Proof.
  intros H. unfold flushParagraph. destruct buf as [|l ls]; [exact H|].
  destruct (normalizeWhitespace (join " " (l :: ls)) =? "")%string eqn:E; [exact H|].
  apply List.Forall_app; split; [exact H|]. constructor; [|constructor].
  simpl. apply parseInlineSpans_nonempty. apply String.eqb_neq, E.
Qed.

Lemma suffix_spans_nonempty (line p g : string) :
  trim line = (p ++ g)%string -> g <> "" ->
  parseInlineSpans (normalizeWhitespace g) <> [].
Proof.
  intros H Hg. apply parseInlineSpans_nonempty, not_all_space_nonempty.
  rewrite all_space_normalize. exact (trimmed_suffix _ _ _ H Hg).
Qed.

Lemma take_bullets_items (lines : list string) :
  Forall (fun item => item <> []) (fst (take_bullets lines)).
Proof.
  induction lines as [|l ls IH]; simpl; [constructor|].
  destruct (bulletMatch (trim l)) as [g|] eqn:E; [|constructor].
  destruct (take_bullets ls) as [items rest]. simpl in *. constructor; [|exact IH].
  destruct (bulletMatch_suffix _ _ E) as [[p Hp] Hg].
  exact (suffix_spans_nonempty _ _ _ Hp Hg).
Qed.

Lemma heading_ok (line : string) (level : nat) (text : string) :
  headingMatch (trim line) = Some (level, text) ->
  block_ok (Heading (Nat.min level 3) (trim text)).
Proof.
  intros H. pose proof H as H'. unfold headingMatch in H'.
  destruct (try_hashes_sound _ _ _ _ H') as [Hk _].
  destruct (headingMatch_suffix _ _ _ H) as [[p Hp] Hne].
  simpl. split; [lia|]. split; [|apply trim_idem].
  apply not_all_space_nonempty. rewrite all_space_trim.
  exact (trimmed_suffix _ _ _ Hp Hne).
Qed.

Lemma parse_loop_ok (fuel : nat) :
  forall lines buf blocks, Forall block_ok blocks ->
  Forall block_ok (parse_loop fuel lines buf blocks).
Proof.
  induction fuel as [|f IH]; intros lines buf blocks Hb; simpl;
    [apply flushParagraph_ok, Hb|].
  destruct lines as [|line ls]; [apply flushParagraph_ok, Hb|].
  destruct (trim line =? "")%string; [apply IH, flushParagraph_ok, Hb|].
  destruct (headingMatch (trim line)) as [[level text]|] eqn:Eh.
  { apply IH, List.Forall_app; split; [apply flushParagraph_ok, Hb|].
    constructor; [exact (heading_ok _ _ _ Eh)|constructor]. }
  destruct (bulletMatch (trim line)) as [g|] eqn:Eb.
  { pose proof (take_bullets_items (line :: ls)) as Hi.
    simpl in Hi |- *. rewrite Eb in Hi |- *.
    destruct (take_bullets ls) as [items rest]. simpl in Hi.
    apply IH, List.Forall_app; split; [apply flushParagraph_ok, Hb|].
    constructor; [|constructor]. simpl. split; [reflexivity|]. split; [discriminate|exact Hi]. }
  destruct (blockquoteMatch (trim line)) as [q|] eqn:Eq.
  { apply IH, List.Forall_app; split; [apply flushParagraph_ok, Hb|].
    constructor; [|constructor]. simpl.
    destruct (blockquoteMatch_suffix _ _ Eq) as [[p Hp] Hq].
    exact (suffix_spans_nonempty _ _ _ Hp Hq). }
  apply IH, Hb.
Qed.

(** X4: every block the markup parser returns is well formed: a heading has
    a level from 1 to 3 and a non-empty trimmed text, a paragraph and a quote
    have at least one span, and a list is unordered with at least one item,
    each item having at least one span. *)
Theorem parseMarkdownToBlocks_blocks_ok (raw : string) :
  Forall block_ok (parseMarkdownToBlocks raw).
Proof. unfold parseMarkdownToBlocks. apply parse_loop_ok. constructor. Qed.

(* ------------------------------------------------------------------ *)
(** ** Inputs that give no blocks *)

Lemma all_space_app (a b : string) :
  all_space (a ++ b) = all_space a && all_space b.
Proof.
  induction a as [|c a IH]; [reflexivity|].
  rewrite sapp_cons. simpl. rewrite IH. apply andb_assoc.
Qed.

Lemma all_space_replace_crlf (s : string) :
  all_space (replace_crlf s) = all_space s /\
  forall c, all_space (replace_crlf (String c s)) = is_space c && all_space s.
Proof.
  induction s as [|c2 s [IH1 IH2]]; split.
  - reflexivity.
  - intros c. reflexivity.
  - apply IH2.
  - intros c. change (replace_crlf (String c (String c2 s))) with
      (if (nat_of_ascii c =? 13) && (nat_of_ascii c2 =? 10)
       then String (ascii_of_nat 10) (replace_crlf s)
       else String c (replace_crlf (String c2 s))).
    destruct (nat_of_ascii c =? 13) eqn:E1; destruct (nat_of_ascii c2 =? 10) eqn:E2;
      simpl andb; cbv iota;
      try (change (all_space (String c (replace_crlf (String c2 s))))
             with (is_space c && all_space (replace_crlf (String c2 s)));
           rewrite IH2; reflexivity).
    change (all_space (String (ascii_of_nat 10) (replace_crlf s)))
      with (is_space (ascii_of_nat 10) && all_space (replace_crlf s)).
    apply Nat.eqb_eq in E1, E2. unfold is_space at 2 3. simpl all_space.
    unfold is_space. rewrite E1, E2, IH1. reflexivity.
Qed.

Lemma forallb_split_aux (sep : ascii) (Hsep : is_space sep = true) :
  forall s cur, forallb all_space (split_aux sep cur s) = all_space cur && all_space s.
Proof.
  induction s as [|c s IH]; intros cur; simpl.
  - rewrite !andb_true_r. reflexivity.
  - destruct (Ascii.eqb c sep) eqn:E.
    + apply Ascii.eqb_eq in E. subst c. simpl. rewrite IH, Hsep. reflexivity.
    + rewrite IH, all_space_app. simpl. rewrite andb_true_r, andb_assoc. reflexivity.
Qed.

Lemma all_space_join (l : list string) :
  all_space (join " " l) = forallb all_space l.
Proof.
  induction l as [|x [|y l] IH]; [reflexivity| |].
  - simpl. rewrite andb_true_r. reflexivity.
  - change (join " " (x :: y :: l)) with (x ++ " " ++ join " " (y :: l))%string.
    rewrite all_space_app, all_space_app, IH. reflexivity.
Qed.

Lemma all_space_ltrim_nil (x : string) : all_space x = true -> ltrim x = "".
Proof.
  induction x as [|c x IH]; simpl; [reflexivity|]. intros H.
  apply andb_prop in H as [-> Hx]. exact (IH Hx).
Qed.

Lemma trim_nil_iff (x : string) : (trim x =? "")%string = all_space x.
Proof.
  destruct (all_space x) eqn:E.
  - unfold trim. rewrite (all_space_ltrim_nil _ E). reflexivity.
  - apply String.eqb_neq. apply not_all_space_nonempty. rewrite all_space_trim. exact E.
Qed.

Lemma parse_loop_blank (fuel : nat) :
  forall lines, forallb all_space lines = true -> parse_loop fuel lines [] [] = [].
Proof.
  induction fuel as [|f IH]; intros lines H; [reflexivity|].
  destruct lines as [|l ls]; [reflexivity|]. simpl in H.
  apply andb_prop in H as [Hl Hls]. simpl. rewrite trim_nil_iff, Hl. apply IH, Hls.
Qed.

Lemma flushParagraph_grow (buf : list string) (blocks : list StructuredBlock) :
  blocks <> [] -> flushParagraph buf blocks <> [].
Proof.
  intros H. unfold flushParagraph. destruct buf; [exact H|].
  destruct (_ =? "")%string; [exact H|]. destruct blocks; [congruence|discriminate].
Qed.

Lemma flushParagraph_text (buf : list string) (blocks : list StructuredBlock) :
  forallb all_space buf = false -> flushParagraph buf blocks <> [].
Proof.
  intros H. unfold flushParagraph. destruct buf as [|l ls]; [discriminate|].
  rewrite <- all_space_join, <- all_space_normalize, <- trim_nil_iff in H.
  unfold normalizeWhitespace in H |- *. rewrite trim_idem in H.
  rewrite H. destruct blocks; discriminate.
Qed.

Lemma take_bullets_rest (lines : list string) :
  length (snd (take_bullets lines)) <= length lines.
Proof.
  induction lines as [|l ls IH]; simpl; [lia|].
  destruct (bulletMatch (trim l)); [|simpl; lia].
  destruct (take_bullets ls) as [items rest]. simpl in *. lia.
Qed.

Lemma parse_loop_nonempty (fuel : nat) :
  forall lines buf blocks, length lines < fuel ->
  blocks <> [] \/ forallb all_space buf = false \/ forallb all_space lines = false ->
  parse_loop fuel lines buf blocks <> [].
Proof.
  induction fuel as [|f IH]; intros lines buf blocks Hf H; [lia|].
  destruct lines as [|line ls]; simpl parse_loop.
  { destruct H as [H|[H|H]]; [apply flushParagraph_grow, H|apply flushParagraph_text, H|discriminate]. }
  simpl in Hf. rewrite trim_nil_iff.
  assert (Hgrow : forall x, parse_loop f ls [] (flushParagraph buf blocks ++ [x]) <> []).
  { intros x. apply IH; [lia|]. left. destruct (flushParagraph buf blocks); discriminate. }
  destruct (all_space line) eqn:El.
  { apply IH; [lia|]. simpl in H. rewrite El in H.
    destruct H as [H|[H|H]].
    - left. apply flushParagraph_grow, H.
    - left. apply flushParagraph_text, H.
    - right. right. exact H. }
  destruct (headingMatch (trim line)) as [[level text]|]; [apply Hgrow|].
  destruct (bulletMatch (trim line)) as [g|] eqn:Eb.
  { pose proof (take_bullets_rest ls) as Hr. simpl.
    destruct (take_bullets ls) as [items rest]. simpl in Hr.
    apply IH; [lia|]. left. destruct (flushParagraph buf blocks); discriminate. }
  destruct (blockquoteMatch (trim line)); [apply Hgrow|].
  apply IH; [lia|]. right. left.
  rewrite forallb_app. simpl. rewrite all_space_trim, El, !andb_false_r. reflexivity.
Qed.

(** X5: the markup parser returns no block exactly when the input consists
    of whitespace only (the empty string included); any other input gives at
    least one block. *)
Theorem parseMarkdownToBlocks_nil_iff (raw : string) :
  parseMarkdownToBlocks raw = [] <-> all_space raw = true.
Proof.
  unfold parseMarkdownToBlocks, split.
  assert (Hsep : is_space (ascii_of_nat 10) = true) by reflexivity.
  pose proof (forallb_split_aux _ Hsep (replace_crlf raw) "") as Hs.
  simpl all_space in Hs. rewrite (proj1 (all_space_replace_crlf raw)) in Hs.
  split.
  - intros H. destruct (all_space raw) eqn:E; [reflexivity|].
    exfalso. revert H. apply parse_loop_nonempty; [lia|]. right. right. exact Hs.
  - intros E. rewrite E in Hs. apply parse_loop_blank, Hs.
Qed.

(* ------------------------------------------------------------------ *)
(** ** The rich-text line breaker keeps every word *)

Lemma word_tokens_app (a b : list StyledToken) :
  word_tokens (a ++ b) = (word_tokens a ++ word_tokens b)%list.
Proof. apply List.filter_app. Qed.

Lemma line_end_tail (l : list StyledToken) : word_tokens (skipn (line_end l) l) = [].
Proof.
  induction l as [|t l IH]; [reflexivity|]. simpl.
  destruct (line_end l =? 0) eqn:E; destruct (tok_isSpace t) eqn:Ht; simpl;
    try exact IH.
  - apply Nat.eqb_eq in E. rewrite E in IH. simpl in IH. unfold word_tokens. simpl.
    rewrite Ht. exact IH.
Qed.

Lemma line_end_words (l : list StyledToken) :
  word_tokens (firstn (line_end l) l) = word_tokens l.
Proof.
  transitivity (word_tokens (firstn (line_end l) l ++ skipn (line_end l) l)%list).
  - rewrite word_tokens_app, line_end_tail, app_nil_r. reflexivity.
  - rewrite (List.firstn_skipn (line_end l) l). reflexivity.
Qed.

Lemma pushLine_words (cur : list StyledToken) (lines : list (list StyledToken)) :
  word_tokens (concat (pushLine cur lines)) =
  (word_tokens (concat lines) ++ word_tokens cur)%list.
Proof.
  unfold pushLine. destruct cur as [|t l]; [rewrite app_nil_r; reflexivity|].
  destruct (0 <? line_end (t :: l)) eqn:E.
  - rewrite List.concat_app, word_tokens_app. cbn [concat].
    rewrite app_nil_r, line_end_words. reflexivity.
  - apply Nat.ltb_ge in E. assert (E0 : line_end (t :: l) = 0) by lia.
    pose proof (line_end_tail (t :: l)) as H. rewrite E0 in H. simpl skipn in H.
    rewrite H, app_nil_r. reflexivity.
Qed.

Lemma wrap_step_words (maxWidth : Q) (st : WrapState) (token : StyledToken) :
  (word_tokens (concat (ws_lines (wrap_step maxWidth st token)))
   ++ word_tokens (ws_current (wrap_step maxWidth st token)))%list =
  (word_tokens (concat (ws_lines st)) ++ word_tokens (ws_current st)
   ++ word_tokens [token])%list.
Proof.
  unfold wrap_step.
  set (st1 := if negb (tok_isSpace token)
                 && negb (Qle_bool (ws_width st + tok_width token)%Q maxWidth)
                 && negb (match ws_current st with [] => true | _ => false end)
               then mkWrap (pushLine (ws_current st) (ws_lines st)) [] 0%Q else st).
  assert (H1 : (word_tokens (concat (ws_lines st1)) ++ word_tokens (ws_current st1))%list =
               (word_tokens (concat (ws_lines st)) ++ word_tokens (ws_current st))%list).
  { unfold st1. destruct (_ && _ && _); [|reflexivity].
    simpl. rewrite pushLine_words, app_nil_r. reflexivity. }
  destruct (tok_isSpace token && _) eqn:E.
  - apply andb_prop in E as [Hs _]. unfold word_tokens at 5. simpl. rewrite Hs.
    rewrite app_nil_r. exact H1.
  - simpl. rewrite word_tokens_app, app_assoc, H1, app_assoc. reflexivity.
Qed.

Lemma fold_wrap_words (maxWidth : Q) (tokens : list StyledToken) :
  forall st,
  (word_tokens (concat (ws_lines (fold_left (wrap_step maxWidth) tokens st)))
   ++ word_tokens (ws_current (fold_left (wrap_step maxWidth) tokens st)))%list =
  (word_tokens (concat (ws_lines st)) ++ word_tokens (ws_current st)
   ++ word_tokens tokens)%list.
Proof.
  induction tokens as [|t ts IH]; intros st; cbn [fold_left].
  - unfold word_tokens at 3. simpl. rewrite !app_nil_r. reflexivity.
  - rewrite IH, app_assoc, wrap_step_words. change (t :: ts) with ([t] ++ ts)%list.
    rewrite (word_tokens_app [t] ts), !app_assoc. reflexivity.
Qed.

(** X6: [wrapTokens] loses, duplicates and reorders no word: the
    non-whitespace tokens of its lines, read line after line, are exactly the
    non-whitespace tokens of its input, in order, whatever the width. *)
Theorem wrapTokens_keeps_words (tokens : list StyledToken) (maxWidth : Q) :
  word_tokens (concat (wrapTokens tokens maxWidth)) = word_tokens tokens.
Proof.
  unfold wrapTokens. rewrite pushLine_words, fold_wrap_words. reflexivity.
Qed.

(* ------------------------------------------------------------------ *)
(** ** The tokenizer keeps the text *)

Lemma ws_runs_aux_text (s : string) :
  forall cur sp, cur = "" \/ all_space cur = sp ->
  strings_concat (map part_text (ws_runs_aux cur sp s)) =
  (run_text cur ++ collapse_runs_aux is_space (negb (cur =? "")%string && sp) s)%string.
Proof.
  induction s as [|c s IH]; intros cur sp Hcur.
  - simpl. unfold run_text. destruct (cur =? "")%string; [reflexivity|].
    simpl. rewrite !sapp_nil. reflexivity.
  - cbn [ws_runs_aux]. destruct (cur =? "")%string eqn:Ec.
    + apply String.eqb_eq in Ec. subst cur. simpl orb. cbv iota.
      rewrite sapp_nil_l, IH by (right; simpl; apply andb_true_r). simpl.
      unfold run_text. simpl. destruct (is_space c); reflexivity.
    + assert (Hne : cur <> "") by (apply String.eqb_neq, Ec).
      destruct Hcur as [Hcur|Hcur]; [contradiction|]. simpl orb.
      destruct (Bool.eqb (is_space c) sp) eqn:Eb.
      * apply Bool.eqb_prop in Eb. cbv iota.
        rewrite IH by (right; rewrite all_space_app; simpl; rewrite Hcur, Eb;
                       destruct sp; reflexivity).
        assert (Hne' : ((cur ++ String c "") =? "")%string = false).
        { apply String.eqb_neq. destruct cur; [contradiction|discriminate]. }
        rewrite Hne'. simpl negb. simpl andb. unfold run_text.
        rewrite Hne', Ec, all_space_app, Hcur. simpl. rewrite Eb.
        destruct sp; simpl.
        -- reflexivity.
        -- rewrite sapp_assoc. reflexivity.
      * cbv iota.
        change (strings_concat (map part_text (cur :: ws_runs_aux (String c "") (is_space c) s)))
          with (part_text cur ++ strings_concat (map part_text (ws_runs_aux (String c "") (is_space c) s)))%string.
        rewrite IH by (right; simpl; apply andb_true_r).
        unfold part_text, run_text. rewrite Ec, Hcur. simpl.
        destruct sp, (is_space c); try discriminate; reflexivity.
Qed.

Lemma ws_runs_text (s : string) :
  strings_concat (map part_text (ws_runs s)) = collapse_ws s.
Proof. unfold ws_runs. rewrite ws_runs_aux_text by (left; reflexivity). reflexivity. Qed.

Lemma strings_concat_app (a b : list string) :
  strings_concat (a ++ b) = (strings_concat a ++ strings_concat b)%string.
Proof.
  induction a as [|x a IH]; [reflexivity|]. simpl. rewrite IH. symmetry. apply sapp_assoc.
Qed.

(** X7: [tokenizeSpans] keeps the text: the token texts, concatenated, are
    the span texts, concatenated, with every whitespace run replaced by one
    space (within each span); no character is dropped, added or reordered. *)
Theorem tokenizeSpans_text (widthOfTextAtSize : PDFFont -> string -> Q -> Q)
    (spans : list RichTextSpan) (fonts : PDFFont * PDFFont * PDFFont) (fontSize : Q) :
  strings_concat (map tok_text (tokenizeSpans widthOfTextAtSize spans fonts fontSize)) =
  strings_concat (map (fun sp => collapse_ws (span_text sp)) spans).
Proof.
  unfold tokenizeSpans. destruct fonts as [[regular bold] italic].
  induction spans as [|sp spans IH]; [reflexivity|].
  cbn [flat_map]. rewrite map_app, strings_concat_app, IH. cbn [map strings_concat fold_right].
  f_equal. rewrite <- ws_runs_text, map_map. reflexivity.
Qed.

(* ------------------------------------------------------------------ *)
(** ** Lines of the plain-text wrapper *)

Lemma all_chars_app (p : ascii -> bool) (a b : string) :
  all_chars p (a ++ b) = all_chars p a && all_chars p b.
Proof.
  induction a as [|c a IH]; [reflexivity|]. rewrite sapp_cons. simpl. rewrite IH.
  apply andb_assoc.
Qed.

Lemma split_aux_sep (sep : ascii) (s : string) :
  forall cur piece, In piece (split_aux sep cur s) -> no_char sep cur = true ->
  no_char sep piece = true.
Proof.
  unfold no_char. induction s as [|c s IH]; intros cur piece Hin Hc; simpl in Hin.
  - destruct Hin as [<-|[]]. exact Hc.
  - destruct (Ascii.eqb c sep) eqn:E.
    + destruct Hin as [<-|Hin]; [exact Hc|]. exact (IH _ _ Hin eq_refl).
    + apply (IH _ _ Hin). rewrite all_chars_app, Hc. simpl. rewrite E. reflexivity.
Qed.

Lemma split_aux_sub (q : ascii -> bool) (sep : ascii) (s : string) :
  forall cur piece, In piece (split_aux sep cur s) -> all_chars q cur = true ->
  all_chars q s = true -> all_chars q piece = true.
Proof.
  induction s as [|c s IH]; intros cur piece Hin Hc Hs; simpl in Hin, Hs.
  - destruct Hin as [<-|[]]. exact Hc.
  - apply andb_prop in Hs as [Hqc Hs]. destruct (Ascii.eqb c sep).
    + destruct Hin as [<-|Hin]; [exact Hc|]. exact (IH _ _ Hin eq_refl Hs).
    + apply (IH _ _ Hin); [|exact Hs]. rewrite all_chars_app, Hc. simpl. rewrite Hqc. reflexivity.
Qed.

Section WrapTextLines.

Variable widthOfTextAtSize : PDFFont -> string -> Q -> Q.
Variables (font : PDFFont) (fontSize maxWidth : Q).

Lemma wrap_words_shape (words : list string) :
  forall cur lines, Forall (line_shape widthOfTextAtSize font fontSize maxWidth) lines -> (line_shape widthOfTextAtSize font fontSize maxWidth) cur ->
  Forall (fun w => no_char (ascii_of_nat 10) w = true /\ no_char " " w = true) words ->
  Forall (line_shape widthOfTextAtSize font fontSize maxWidth) (wrap_words widthOfTextAtSize font fontSize maxWidth cur words lines).
Proof.
  induction words as [|w ws IH]; intros cur lines Hl Hc Hw; simpl.
  - apply List.Forall_app; split; [exact Hl|constructor; [exact Hc|constructor]].
  - inversion Hw as [|? ? [Hw1 Hw2] Hws]; subst.
    destruct (qlt maxWidth _) eqn:Eq.
    + apply IH; [| split; [exact Hw1|right; exact Hw2] | exact Hws].
      destruct (0 <? String.length cur); [|exact Hl].
      apply List.Forall_app; split; [exact Hl|constructor; [exact Hc|constructor]].
    + apply IH; [exact Hl| |exact Hws]. unfold qlt in Eq. apply negb_false_iff in Eq.
      split; [|left; exact Eq].
      destruct (0 <? String.length cur); [|exact Hw1].
      unfold no_char in Hw1 |- *. rewrite !all_chars_app. destruct Hc as [Hc _].
      unfold no_char in Hc. rewrite Hc, Hw1. reflexivity.
Qed.

Lemma wrapText_fold_shape (ps : list string) :
  forall lines, Forall (fun p => no_char (ascii_of_nat 10) p = true) ps ->
  Forall (line_shape widthOfTextAtSize font fontSize maxWidth) lines ->
  Forall (line_shape widthOfTextAtSize font fontSize maxWidth)
    (fold_left
       (fun lines paragraph =>
          if (trim paragraph =? "")%string then (lines ++ [""])%list
          else wrap_words widthOfTextAtSize font fontSize maxWidth "" (split " " paragraph) lines)
       ps lines).
Proof.
  induction ps as [|p ps IH]; intros lines Hp Hl; simpl; [exact Hl|].
  inversion Hp as [|? ? Hp1 Hps]; subst. apply (IH _ Hps).
  destruct (trim p =? "")%string.
  - apply List.Forall_app; split; [exact Hl|]. constructor; [|constructor].
    split; [reflexivity|right; reflexivity].
  - apply wrap_words_shape; [exact Hl|split; [reflexivity|right; reflexivity]|].
    apply List.Forall_forall. intros w Hin. split.
    + exact (split_aux_sub _ _ _ _ _ Hin eq_refl Hp1).
    + exact (split_aux_sep _ _ _ _ Hin eq_refl).
Qed.

End WrapTextLines.

(** X8: every line [wrapText] returns holds no line feed, and either its width
    at the given font and size is at most [maxWidth] or it holds no space (a
    single word wider than [maxWidth] is kept whole on its own line). *)
Theorem wrapText_line_shape (widthOfTextAtSize : PDFFont -> string -> Q -> Q)
    (text : string) (font : PDFFont) (fontSize maxWidth : Q) :
  Forall (fun line =>
            no_char (ascii_of_nat 10) line = true /\
            (Qle_bool (widthOfTextAtSize font line fontSize) maxWidth = true
             \/ no_char " " line = true))
         (wrapText widthOfTextAtSize text font fontSize maxWidth).
Proof.
  apply (List.Forall_impl (P := line_shape widthOfTextAtSize font fontSize maxWidth));
    [intros a Ha; exact Ha|].
  unfold wrapText. apply wrapText_fold_shape; [|constructor].
  apply List.Forall_forall. intros p Hin. exact (split_aux_sep _ _ _ _ Hin eq_refl).
Qed.

(* ------------------------------------------------------------------ *)
(** ** The comparison form of titles *)

Lemma to_lower_alnum_or_space (c : ascii) :
  alnum_or_space c = true ->
  canon_char (to_lower_char c) = true /\ is_space (to_lower_char c) = is_space c /\
  is_space c = Ascii.eqb c " " /\ Ascii.eqb (to_lower_char c) " " = Ascii.eqb c " ".
Proof.
  destruct c as [[] [] [] [] [] [] [] []]; vm_compute; intros H;
    first [discriminate H | repeat split].
Qed.

Lemma collapse_alnum (s : string) :
  forall b,
  all_chars alnum_or_space (collapse_runs_aux (fun c => negb (is_alnum c)) b s) = true /\
  single_spaced (collapse_runs_aux (fun c => negb (is_alnum c)) b s) = true /\
  (b = true -> forall d t, collapse_runs_aux (fun c => negb (is_alnum c)) b s = String d t ->
   is_space d = false).
Proof.
  induction s as [|c s IH]; intros b; [split; [reflexivity|split; [reflexivity|discriminate]]|].
  cbn [collapse_runs_aux]. destruct (is_alnum c) eqn:Ha; simpl negb; cbv iota.
  - destruct (IH false) as (H1 & H2 & _).
    assert (Hc : alnum_or_space c = true) by (unfold alnum_or_space; rewrite Ha; reflexivity).
    destruct (to_lower_alnum_or_space c Hc) as (_ & _ & Hsp & _).
    assert (Hs : is_space c = false).
    { rewrite Hsp. apply Bool.not_true_iff_false. intros E. apply Ascii.eqb_eq in E.
      subst c. discriminate Ha. }
    split; [simpl; rewrite Hc, H1; reflexivity|]. split.
    + simpl. rewrite Hs, H2. reflexivity.
    + intros _ d t [= <- _]. exact Hs.
  - destruct (IH true) as (H1 & H2 & H3). destruct b; [exact (IH true)|].
    split; [simpl; rewrite H1; reflexivity|]. split; [|discriminate].
    cbn [single_spaced]. rewrite H2, andb_true_r.
    destruct (collapse_runs_aux (fun c => negb (is_alnum c)) true s) as [|d t] eqn:E;
      [reflexivity|]. rewrite (H3 eq_refl d t eq_refl). reflexivity.
Qed.

Lemma all_chars_ltrim (p : ascii -> bool) (s : string) :
  all_chars p s = true -> all_chars p (ltrim s) = true.
Proof.
  induction s as [|c s IH]; simpl; [auto|]. intros H. apply andb_prop in H as [Hc Hs].
  destruct (is_space c); [exact (IH Hs)|simpl; rewrite Hc, Hs; reflexivity].
Qed.

Lemma all_chars_rtrim (p : ascii -> bool) (s : string) :
  all_chars p s = true -> all_chars p (rtrim s) = true.
Proof.
  induction s as [|c s IH]; simpl; [auto|]. intros H. apply andb_prop in H as [Hc Hs].
  destruct (is_space c && _); [reflexivity|simpl; rewrite Hc, (IH Hs); reflexivity].
Qed.

Lemma toLowerCase_props (s : string) :
  all_chars alnum_or_space s = true ->
  all_chars canon_char (toLowerCase s) = true /\
  single_spaced (toLowerCase s) = single_spaced s /\
  ltrim (toLowerCase s) = toLowerCase (ltrim s) /\
  rtrim (toLowerCase s) = toLowerCase (rtrim s).
Proof.
  induction s as [|c s IH]; [intros _; repeat split|].
  simpl. intros H. apply andb_prop in H as [Hc Hs].
  destruct (IH Hs) as (I1 & I2 & I3 & I4).
  destruct (to_lower_alnum_or_space c Hc) as (C1 & C2 & C3 & C4).
  split; [rewrite C1, I1; reflexivity|]. split; [|split].
  - rewrite C2, C4, I2. f_equal. f_equal. f_equal.
    destruct s as [|d t]; [reflexivity|]. simpl.
    apply andb_prop in Hs as [Hd _]. destruct (to_lower_alnum_or_space d Hd) as (_ & D2 & _).
    rewrite D2. reflexivity.
  - rewrite C2. destruct (is_space c); [exact I3|reflexivity].
  - rewrite C2, I4. destruct (is_space c); [|reflexivity].
    destruct (rtrim s); reflexivity.
Qed.

(** X9: [normalizeForComparison] returns a canonical form: only ASCII
    lower-case letters, digits and spaces, no leading or trailing whitespace,
    and no two spaces in a row. *)
Theorem normalizeForComparison_canonical (value : string) :
  all_chars canon_char (normalizeForComparison value) = true /\
  single_spaced (normalizeForComparison value) = true /\
  ltrim (normalizeForComparison value) = normalizeForComparison value /\
  rtrim (normalizeForComparison value) = normalizeForComparison value.
Proof.
  unfold normalizeForComparison, trim.
  set (y := collapse_runs_aux (fun c => negb (is_alnum c)) false (remove_chapter_label value)).
  destruct (collapse_alnum (remove_chapter_label value) false) as (H1 & H2 & _).
  fold y in H1, H2.
  assert (Ht : all_chars alnum_or_space (rtrim (ltrim y)) = true)
    by (apply all_chars_rtrim, all_chars_ltrim, H1).
  destruct (toLowerCase_props _ Ht) as (T1 & T2 & T3 & T4).
  split; [exact T1|]. split; [|split].
  - rewrite T2. apply single_rtrim, single_ltrim, H2.
  - rewrite T3, ltrim_rtrim_clean; [reflexivity|]. intros d r E. exact (ltrim_head _ d r E).
  - rewrite T4, rtrim_idem. reflexivity.
Qed.

(* ------------------------------------------------------------------ *)
(** ** What the chapter-title stripping removes *)

Lemma strip_count_spec (nt : string) (blocks : list StructuredBlock) :
  Forall (repeats_title nt) (firstn (strip_count nt blocks) blocks) /\
  forall b rest, skipn (strip_count nt blocks) blocks = b :: rest -> ~ repeats_title nt b.
Proof.
  induction blocks as [|b bs [IH1 IH2]]; [split; [constructor|discriminate]|].
  cbn [strip_count]. destruct (candidate b) as [c|] eqn:Ec.
  - destruct (normalizeForComparison c =? nt)%string eqn:E.
    + split; [|exact IH2]. cbn [firstn]. constructor; [|exact IH1].
      exists c. split; [exact Ec|apply String.eqb_eq, E].
    + split; [constructor|]. intros b' rest [= <- _] (c' & Hc' & Hn).
      rewrite Ec in Hc'. injection Hc' as <-. apply String.eqb_neq in E. contradiction.
  - split; [constructor|]. intros b' rest [= <- _] (c' & Hc' & _). congruence.
Qed.

(** X10: [stripLeadingChapterHeading] only drops a prefix of the blocks: the
    result is the blocks after the first [n], every dropped block is a heading
    or paragraph whose comparison form equals the title's, the first block
    kept (if any) is not such a block, and nothing is dropped when the title's
    comparison form is empty. *)
Theorem stripLeadingChapterHeading_drops_prefix (blocks : list StructuredBlock)
    (chapterTitle : string) :
  exists n,
    stripLeadingChapterHeading blocks chapterTitle = skipn n blocks /\
    Forall (repeats_title (normalizeForComparison chapterTitle)) (firstn n blocks) /\
    (normalizeForComparison chapterTitle = "" -> n = 0) /\
    (normalizeForComparison chapterTitle <> "" ->
     forall b rest, skipn n blocks = b :: rest ->
     ~ repeats_title (normalizeForComparison chapterTitle) b).
Proof.
  unfold stripLeadingChapterHeading.
  destruct (normalizeForComparison chapterTitle =? "")%string eqn:E.
  - exists 0. split; [reflexivity|]. split; [constructor|]. split; [reflexivity|].
    apply String.eqb_eq in E. intros H. contradiction.
  - set (nt := normalizeForComparison chapterTitle) in *.
    destruct (strip_count_spec nt blocks) as [H1 H2].
    exists (strip_count nt blocks). split; [|split; [exact H1|split; [|intros _; exact H2]]].
    + destruct (strip_count nt blocks =? 0) eqn:E0; [|reflexivity].
      apply Nat.eqb_eq in E0. rewrite E0. reflexivity.
    + intros H. apply String.eqb_neq in E. contradiction.
Qed.

(* ------------------------------------------------------------------ *)
(** ** The chapter image map *)

Lemma chapterImageMap_fold_lookup (k : Z) (l : list UserImageAsset) :
  forall m : gmap Z (list UserImageAsset),
  fold_left (fun m image =>
     match img_placement image with
     | Some (PChapter k _) => <[k := (default [] (m !! k) ++ [image])%list]> m
     | _ => m
     end) l m !! k =
  match m !! k, List.filter (placed_in k) l with
  | None, [] => None
  | o, rest => Some (default [] o ++ rest)%list
  end.
Proof.
  induction l as [|x l IH]; intros m; simpl.
  - destruct (m !! k); [rewrite app_nil_r|]; reflexivity.
  - rewrite IH. destruct (img_placement x) as [[|c|j a]|] eqn:Ep;
      try (assert (Hx : placed_in k x = false) by (unfold placed_in; rewrite Ep; reflexivity);
           rewrite Hx; reflexivity).
    destruct (Z.eqb_spec j k) as [->|Hne].
    + assert (Hx : placed_in k x = true) by (unfold placed_in; rewrite Ep; apply Z.eqb_refl).
      rewrite Hx, lookup_insert_eq.
      destruct (m !! k) as [y|]; simpl; [rewrite <- app_assoc|]; reflexivity.
    + assert (Hx : placed_in k x = false)
        by (unfold placed_in; rewrite Ep; apply Z.eqb_neq, Hne).
      rewrite Hx, lookup_insert_ne by congruence. reflexivity.
Qed.

(** X11: looking up chapter [k] in [chapterImageMap] gives the images placed
    in chapter [k], in their order in the list, and nothing when there is
    none. *)
Theorem chapterImageMap_lookup (images : list UserImageAsset) (k : Z) :
  chapterImageMap images !! k =
  match List.filter (placed_in k) images with
  | [] => None
  | l => Some l
  end.
Proof.
  unfold chapterImageMap. rewrite chapterImageMap_fold_lookup. rewrite lookup_empty.
  destruct (List.filter (placed_in k) images); reflexivity.
Qed.

(* ------------------------------------------------------------------ *)
(** ** The image cache *)

(** X12: a successful [getEmbeddedImageForAsset] leaves the state as it was
    except that the cache maps the asset's id to the returned image (an
    image already in the cache is returned with the state unchanged), so a
    later call for an asset of the same id returns the same image without
    decoding it again and changes nothing. *)
Theorem getEmbeddedImageForAsset_cached (atob : string -> option string)
    (embed : Embedder -> string -> option EmbeddedImage)
    (asset asset' : UserImageAsset) (s s' : St) (e : EmbeddedImage) :
  getEmbeddedImageForAsset atob embed asset s = inr (e, s') ->
  img_id asset' = img_id asset ->
  s' = mkSt (st_pages s) (st_ops s) (st_meta s) (st_toc s)
            (<[img_id asset := e]> (st_cache s)) (st_page s) (st_y s) /\
  getEmbeddedImageForAsset atob embed asset' s' = inr (e, s').
Proof.
  intros H Hid.
  unfold getEmbeddedImageForAsset, embedUserImage, dataUrlToUint8Array, embedWith,
    cache_set, modify, gets, throw, mbind, M_bind, mret, M_ret in *.
  rewrite Hid. destruct (st_cache s !! img_id asset) as [e0|] eqn:Ec.
  - injection H as <- <-. split; [|rewrite Ec; reflexivity].
    destruct s. cbn in *. rewrite insert_id by exact Ec. reflexivity.
  - destruct (atob _) as [bytes|]; [|discriminate].
    destruct (img_type asset =? "image/png")%string;
      (destruct (embed _ bytes) as [e1|]; [|discriminate]);
      injection H as <- <-; (split; [destruct s; reflexivity|]);
      cbn [st_cache]; rewrite lookup_insert_eq; reflexivity.
Qed.

Lemma getEmbeddedImageForAsset_cached_witness :
  getEmbeddedImageForAsset sample_atob sample_embed dangling_image initSt
    = inr (mkEmbedded 400 300,
           mkSt 0 [] [] [] (<["img-1" := mkEmbedded 400 300]> ∅) 0 0) /\
  getEmbeddedImageForAsset sample_atob sample_embed dangling_image
    (mkSt 0 [] [] [] (<["img-1" := mkEmbedded 400 300]> ∅) 0 0)
    = inr (mkEmbedded 400 300, mkSt 0 [] [] [] (<["img-1" := mkEmbedded 400 300]> ∅) 0 0).
Proof.
  assert (H : getEmbeddedImageForAsset sample_atob sample_embed dangling_image initSt
    = inr (mkEmbedded 400 300, mkSt 0 [] [] [] (<["img-1" := mkEmbedded 400 300]> ∅) 0 0))
    by reflexivity.
  split; [exact H|].
  exact (proj2 (getEmbeddedImageForAsset_cached _ _ _ dangling_image _ _ _ H eq_refl)).
Defined.

(* ------------------------------------------------------------------ *)
(** ** A blank line separates independent parts of the markup *)

Lemma split_aux_app (sep : ascii) (x y : string) :
  forall cur, split_aux sep cur (x ++ String sep y) = (split_aux sep cur x ++ split_aux sep "" y)%list.
Proof.
  induction x as [|c x IH]; intros cur.
  - simpl. rewrite Ascii.eqb_refl. reflexivity.
  - rewrite sapp_cons. simpl. destruct (Ascii.eqb c sep); [rewrite IH; reflexivity|apply IH].
Qed.

Lemma replace_crlf_LF (y : string) : replace_crlf (String LF y) = String LF (replace_crlf y).
Proof. destruct y; reflexivity. Qed.

Lemma replace_crlf_app (n : nat) :
  forall x y, String.length x <= n -> ends_cr x = false ->
  replace_crlf (x ++ String LF y) = (replace_crlf x ++ String LF (replace_crlf y))%string.
Proof.
  induction n as [|n IH]; intros x y Hn He.
  - destruct x; [apply replace_crlf_LF|simpl in Hn; lia].
  - destruct x as [|c [|c2 x]].
    + apply replace_crlf_LF.
    + change (ends_cr (String c "")) with (nat_of_ascii c =? 13) in He.
      change (String c "" ++ String LF y)%string with (String c (String LF y)).
      change (replace_crlf (String c "")) with (String c "").
      change (replace_crlf (String c (String LF y))) with
        (if (nat_of_ascii c =? 13) && (nat_of_ascii LF =? 10)
         then String (ascii_of_nat 10) (replace_crlf y)
         else String c (replace_crlf (String LF y))).
      rewrite He. simpl andb. cbv iota. rewrite replace_crlf_LF. reflexivity.
    + change (String c (String c2 x) ++ String LF y)%string
        with (String c (String c2 (x ++ String LF y))).
      change (replace_crlf (String c (String c2 (x ++ String LF y)))) with
        (if (nat_of_ascii c =? 13) && (nat_of_ascii c2 =? 10)
         then String (ascii_of_nat 10) (replace_crlf (x ++ String LF y))
         else String c (replace_crlf (String c2 (x ++ String LF y)))).
      change (replace_crlf (String c (String c2 x))) with
        (if (nat_of_ascii c =? 13) && (nat_of_ascii c2 =? 10)
         then String (ascii_of_nat 10) (replace_crlf x)
         else String c (replace_crlf (String c2 x))).
      simpl in Hn. change (ends_cr (String c (String c2 x))) with (ends_cr (String c2 x)) in He.
      destruct (_ && _).
      * rewrite sapp_cons. f_equal. apply IH; [lia|].
        destruct x as [|c3 x]; [reflexivity|]. exact He.
      * rewrite sapp_cons. f_equal. apply (IH (String c2 x)); [simpl; lia|exact He].
Qed.

Lemma flushParagraph_prefix (buf : list string) (B B' : list StructuredBlock) :
  flushParagraph buf (B ++ B') = (B ++ flushParagraph buf B')%list.
Proof.
  unfold flushParagraph. destruct buf; [reflexivity|].
  destruct (_ =? "")%string; [reflexivity|]. symmetry. apply app_assoc.
Qed.

Lemma parse_loop_prefix (f : nat) :
  forall lines buf B B',
  parse_loop f lines buf (B ++ B') = (B ++ parse_loop f lines buf B')%list.
Proof.
  induction f as [|f IH]; intros lines buf B B'; simpl; [apply flushParagraph_prefix|].
  destruct lines as [|line ls]; [apply flushParagraph_prefix|].
  destruct (trim line =? "")%string; [rewrite flushParagraph_prefix; apply IH|].
  destruct (headingMatch (trim line)) as [[level text]|];
    [rewrite flushParagraph_prefix, <- app_assoc; apply IH|].
  destruct (bulletMatch (trim line)).
  { destruct (take_bullets (line :: ls)) as [items rest].
    rewrite flushParagraph_prefix, <- app_assoc; apply IH. }
  destruct (blockquoteMatch (trim line)); [rewrite flushParagraph_prefix, <- app_assoc|]; apply IH.
Qed.

Lemma take_bullets_snd_le (line : string) (ls : list string) (g : string) :
  bulletMatch (trim line) = Some g ->
  length (snd (take_bullets (line :: ls))) <= length ls.
Proof.
  intros E. simpl. rewrite E. pose proof (take_bullets_rest ls) as H.
  destruct (take_bullets ls). exact H.
Qed.

Lemma parse_loop_fuel (f : nat) :
  forall g lines buf B, length lines < f -> length lines < g ->
  parse_loop f lines buf B = parse_loop g lines buf B.
Proof.
  induction f as [|f IH]; intros g lines buf B Hf Hg; [lia|].
  destruct g as [|g]; [lia|]. simpl.
  destruct lines as [|line ls]; [reflexivity|]. simpl in Hf, Hg.
  destruct (trim line =? "")%string; [apply IH; lia|].
  destruct (headingMatch (trim line)) as [[level text]|]; [apply IH; lia|].
  destruct (bulletMatch (trim line)) as [g'|] eqn:Eb.
  { pose proof (take_bullets_snd_le _ ls _ Eb) as Hr.
    destruct (take_bullets (line :: ls)) as [items rest]. simpl in Hr. apply IH; lia. }
  destruct (blockquoteMatch (trim line)); apply IH; lia.
Qed.

Lemma take_bullets_blank (l1 l2 : list string) :
  take_bullets (l1 ++ "" :: l2) =
  (fst (take_bullets l1), (snd (take_bullets l1) ++ "" :: l2)%list).
Proof.
  induction l1 as [|l l1 IH]; [reflexivity|]. simpl.
  destruct (bulletMatch (trim l)); [|reflexivity].
  rewrite IH. destruct (take_bullets l1). reflexivity.
Qed.

Lemma parse_loop_blank_split (f : nat) :
  forall l1 l2 buf B g, length (l1 ++ "" :: l2) < f -> length l2 < g ->
  parse_loop f (l1 ++ "" :: l2) buf B = parse_loop g l2 [] (parse_loop f l1 buf B).
Proof.
  induction f as [|f IH]; intros l1 l2 buf B g Hf Hg; [lia|].
  rewrite length_app in Hf. simpl in Hf.
  destruct l1 as [|line l1].
  - transitivity (parse_loop f l2 [] (flushParagraph buf B)); [reflexivity|].
    apply parse_loop_fuel; lia.
  - change ((line :: l1) ++ "" :: l2)%list with (line :: (l1 ++ "" :: l2))%list.
    cbn [parse_loop]. simpl length in Hf.
    destruct (trim line =? "")%string; [apply IH; rewrite ?length_app; simpl; lia|].
    destruct (headingMatch (trim line)) as [[level text]|];
      [apply IH; rewrite ?length_app; simpl; lia|].
    destruct (bulletMatch (trim line)) as [g'|] eqn:Eb.
    { change (line :: (l1 ++ "" :: l2))%list with ((line :: l1) ++ "" :: l2)%list.
      rewrite take_bullets_blank.
      pose proof (take_bullets_snd_le _ l1 _ Eb) as Hr.
      destruct (take_bullets (line :: l1)) as [items rest]. simpl fst; simpl snd in *.
      apply IH; rewrite ?length_app; simpl; lia. }
    destruct (blockquoteMatch (trim line)); apply IH; rewrite ?length_app; simpl; lia.
Qed.

(** X13: a blank line separates independent parts of the markup: parsing
    [a], a blank line, then [b] gives the blocks of [a] followed by the
    blocks of [b], when [a] does not end in a carriage return. *)
Theorem parseMarkdownToBlocks_blank_line (a b : string) :
  ends_cr a = false ->
  parseMarkdownToBlocks (a ++ String LF (String LF b)) =
  (parseMarkdownToBlocks a ++ parseMarkdownToBlocks b)%list.
Proof.
  intros Ha. unfold parseMarkdownToBlocks.
  rewrite (replace_crlf_app (String.length a) a _ (le_n _) Ha), replace_crlf_LF.
  unfold split. rewrite split_aux_app. cbn [split_aux]. rewrite Ascii.eqb_refl.
  change (ascii_of_nat 10) with LF.
  set (A := split_aux LF "" (replace_crlf a)).
  set (Bl := split_aux LF "" (replace_crlf b)).
  rewrite (parse_loop_blank_split _ _ _ _ _ (S (length Bl))) by (rewrite ?length_app; simpl; lia).
  rewrite <- (app_nil_r (parse_loop _ A [] [])) at 1.
  rewrite parse_loop_prefix. f_equal.
  apply parse_loop_fuel; rewrite ?length_app; simpl; lia.
Qed.

Lemma parseMarkdownToBlocks_blank_line_witness :
  ends_cr "# Title" = false /\
  parseMarkdownToBlocks ("# Title" ++ String LF (String LF "Some *text*")) =
  (parseMarkdownToBlocks "# Title" ++ parseMarkdownToBlocks "Some *text*")%list.
Proof.
  split; [reflexivity|]. apply parseMarkdownToBlocks_blank_line. reflexivity.
Defined.

(* ------------------------------------------------------------------ *)
(** ** Theme colours *)

Lemma hex_digit_char (c : ascii) (d : Z) :
  hex_digit c = Some d ->
  (0 <= d < 16)%Z /\ is_space c = false /\ Ascii.eqb c "-" = false /\
  Ascii.eqb c "+" = false /\ Ascii.eqb c "x" = false /\ Ascii.eqb c "X" = false.
Proof.
  destruct c as [[] [] [] [] [] [] [] []]; intros H; vm_compute in H;
    first [discriminate H | injection H as <-; repeat split; (reflexivity || lia)].
Qed.

Lemma byte_of_int32 (R G B : Z) :
  (0 <= R < 256)%Z -> (0 <= G < 256)%Z -> (0 <= B < 256)%Z ->
  let v := (R * 65536 + G * 256 + B)%Z in
  Z.land (Z.shiftr v 16) 255 = R /\ Z.land (Z.shiftr v 8) 255 = G /\ Z.land v 255 = B.
Proof.
  intros HR HG HB v. change 255%Z with (Z.ones 8).
  rewrite !Z.land_ones by lia. rewrite !Z.shiftr_div_pow2 by lia.
  change (2 ^ 16)%Z with 65536%Z. change (2 ^ 8)%Z with 256%Z.
  rewrite <- (Z.div_unique v 65536 R (G * 256 + B)) by (lia || (unfold v; lia)).
  rewrite <- (Z.div_unique v 256 (R * 256 + G) B) by (lia || (unfold v; lia)).
  rewrite (Z.mod_small R) by lia.
  rewrite <- (Z.mod_unique (R * 256 + G) 256 R G) by lia.
  rewrite <- (Z.mod_unique v 256 (R * 256 + G) B) by (lia || (unfold v; lia)).
  split; [reflexivity|split; reflexivity].
Qed.

(** X14: [hexToRgb] reads a colour written as ['#'] and six hexadecimal
    digits (either case): each channel is the value of its two digits
    divided by 255. *)
Theorem hexToRgb_six_digits (c1 c2 c3 c4 c5 c6 : ascii) (d1 d2 d3 d4 d5 d6 : Z) :
  hex_digit c1 = Some d1 -> hex_digit c2 = Some d2 -> hex_digit c3 = Some d3 ->
  hex_digit c4 = Some d4 -> hex_digit c5 = Some d5 -> hex_digit c6 = Some d6 ->
  hexToRgb (String "#" (String c1 (String c2 (String c3 (String c4 (String c5 (String c6 "")))))))
  = mkRGB (inject_Z (d1 * 16 + d2) / 255) (inject_Z (d3 * 16 + d4) / 255)
          (inject_Z (d5 * 16 + d6) / 255).
Proof.
  intros H1 H2 H3 H4 H5 H6.
  destruct (hex_digit_char _ _ H1) as (B1 & S1 & M1 & P1 & _).
  destruct (hex_digit_char _ _ H2) as (B2 & _ & _ & _ & X2 & Y2).
  pose proof (hex_digit_char _ _ H3) as [B3 _]. pose proof (hex_digit_char _ _ H4) as [B4 _].
  pose proof (hex_digit_char _ _ H5) as [B5 _]. pose proof (hex_digit_char _ _ H6) as [B6 _].
  unfold hexToRgb. cbn [replace_first_hash]. rewrite Ascii.eqb_refl.
  unfold parseInt16. cbn [ltrim]. rewrite S1. rewrite M1, P1.
  rewrite X2, Y2, andb_false_r. cbn [hex_prefix]. rewrite H1, H2, H3, H4, H5, H6.
  set (R := (d1 * 16 + d2)%Z). set (G := (d3 * 16 + d4)%Z). set (B := (d5 * 16 + d6)%Z).
  assert (Hv : (1 * hex_value [d1; d2; d3; d4; d5; d6] = R * 65536 + G * 256 + B)%Z)
    by (unfold hex_value, R, G, B; simpl; ring).
  rewrite Hv. unfold round_double.
  assert (Hr : (0 <= R * 65536 + G * 256 + B < 2 ^ 24)%Z) by (unfold R, G, B; simpl; lia).
  rewrite Z.abs_eq by lia.
  replace (Z.ltb (R * 65536 + G * 256 + B)%Z (2 ^ 53)%Z) with true by (symmetry; apply Z.ltb_lt; lia).
  replace (Z.leb (2 ^ 1024)%Z (R * 65536 + G * 256 + B)%Z) with false by (symmetry; apply Z.leb_gt; lia).
  unfold toInt32.
  replace (Z.sgn (R * 65536 + G * 256 + B) * (R * 65536 + G * 256 + B))%Z
    with (R * 65536 + G * 256 + B)%Z
    by (destruct (Z.eq_dec (R * 65536 + G * 256 + B)%Z 0%Z) as [E|E];
        [rewrite E; reflexivity|rewrite Z.sgn_pos by lia; ring]).
  rewrite Z.mod_small by lia.
  replace (Z.leb (2 ^ 31)%Z (R * 65536 + G * 256 + B)%Z) with false by (symmetry; apply Z.leb_gt; lia).
  destruct (byte_of_int32 R G B ltac:(unfold R; lia) ltac:(unfold G; lia) ltac:(unfold B; lia))
    as (ER & EG & EB).
  rewrite ER, EG, EB. reflexivity.
Qed.

Lemma hexToRgb_six_digits_witness :
  hex_digit "2" = Some 2%Z /\ hex_digit "5" = Some 5%Z /\ hex_digit "6" = Some 6%Z /\
  hex_digit "3" = Some 3%Z /\ hex_digit "e" = Some 14%Z /\ hex_digit "B" = Some 11%Z /\
  hexToRgb "#2563eB" = mkRGB (inject_Z (2 * 16 + 5) / 255) (inject_Z (6 * 16 + 3) / 255)
                              (inject_Z (14 * 16 + 11) / 255).
Proof.
  do 6 (split; [reflexivity|]).
  apply hexToRgb_six_digits; reflexivity.
Defined.

(** X15: whatever the string, [hexToRgb] never gives a channel outside
    [0, 1]: each channel is [k / 255] for an integer [k] from 0 to 255. A
    string that [parseInt(hex, 16)] reads as NaN (no hexadecimal digit after
    the first ['#'] is removed and the optional whitespace, sign and [0x]
    are read) or as Infinity gives black: every channel is [0 / 255]. *)
Theorem hexToRgb_channels_range (value : string) :
  (exists kr kg kb : Z,
    (0 <= kr <= 255)%Z /\ (0 <= kg <= 255)%Z /\ (0 <= kb <= 255)%Z /\
    hexToRgb value = mkRGB (inject_Z kr / 255) (inject_Z kg / 255) (inject_Z kb / 255)) /\
  ((parseInt16 (replace_first_hash value) = JNaN \/
    parseInt16 (replace_first_hash value) = JInf) ->
   hexToRgb value = mkRGB (inject_Z 0 / 255) (inject_Z 0 / 255) (inject_Z 0 / 255)).
Proof.
  split.
  - unfold hexToRgb.
    set (x := toInt32 (parseInt16 (replace_first_hash value))).
    assert (Hb : forall y : Z, (0 <= Z.land y 255 <= 255)%Z).
    { intros y. assert (E : Z.land y 255 = (y mod 256)%Z)
        by (apply (Z.land_ones y 8); lia).
      rewrite E. pose proof (Z.mod_pos_bound y 256 ltac:(lia)). lia. }
    exists (Z.land (Z.shiftr x 16) 255), (Z.land (Z.shiftr x 8) 255), (Z.land x 255).
    split; [apply Hb|split; [apply Hb|split; [apply Hb|reflexivity]]].
  - intros [E|E]; unfold hexToRgb; rewrite E; reflexivity.
Qed.

(* ------------------------------------------------------------------ *)
(** ** A paragraph of whitespace draws nothing *)

Lemma ws_runs_aux_all_space (s : string) :
  forall cur sp, all_space cur = true -> all_space s = true ->
  Forall (fun part => all_space part = true) (ws_runs_aux cur sp s).
Proof.
  induction s as [|c s IH]; intros cur sp Hc Hs.
  - simpl. destruct (cur =? "")%string; repeat constructor; assumption.
  - simpl in Hs. apply andb_prop in Hs as [Hsc Hs]. cbn [ws_runs_aux].
    destruct ((cur =? "")%string || Bool.eqb (is_space c) sp).
    + apply IH; [|exact Hs]. rewrite all_space_app, Hc. simpl. rewrite Hsc. reflexivity.
    + constructor; [exact Hc|]. apply IH; [|exact Hs]. simpl. rewrite Hsc. reflexivity.
Qed.

Lemma tokenizeSpans_all_space (widthOfTextAtSize : PDFFont -> string -> Q -> Q)
    (spans : list RichTextSpan) (fonts : PDFFont * PDFFont * PDFFont) (fontSize : Q) :
  forallb (fun sp => all_space (span_text sp)) spans = true ->
  Forall (fun t => tok_isSpace t = true) (tokenizeSpans widthOfTextAtSize spans fonts fontSize).
Proof.
  unfold tokenizeSpans. destruct fonts as [[regular bold] italic].
  induction spans as [|sp spans IH]; intros H; [constructor|].
  simpl in H. apply andb_prop in H as [Hsp H].
  cbn [flat_map]. apply List.Forall_app. split; [|exact (IH H)].
  apply List.Forall_map.
  apply (List.Forall_impl _ (fun part (Hp : all_space part = true) => Hp)).
  apply ws_runs_aux_all_space; [reflexivity|exact Hsp].
Qed.

Lemma wrapTokens_all_space (tokens : list StyledToken) (maxWidth : Q) :
  Forall (fun t => tok_isSpace t = true) tokens -> wrapTokens tokens maxWidth = [].
Proof.
  intros H. unfold wrapTokens.
  assert (Hf : forall st, ws_current st = [] ->
                 fold_left (wrap_step maxWidth) tokens st = st).
  { induction H as [|t tokens Ht H IH]; intros st Hst; [reflexivity|].
    cbn [fold_left].
    assert (Hs : wrap_step maxWidth st t = st).
    { unfold wrap_step. rewrite Ht, Hst. cbn [negb andb]. rewrite Hst. reflexivity. }
    rewrite Hs. apply IH, Hst. }
  rewrite Hf by reflexivity. reflexivity.
Qed.

(** X16: [drawRichParagraph] does nothing when every span's text is
    whitespace or empty (in particular when there is no span): it does not
    call [ensureSpaceFn] or [beforeFirstLine], draws no text and leaves the
    page and the cursor [y] as they were. *)
Theorem drawRichParagraph_blank (widthOfTextAtSize : PDFFont -> string -> Q -> Q)
    (spans : list RichTextSpan) (fonts : PDFFont * PDFFont * PDFFont)
    (ensureSpaceFn : Q -> M unit) (origin cWidth fontSize lHeight pSpacing : Q)
    (options : ParagraphOptions) :
  forallb (fun sp => all_space (span_text sp)) spans = true ->
  drawRichParagraph widthOfTextAtSize spans fonts ensureSpaceFn origin cWidth fontSize
    lHeight pSpacing options = mret tt.
Proof.
  intros H. unfold drawRichParagraph. destruct spans as [|sp spans]; [reflexivity|].
  cbv zeta.
  rewrite (wrapTokens_all_space _ _ (tokenizeSpans_all_space _ _ _ _ H)).
  reflexivity.
Qed.

Lemma drawRichParagraph_blank_witness :
  forallb (fun sp => all_space (span_text sp)) [plain " "; mkSpan "" true false] = true /\
  drawRichParagraph sample_width [plain " "; mkSpan "" true false] (textFonts sample_config)
    (fun _ => mret tt) 72 400 12 16 8 noOptions = mret tt.
Proof.
  split; [reflexivity|].
  apply drawRichParagraph_blank. reflexivity.
Defined.
